(** * taxtastic: NCBI / GreenGenes taxonomy loading

  A shallow embedding of the parts of [taxtastic/ncbi.py] and
  [taxtastic/greengenes.py] that heal primary names, seed and propagate
  the [is_valid] flag, classify names and clean species names, followed
  by the properties established about them.

  Modelling conventions.
  - Python byte strings are [string]; Python lists are [list].
  - A Python exception is a value [Raise e] of the [result] type.
  - The SQLite tables are lists of records in row order.  A nullable
    column is an [option]; SQL comparisons follow the three-valued
    logic: a comparison that involves NULL never selects a row.
  - A [while] loop that may not terminate takes a fuel argument and
    returns [None] when the fuel runs out. *)

From Stdlib Require Import String Ascii ZArith Lia Bool Arith PeanoNat List Permutation Sorted.
Import ListNotations.
Local Open Scope string_scope.
Local Open Scope list_scope.
Local Open Scope nat_scope.

(* ================================================================= *)
(** * Part I: the embedding *)
(* ================================================================= *)

(** ** Python exceptions and results *)

Module Py.

Inductive exn : Type :=
| IndexError
| StopIteration
| IntegrityError.

Inductive result (A : Type) : Type :=
| Ok (a : A)
| Raise (e : exn).

Arguments Ok {A} a.
Arguments Raise {A} e.

Definition bind {A B : Type} (m : result A) (k : A -> result B) : result B :=
  match m with
  | Ok a => k a
  | Raise e => Raise e
  end.

(** [s.startswith(p)] *)
Definition startswith (s p : string) : bool := String.prefix p s.

(** [s[i]] for a non-negative index: [IndexError] when out of range. *)
Definition getitem (s : string) (i : nat) : result ascii :=
  match String.get i s with
  | Some c => Ok c
  | None => Raise IndexError
  end.

(** [s[:i]] and [s[i:]] for [0 <= i]; slicing never raises. *)
Definition slice_to (s : string) (i : nat) : string := String.substring 0 i s.
Definition slice_from (s : string) (i : nat) : string :=
  String.substring i (String.length s - i) s.

(** [sep.join((a, b))] *)
Definition join2 (sep a b : string) : string :=
  String.append a (String.append sep b).

End Py.

Import Py.

Notation "x <- m ;; k" := (Py.bind m (fun x => k))
(at level 61, m at next level, right associativity).

(** ** greengenes.py *)

Module Greengenes.

(** [_add_space(species, genus)]: the conjunction is evaluated left to
    right, so [species[l]] is only read when [startswith] holds. *)
Definition _add_space (species genus : string) : result string :=
  let l := String.length genus in
  if startswith species genus then
    c <- getitem species l ;;
    if negb (Ascii.eqb c " "%char)
    then Ok (join2 " " (slice_to species l) (slice_from species l))
    else Ok species
  else Ok species.

(** [bisect.bisect_left(a, x)] of the Python library: binary search for
    the leftmost insertion point.  [hi - lo] shrinks at every step, so
    [fuel = len(a)] steps are enough. *)
Fixpoint bisect_loop (fuel : nat) (a : list string) (x : string) (lo hi : nat) : nat :=
  match fuel with
  | 0 => lo
  | S fuel' =>
      if lo <? hi then
        let mid := (lo + hi) / 2 in
        match nth_error a mid with
        | Some k => if String.ltb k x
                    then bisect_loop fuel' a x (mid + 1) hi
                    else bisect_loop fuel' a x lo mid
        | None => lo
        end
      else lo
  end.

Definition bisect_left (a : list string) (x : string) : nat :=
  bisect_loop (List.length a) a x 0 (List.length a).

(** [itertools.takewhile(pred, it)] *)
Fixpoint takewhile {A : Type} (pred : A -> bool) (it : list A) : list A :=
  match it with
  | [] => []
  | x :: it' => if pred x then x :: takewhile pred it' else []
  end.

(** [find_genus(tax_name)] of [_clean_species], over the sorted genus
    names [keys]: the first key from the insertion point of
    [tax_name[0]], among those below [tax_name], that [tax_name] starts
    with; [None] when the loop ends without a [return]. *)
Definition find_genus (keys : list string) (tax_name : string) : result (option string) :=
  c <- getitem tax_name 0 ;;
  let start := bisect_left keys (String c EmptyString) in
  let poss_genus := skipn start keys in
  let poss_genus := takewhile (fun k => String.ltb k tax_name) poss_genus in
  Ok (find (fun genus => startswith tax_name genus) poss_genus).

(** The loop of [_clean_species] that collects the arguments of the
    [UPDATE]: [(new_tax_name, tax_id, tax_name)] for every species whose
    genus is found.  [if genus:] rejects [None] and the empty string. *)
Fixpoint clean_args (keys : list string) (cursor : list (string * string))
  : result (list (string * string * string)) :=
  match cursor with
  | [] => Ok []
  | (tax_id, tax_name) :: rest =>
      genus <- find_genus keys tax_name ;;
      match genus with
      | Some (String _ _ as g) =>
          new_tax_name <- _add_space tax_name g ;;
          args <- clean_args keys rest ;;
          Ok ((new_tax_name, tax_id, tax_name) :: args)
      | _ => clean_args keys rest
      end
  end.

End Greengenes.

(** ** Python string helpers used by ncbi.py *)

Module PyStr.

(** [string.whitespace] of Python 2: tab, newline, vertical tab, form
    feed, carriage return and space. *)
Definition is_space (c : ascii) : bool :=
  let n := nat_of_ascii c in
  ((9 <=? n) && (n <=? 13)) || (n =? 32).

Fixpoint lstrip (s : string) : string :=
  match s with
  | EmptyString => EmptyString
  | String c s' => if is_space c then lstrip s' else s
  end.

Fixpoint rstrip (s : string) : string :=
  match s with
  | EmptyString => EmptyString
  | String c s' =>
      match rstrip s' with
      | EmptyString => if is_space c then EmptyString else String c EmptyString
      | t => String c t
      end
  end.

(** [s.strip()] *)
Definition strip (s : string) : string := rstrip (lstrip s).

(** [s.split(d)[0]]: the text before the first occurrence of [d]. *)
Fixpoint split_head (d : ascii) (s : string) : string :=
  match s with
  | EmptyString => EmptyString
  | String c s' => if Ascii.eqb c d then EmptyString else String c (split_head d s')
  end.

(** [s.split()]: maximal runs of non-whitespace characters.  [cur] is
    the word being read. *)
Fixpoint split_from (cur : string) (s : string) : list string :=
  match s with
  | EmptyString => match cur with EmptyString => [] | _ => [cur] end
  | String c s' =>
      if is_space c
      then match cur with
           | EmptyString => split_from EmptyString s'
           | _ => cur :: split_from EmptyString s'
           end
      else split_from (String.append cur (String c EmptyString)) s'
  end.

Definition split (s : string) : list string := split_from EmptyString s.

(** [s.split(sep)] for a non-empty [sep]: [skip] counts the characters
    of a separator still to pass over, [cur] is the piece being read. *)
Fixpoint split_sep_from (sep : string) (skip : nat) (cur : string) (s : string) : list string :=
  match s with
  | EmptyString => [cur]
  | String c s' =>
      match skip with
      | S n => split_sep_from sep n cur s'
      | 0 => if String.prefix sep s
             then cur :: split_sep_from sep (String.length sep - 1) EmptyString s'
             else split_sep_from sep 0 (String.append cur (String c EmptyString)) s'
      end
  end.

Definition split_sep (sep : string) (s : string) : list string :=
  split_sep_from sep 0 EmptyString s.

(** Whether the character [c] occurs in [s]. *)
Fixpoint contains (c : ascii) (s : string) : bool :=
  match s with
  | EmptyString => false
  | String d s' => Ascii.eqb c d || contains c s'
  end.

(** [s.rstrip(chars)]: [s] without the characters of [chars] at its
    end. *)
Fixpoint rstrip_chars (chars : string) (s : string) : string :=
  match s with
  | EmptyString => EmptyString
  | String c s' =>
      match rstrip_chars chars s' with
      | EmptyString => if contains c chars then EmptyString else String c EmptyString
      | t => String c t
      end
  end.

End PyStr.

(** ** greengenes.py: parsing a lineage *)

Module Lineage.

(** The exceptions that [_parse_classes] can raise. *)
Inductive error : Type :=
| ValueError      (* an item that does not unpack into two parts *)
| KeyError        (* a rank key that [_rank_map] does not have *)
| IndexError.     (* an index out of range *)

Inductive parsed (A : Type) : Type :=
| Parsed (a : A)
| Failed (e : error).

Arguments Parsed {A} a.
Arguments Failed {A} e.

(** [_rank_map] *)
Definition _rank_map (key : string) : option string :=
  if String.eqb key "k" then Some "kingdom"
  else if String.eqb key "p" then Some "phylum"
  else if String.eqb key "c" then Some "class"
  else if String.eqb key "o" then Some "order"
  else if String.eqb key "f" then Some "family"
  else if String.eqb key "g" then Some "genus"
  else if String.eqb key "s" then Some "species"
  else None.

(** [[i.strip().split('__') for i in classes.split(';')]] *)
Definition lineage_items (classes : string) : list (list string) :=
  map (fun i => PyStr.split_sep "__" (PyStr.strip i)) (PyStr.split_sep ";" classes).

(** [([_rank_map[cls_key], cls or None] for cls_key, cls in split if cls)]
    as [result.extend] consumes it: each item is unpacked, then tested,
    then looked up, before the next item is read. *)
Fixpoint classifications (split : list (list string)) : parsed (list (string * string)) :=
  match split with
  | [] => Parsed []
  | item :: rest =>
      match item with
      | [cls_key; cls] =>
          match cls with
          | EmptyString => classifications rest
          | String _ _ =>
              match _rank_map cls_key with
              | None => Failed KeyError
              | Some rank =>
                  match classifications rest with
                  | Parsed l => Parsed ((rank, cls) :: l)
                  | Failed e => Failed e
                  end
              end
          end
      | _ => Failed ValueError
      end
  end.

(** The special handling of species and genus at the end of
    [_parse_classes]; [rev_result] is the result from its last entry
    backwards, so that its head is [result[-1]]. *)
Definition respace_species (rev_result : list (string * string))
  : parsed (list (string * string)) :=
  match rev_result with
  | [] => Failed IndexError
  | (rank1, species) :: before =>
      if String.eqb rank1 "species" then
        match before with
        | [] => Failed IndexError
        | (rank2, genus) :: _ =>
            if String.eqb rank2 "genus" then
              if Py.startswith species genus then
                match String.get (String.length genus) species with
                | None => Failed IndexError
                | Some c =>
                    if negb (Ascii.eqb c " "%char) then
                      match Greengenes._add_space species genus with
                      | Py.Ok spaced => Parsed ((rank1, spaced) :: before)
                      | Py.Raise _ => Failed IndexError
                      end
                    else Parsed rev_result
                end
              else Parsed rev_result
            else Parsed rev_result
        end
      else Parsed rev_result
  end.

(** [_parse_classes(classes)]; [root_name] stands for [taxdb.root_name],
    a constant of a module that is not among the sources. *)
Definition _parse_classes (root_name : string) (classes : string)
  : parsed (list (string * string)) :=
  let split := lineage_items classes in
  match classifications split with
  | Failed e => Failed e
  | Parsed cl =>
      let result := (root_name, root_name) :: cl in
      match respace_species (rev result) with
      | Parsed r => Parsed (rev r)
      | Failed e => Failed e
      end
  end.

End Lineage.

(** ** The fragment of Python's [re] used by [UNCLASSIFIED_REGEX] *)

Module Re.

Inductive regex : Type :=
| Eps
| Chr (c : ascii)              (* a literal character, also an escaped one *)
| Set_ (cs : string)           (* [...] *)
| Digit                        (* \d *)
| WordB                        (* \b *)
| Seq (r1 r2 : regex)
| Alt (r1 r2 : regex).

(** A literal run of characters. *)
Fixpoint lit (s : string) : regex :=
  match s with
  | EmptyString => Eps
  | String c EmptyString => Chr c
  | String c s' => Seq (Chr c) (lit s')
  end.

(** [p1|p2|...|pn] *)
Fixpoint alts (ps : list regex) : regex :=
  match ps with
  | [] => Eps
  | [p] => p
  | p :: ps' => Alt p (alts ps')
  end.

Fixpoint mem (c : ascii) (cs : string) : bool :=
  match cs with
  | EmptyString => false
  | String d cs' => Ascii.eqb c d || mem c cs'
  end.

Definition is_digit (c : ascii) : bool :=
  let n := nat_of_ascii c in (48 <=? n) && (n <=? 57).

(** [\w] for a byte-string pattern without flags: [[a-zA-Z0-9_]]. *)
Definition is_word (c : ascii) : bool :=
  let n := nat_of_ascii c in
  is_digit c || ((65 <=? n) && (n <=? 90)) || ((97 <=? n) && (n <=? 122)) || (n =? 95).

Definition word_at (c : option ascii) : bool :=
  match c with Some a => is_word a | None => false end.

Definition head (s : string) : option ascii :=
  match s with String c _ => Some c | EmptyString => None end.

(** [matches r prev s k]: some match of [r] at the start of [s], where
    [prev] is the character just before [s] (none at the start of the
    subject), leaves a rest accepted by the continuation [k]. *)
Fixpoint matches (r : regex) (prev : option ascii) (s : string)
         (k : option ascii -> string -> bool) : bool :=
  match r with
  | Eps => k prev s
  | Chr c =>
      match s with
      | String d s' => Ascii.eqb c d && k (Some d) s'
      | EmptyString => false
      end
  | Set_ cs =>
      match s with
      | String d s' => mem d cs && k (Some d) s'
      | EmptyString => false
      end
  | Digit =>
      match s with
      | String d s' => is_digit d && k (Some d) s'
      | EmptyString => false
      end
  | WordB => negb (Bool.eqb (word_at prev) (word_at (head s))) && k prev s
  | Seq r1 r2 => matches r1 prev s (fun p s' => matches r2 p s' k)
  | Alt r1 r2 => matches r1 prev s k || matches r2 prev s k
  end.

Fixpoint search_from (r : regex) (prev : option ascii) (s : string) : bool :=
  matches r prev s (fun _ _ => true) ||
  match s with
  | String c s' => search_from r (Some c) s'
  | EmptyString => false
  end.

(** The truth value of [r.search(s)]: is there a match anywhere in [s]? *)
Definition search (r : regex) (s : string) : bool := search_from r None s.

End Re.

(** ** ncbi.py *)

Module Ncbi.

Import Re.

(** [\x08], the backspace character that the non-raw literal
    ['vector\b'] contains. *)
Definition backspace : ascii := ascii_of_nat 8.

(** [UNCLASSIFIED_REGEX].  The patterns are joined by [|] in the
    iteration order of a [frozenset], which is not fixed; the truth value
    of a search does not depend on that order.  Adjacent literals without
    a comma between them are one pattern: ['Taxon' '\d\d'] and
    [r'str\.' 'strain']. *)
Definition unclassified_patterns : list regex :=
  [ lit "-like";
    Seq (lit "Taxon") (Seq Digit Digit);
    lit "acidophile";
    lit "actinobacterium";
    lit "aerobic";
    Seq WordB (Seq (Set_ "Al") (Seq (Chr "g") (Seq (Alt (lit "um") (lit "a")) WordB)));
    Seq WordB (Seq (Set_ "Bb") (Seq (lit "acteri") (Alt (lit "um") (lit "a"))));
    lit "Barophile";
    lit "cyanobacterium";
    lit "Chloroplast";
    lit "Cloning";
    lit "cluster";
    lit "-containing";
    lit "epibiont";
    lit "eubacterium";
    Seq WordB (Seq (Set_ "Gg") (Seq (lit "roup") WordB));
    lit "halophilic";
    Seq (lit "hydrothermal") WordB;
    lit "isolate";
    lit "marine";
    lit "methanotroph";
    lit "microorganism";
    lit "mollicute";
    lit "pathogen";
    Seq (Set_ "Pp") (lit "hytoplasma");
    lit "proteobacterium";
    lit "putative";
    Seq WordB (lit "sp.");
    lit "species";
    lit "spirochete";
    lit "str.strain";
    lit "symbiont";
    lit "taxon";
    lit "unicellular";
    lit "uncultured";
    lit "unclassified";
    lit "unidentified";
    lit "unknown";
    Seq (lit "vector") (Chr backspace);
    Seq (lit "vent") WordB ].

Definition UNCLASSIFIED_REGEX : regex := alts unclassified_patterns.

Definition scientific_name : string := "scientific name".

(** *** read_archive, read_dmp *)

Definition tab : ascii := ascii_of_nat 9.
Definition newline : ascii := ascii_of_nat 10.

(** ['\t|\n'], the characters stripped from the end of a line, and
    ['\t|\t'], the separator of the fields. *)
Definition line_end : string := String tab (String "|" (String newline EmptyString)).
Definition field_sep : string := String tab (String "|" (String tab EmptyString)).

(** [line.rstrip('\t|\n').split('\t|\t')], what [read_archive] and
    [read_dmp] yield for a line. *)
Definition dmp_fields (line : string) : list string :=
  PyStr.split_sep field_sep (PyStr.rstrip_chars line_end line).

(** *** Tables *)

(** A line of [names.dmp] as [read_archive] yields it: four fields. *)
Module Dmp.
Record name : Type := mk_name {
  tax_id : string;
  tax_name : string;
  unique_name : string;
  name_class : string }.
End Dmp.

(** Table [names]; every column is nullable in [db_schema]. *)
Module Names.
Record row : Type := mk {
  tax_id : option string;
  tax_name : option string;
  unique_name : option string;
  name_class : option string;
  is_primary : option Z;
  is_classified : option Z }.

Definition set_is_primary (v : option Z) (r : row) : row :=
  {| tax_id := tax_id r; tax_name := tax_name r; unique_name := unique_name r;
     name_class := name_class r; is_primary := v; is_classified := is_classified r |}.
End Names.

(** Table [nodes]: [tax_id] is [NOT NULL], the other columns are
    nullable.  The columns [embl_code], [division_id] and [source_id]
    are not read or written by the functions below and are left out. *)
Module Nodes.
Record row : Type := mk {
  tax_id : string;
  parent_id : option string;
  rank : option string;
  is_valid : option Z }.

Definition set_is_valid (v : option Z) (r : row) : row :=
  {| tax_id := tax_id r; parent_id := parent_id r; rank := rank r; is_valid := v |}.
End Nodes.

(** The connection: both tables and SQLite's count of rows changed by
    the statements run so far ([total_changes]). *)
Record con : Type := mk_con {
  nodes : list Nodes.row;
  names : list Names.row;
  total_changes : nat }.

(** *** SQL primitives *)

Module Sql.

(** [a = b] as a row filter: never true when an operand is NULL. *)
Definition eq_text (a b : option string) : bool :=
  match a, b with
  | Some x, Some y => String.eqb x y
  | _, _ => false
  end.

(** Equality of grouping keys: [GROUP BY] puts the NULLs in one group. *)
Definition same_key (a b : option string) : bool :=
  match a, b with
  | Some x, Some y => String.eqb x y
  | None, None => true
  | _, _ => false
  end.

(** The distinct grouping keys.  SQL leaves the order of the groups
    open; they are listed here in order of first occurrence. *)
Fixpoint distinct (l : list (option string)) : list (option string) :=
  match l with
  | [] => []
  | k :: l' => k :: filter (fun k' => negb (same_key k k')) (distinct l')
  end.

(** [SUM(col)]: NULLs are skipped, and the sum of no value is NULL.
    SQLite adds in 64-bit integers and ends the query with the error
    ['integer overflow'] when a partial sum leaves that range; [sum] is
    the value of the aggregate where that does not happen, as with the
    flags 0 and 1 that [read_names] writes.  The statements on what a
    run of [fix_missing_primary] selects or returns are made for such
    flags, or for a run that has completed. *)
Fixpoint sum (l : list (option Z)) : option Z :=
  match l with
  | [] => None
  | None :: l' => sum l'
  | Some z :: l' =>
      match sum l' with
      | None => Some z
      | Some t => Some (z + t)%Z
      end
  end.

(** [x = 0] as a filter. *)
Definition is_zero (x : option Z) : bool :=
  match x with Some z => Z.eqb z 0 | None => false end.

(** [UPDATE t SET ... WHERE ...] and the number of rows it changes. *)
Definition update {A : Type} (where_ : A -> bool) (set : A -> A) (t : list A) : list A :=
  map (fun r => if where_ r then set r else r) t.

Definition rowcount {A : Type} (where_ : A -> bool) (t : list A) : nat :=
  length (filter where_ t).

End Sql.

(** *** read_names *)

(** [_is_primary(row)] *)
Definition _is_primary (row : Dmp.name) : Z :=
  if negb (String.eqb (Dmp.name_class row) scientific_name) then 0%Z
  else if String.eqb (Dmp.unique_name row) EmptyString then 1%Z
  else if String.eqb (Dmp.tax_name row)
                     (PyStr.strip (PyStr.split_head "<"%char (Dmp.unique_name row)))
       then 1%Z
  else 0%Z.

(** [_is_classified(row)]: the whole of [tax_name] is searched.  Without
    a regex the column is [None]. *)
Definition _is_classified (unclassified_regex : option regex) (row : Dmp.name) : option Z :=
  match unclassified_regex with
  | Some re => let tn := Dmp.tax_name row in
               Some (if Re.search re tn then 0%Z else 1%Z)
  | None => None
  end.

(** [read_names(rows, unclassified_regex)]: each line extended by
    [is_primary] and [is_classified], as it is inserted in [names]. *)
Definition read_names (rows : list Dmp.name) (unclassified_regex : option regex)
  : list Names.row :=
  map (fun row =>
         {| Names.tax_id := Some (Dmp.tax_id row);
            Names.tax_name := Some (Dmp.tax_name row);
            Names.unique_name := Some (Dmp.unique_name row);
            Names.name_class := Some (Dmp.name_class row);
            Names.is_primary := Some (_is_primary row);
            Names.is_classified := _is_classified unclassified_regex row |})
      rows.

(** *** fix_missing_primary *)

(** A result row of [rows_for_taxid]:
    [(tax_id, tax_name, unique_name, name_class)]. *)
Definition record : Type :=
  (option string * option string * option string * option string)%type.

(** [i[-1] == 'scientific name'] *)
Definition is_scientific (i : record) : bool :=
  match snd i with
  | Some c => String.eqb c scientific_name
  | None => false
  end.

(** [SELECT tax_id FROM names GROUP BY tax_id HAVING SUM(is_primary) = 0] *)
Definition missing_primary (t : list Names.row) : list (option string) :=
  filter (fun k =>
            Sql.is_zero
              (Sql.sum (map Names.is_primary
                            (filter (fun r => Sql.same_key (Names.tax_id r) k) t))))
         (Sql.distinct (map Names.tax_id t)).

Definition select_record (r : Names.row) : record :=
  (Names.tax_id r, Names.tax_name r, Names.unique_name r, Names.name_class r).

(** [SELECT tax_id, tax_name, unique_name, name_class FROM names
     WHERE tax_id = ?] *)
Definition rows_for_taxid (t : list Names.row) (tax_id : option string) : list record :=
  map select_record (filter (fun r => Sql.eq_text (Names.tax_id r) tax_id) t).

(** [WHERE tax_id = ? AND name_class = ?] *)
Definition where_class (tax_id name_class : option string) (r : Names.row) : bool :=
  Sql.eq_text (Names.tax_id r) tax_id && Sql.eq_text (Names.name_class r) name_class.

(** [WHERE tax_id = ? AND tax_name = ? AND unique_name = ? AND name_class = ?] *)
Definition where_record (i : record) (r : Names.row) : bool :=
  let '(tax_id, tax_name, unique_name, name_class) := i in
  Sql.eq_text (Names.tax_id r) tax_id && Sql.eq_text (Names.tax_name r) tax_name &&
  Sql.eq_text (Names.unique_name r) unique_name &&
  Sql.eq_text (Names.name_class r) name_class.

(** [UPDATE names SET is_primary = 1 WHERE ...] *)
Definition set_primary_where (where_ : Names.row -> bool) (c : con) : con :=
  {| nodes := nodes c;
     names := Sql.update where_ (Names.set_is_primary (Some 1%Z)) (names c);
     total_changes := total_changes c + Sql.rowcount where_ (names c) |}.

(** [next(it)] and [records[0]] *)
Definition next {A : Type} (it : list A) : result A :=
  match it with
  | x :: _ => Ok x
  | [] => Raise StopIteration
  end.

Definition first {A : Type} (l : list A) : result A :=
  match l with
  | x :: _ => Ok x
  | [] => Raise IndexError
  end.

(** The body of the loop over [tax_ids].  The last [UPDATE] runs after
    the conditional, on both branches. *)
Definition heal_tax_id (c : con) (tax_id : option string) : result con :=
  let records := rows_for_taxid (names c) tax_id in
  ci <- (if List.length (filter is_scientific records) =? 1
         then i <- next (filter is_scientific records) ;;
              Ok (set_primary_where (where_class (fst (fst (fst i))) (Some scientific_name)) c, i)
         else i <- first records ;;
              Ok (c, i)) ;;
  Ok (set_primary_where (where_record (snd ci)) (fst ci)).

Fixpoint heal_each (tax_ids : list (option string)) (c : con) : result con :=
  match tax_ids with
  | [] => Ok c
  | tax_id :: rest => c' <- heal_tax_id c tax_id ;; heal_each rest c'
  end.

(** [fix_missing_primary(con)]: the ids are read once, before the loop;
    the calls of [logging.warn] are left out, and so is the error
    ['integer overflow'] of the selecting query (see [Sql.sum]). *)
Definition fix_missing_primary (c : con) : result con :=
  let tax_ids := missing_primary (names c) in
  heal_each tax_ids c.

(** *** mark_is_valid *)

(** The scalar subquery
    [(SELECT is_classified FROM names WHERE names.tax_id = tax_id)].
    Inside the subquery the bare [tax_id] is the column of [names], the
    innermost table that has one, so the condition compares each row of
    [names] with itself and the subquery does not depend on the row of
    [nodes] being updated.  Its value is that of the first row selected,
    NULL when there is none. *)
Definition is_classified_subquery (t : list Names.row) : option Z :=
  match filter (fun r => Sql.eq_text (Names.tax_id r) (Names.tax_id r)) t with
  | r :: _ => Names.is_classified r
  | [] => None
  end.

(** [mark_is_valid(con)]; its [regex] argument is not used.  The
    [UPDATE] has no [WHERE]: every row of [nodes] is changed. *)
Definition mark_is_valid (c : con) : con :=
  let v := is_classified_subquery (names c) in
  {| nodes := Sql.update (fun _ => true) (Nodes.set_is_valid v) (nodes c);
     names := names c;
     total_changes := total_changes c + Sql.rowcount (fun _ : Nodes.row => true) (nodes c) |}.

(** *** update_subtree_validity *)

(** [partition(iterable, size)]: [islice] takes the next [size] items;
    the generator stops at the first empty chunk.  [fuel] bounds the
    number of chunks; a list of [n] items has at most [n] of them. *)
Fixpoint partition_from {A : Type} (fuel : nat) (it : list A) (size : nat) : list (list A) :=
  match fuel with
  | 0 => []
  | S fuel' =>
      match firstn size it with
      | [] => []
      | chunk => chunk :: partition_from fuel' (skipn size it) size
      end
  end.

Definition partition {A : Type} (iterable : list A) (size : nat) : list (list A) :=
  partition_from (S (List.length iterable)) iterable size.

(** [UPDATE nodes SET is_valid = ? WHERE tax_id = ?] *)
Definition set_valid_where_id (is_valid : option Z) (tax_id : string) (c : con) : con :=
  let where_ := fun r => String.eqb (Nodes.tax_id r) tax_id in
  {| nodes := Sql.update where_ (Nodes.set_is_valid is_valid) (nodes c);
     names := names c;
     total_changes := total_changes c + Sql.rowcount where_ (nodes c) |}.

(** [cursor.executemany(..., ([is_valid, tax_id] for tax_id in tax_ids))] *)
Definition mark_nodes (is_valid : option Z) (tax_ids : list string) (c : con) : con :=
  fold_left (fun c' tax_id => set_valid_where_id is_valid tax_id c') tax_ids c.

(** [SELECT tax_id FROM nodes WHERE parent_id IN (?, ..., ?)] *)
Definition child_sql (t : list Nodes.row) (chunk : list string) : list string :=
  map Nodes.tax_id
      (filter (fun r => match Nodes.parent_id r with
                        | Some p => existsb (String.eqb p) chunk
                        | None => false
                        end) t).

(** The size of the chunks of ids, [250] in [partition(to_mark, 250)]. *)
Definition chunk_size : nat := 250.

(** The [while to_mark:] loop of [mark_subtrees].  The [UPDATE] is run
    over [tax_ids], the argument of [mark_subtrees], at every level.
    The result carries the number of levels expanded. *)
Fixpoint mark_loop (fuel : nat) (tax_ids : list string) (is_valid : option Z)
         (to_mark : list string) (c : con) : option (con * nat) :=
  match to_mark with
  | [] => Some (c, 0)
  | _ :: _ =>
      match fuel with
      | 0 => None
      | S fuel' =>
          let c1 := mark_nodes is_valid tax_ids c in
          let chunked := partition to_mark chunk_size in
          let to_mark' := concat (map (fun chunk => child_sql (nodes c1) chunk) chunked) in
          match mark_loop fuel' tax_ids is_valid to_mark' c1 with
          | Some (c2, levels) => Some (c2, S levels)
          | None => None
          end
      end
  end.

(** [mark_subtrees(tax_ids, is_valid)] *)
Definition mark_subtrees (fuel : nat) (tax_ids : list string) (is_valid : option Z)
           (c : con) : option (con * nat) :=
  let to_mark := tax_ids in
  mark_loop fuel tax_ids is_valid to_mark c.

(** [ORDER BY pnodes.is_valid]: NULL sorts first, then the integers in
    ascending order. *)
Definition valid_le (a b : option Z) : bool :=
  match a, b with
  | None, _ => true
  | Some _, None => false
  | Some x, Some y => Z.leb x y
  end.

Fixpoint insert_by_valid (x : string * option Z) (l : list (string * option Z))
  : list (string * option Z) :=
  match l with
  | [] => [x]
  | y :: l' => if valid_le (snd x) (snd y) then x :: l else y :: insert_by_valid x l'
  end.

Definition order_by_valid (l : list (string * option Z)) : list (string * option Z) :=
  fold_right insert_by_valid [] l.

(** [below_rank_query]: the children of the nodes of rank
    [mark_below_rank], each with the parent's [is_valid].  To serve the
    [ORDER BY] the rows are sorted before the first one is fetched, so
    the cursor holds the result of the query on the table as it is when
    the query is executed, whatever the loop writes afterwards.  Rows
    with equal keys come in the order of the join. *)
Definition below_rank_query (t : list Nodes.row) (mark_below_rank : string)
  : list (string * option Z) :=
  order_by_valid
    (flat_map
       (fun n =>
          map (fun pnodes => (Nodes.tax_id n, Nodes.is_valid pnodes))
              (filter (fun pnodes =>
                         Sql.eq_text (Some (Nodes.tax_id pnodes)) (Nodes.parent_id n) &&
                         Sql.eq_text (Nodes.rank pnodes) (Some mark_below_rank))
                      t))
       t).

Definition valid_eqb (a b : option Z) : bool :=
  match a, b with
  | Some x, Some y => Z.eqb x y
  | None, None => true
  | _, _ => false
  end.

(** [itertools.groupby(cursor, operator.itemgetter(1))]: runs of
    consecutive rows with equal keys. *)
Fixpoint groupby (l : list (string * option Z)) : list (option Z * list (string * option Z)) :=
  match l with
  | [] => []
  | x :: l' =>
      match groupby l' with
      | (k, g) :: gs => if valid_eqb (snd x) k then (k, x :: g) :: gs
                        else (snd x, [x]) :: (k, g) :: gs
      | [] => [(snd x, [x])]
      end
  end.

(** [for is_valid, records in grouped: ...] *)
Fixpoint mark_groups (fuel : nat) (grouped : list (option Z * list (string * option Z)))
         (c : con) : option con :=
  match grouped with
  | [] => Some c
  | (is_valid, records) :: rest =>
      let tax_ids := map fst records in
      match mark_subtrees fuel tax_ids is_valid c with
      | Some (c', _) => mark_groups fuel rest c'
      | None => None
      end
  end.

(** [update_subtree_validity(con, mark_below_rank)]; [fuel] bounds the
    levels of each call of [mark_subtrees]. *)
Definition update_subtree_validity (fuel : nat) (c : con) (mark_below_rank : string)
  : option con :=
  let grouped := groupby (below_rank_query (nodes c) mark_below_rank) in
  mark_groups fuel grouped c.

(** *** read_nodes *)

(** [row[i] = v]: [IndexError] when [i] is out of range. *)
Definition setitem {A : Type} (row : list A) (i : nat) (v : A) : result (list A) :=
  if i <? List.length row then Ok (firstn i row ++ v :: skipn (S i) row)
  else Raise IndexError.

(** ['_'.join(s.split())] *)
Definition underscored (s : string) : string := String.concat "_" (PyStr.split s).

(** The index of [rank] in [keys] and the number of keys. *)
Definition rank_index : nat := 2.
Definition ncol : nat := 5.

(** A generator that may fail: the items yielded before the failure,
    and the exception that ended it, if any. *)
Definition generated (A : Type) : Type := (list A * option exn)%type.

(** The rows of [read_nodes]: the first [ncol] fields, which are
    strings, and the source id. *)
Definition node_fields : Type := (list string * Z)%type.

(** The [for row in rows:] loop of [read_nodes]. *)
Fixpoint read_nodes_loop (rows : list (list string)) (ncbi_source_id : Z)
  : generated node_fields :=
  match rows with
  | [] => ([], None)
  | row :: rest =>
      match nth_error row rank_index with
      | None => ([], Some IndexError)
      | Some r =>
          match setitem row rank_index (underscored r) with
          | Raise e => ([], Some e)
          | Ok row' =>
              let (yielded, e) := read_nodes_loop rest ncbi_source_id in
              ((firstn ncol row', ncbi_source_id) :: yielded, e)
          end
      end
  end.

(** [read_nodes(rows, root_name, ncbi_source_id)].  On no row at all,
    [rows.next()] raises [StopIteration] inside the generator, which ends
    it without an item. *)
Definition read_nodes (rows : list (list string)) (root_name : string) (ncbi_source_id : Z)
  : generated node_fields :=
  match rows with
  | [] => ([], None)
  | row :: rest =>
      match setitem row rank_index root_name with
      | Raise e => ([], Some e)
      | Ok row' => read_nodes_loop (row' :: rest) ncbi_source_id
      end
  end.

End Ncbi.

(** ** Vocabulary of the properties *)

Module Spec.

Import Ncbi.

(** *** Names *)

(** [is_primary] holds 0 or 1, the values [read_names] writes. *)
Definition primary_flag (r : Names.row) : Prop :=
  Names.is_primary r = Some 0%Z \/ Names.is_primary r = Some 1%Z.

Definition primary_flags (t : list Names.row) : Prop := Forall primary_flag t.

(** No text column of the row is NULL, as for every row that
    [read_names] yields. *)
Definition text_not_null (r : Names.row) : Prop :=
  Names.tax_id r <> None /\ Names.tax_name r <> None /\
  Names.unique_name r <> None /\ Names.name_class r <> None.

Definition has_tax_id (tid : string) (r : Names.row) : bool :=
  Sql.eq_text (Names.tax_id r) (Some tid).

Definition is_primary_row (r : Names.row) : bool :=
  valid_eqb (Names.is_primary r) (Some 1%Z).

Definition is_scientific_row (r : Names.row) : bool :=
  Sql.eq_text (Names.name_class r) (Some scientific_name).

(** The rows of [tid] with [is_primary = 1], and with name class
    ['scientific name']. *)
Definition primary_rows (t : list Names.row) (tid : string) : list Names.row :=
  filter (fun r => has_tax_id tid r && is_primary_row r) t.

Definition scientific_rows (t : list Names.row) (tid : string) : list Names.row :=
  filter (fun r => has_tax_id tid r && is_scientific_row r) t.

(** [SUM(is_primary)] over the rows of [tid]. *)
Definition flag_sum (t : list Names.row) (tid : string) : option Z :=
  Sql.sum (map Names.is_primary (filter (has_tax_id tid) t)).

(** The rows whose [tax_id] is NULL. *)
Definition is_orphan (r : Names.row) : bool :=
  match Names.tax_id r with
  | None => true
  | Some _ => false
  end.

Definition orphans (t : list Names.row) : list Names.row := filter is_orphan t.

(** [SET is_primary = 1] *)
Abbreviation set1 := (Names.set_is_primary (Some 1%Z)).

(** The record that the body of the healing loop picks for [tax_id],
    and whether it came from the ['scientific name'] branch. *)
Definition chosen (t : list Names.row) (tax_id : option string) : result (bool * record) :=
  let records := rows_for_taxid t tax_id in
  if List.length (filter is_scientific records) =? 1
  then i <- next (filter is_scientific records) ;; Ok (true, i)
  else i <- first records ;; Ok (false, i).

(** The rows that the body of the healing loop selects for update when
    it handles [tax_id]. *)
Definition healed_by (t : list Names.row) (tax_id : option string) (r : Names.row) : bool :=
  match chosen t tax_id with
  | Ok (sci, i) =>
      (sci && where_class (fst (fst (fst i))) (Some scientific_name) r) || where_record i r
  | Raise _ => false
  end.

(** The number of rows that the statements of the loop body change
    when it handles [tax_id]. *)
Definition changed_by (t : list Names.row) (tax_id : option string) : nat :=
  match chosen t tax_id with
  | Ok (sci, i) =>
      (if sci then Sql.rowcount (where_class (fst (fst (fst i))) (Some scientific_name)) t
       else 0) + Sql.rowcount (where_record i) t
  | Raise _ => 0
  end.

(** The keys are in ascending order, as [sorted] leaves them. *)
Definition ascending (keys : list string) : Prop :=
  StronglySorted (fun a b => String.leb a b = true) keys.

(** No character of the string is whitespace. *)
Definition whitespace_free (s : string) : Prop :=
  Forall (fun c => PyStr.is_space c = false) (list_ascii_of_string s).

(** The first two whitespace-delimited words of a name. *)
Definition leading_words (s : string) : list string := firstn 2 (PyStr.split s).

(** *** Nodes *)

Definition find_node (t : list Nodes.row) (tid : string) : option Nodes.row :=
  find (fun r => String.eqb (Nodes.tax_id r) tid) t.

(** The root is its own parent. *)
Definition is_root (r : Nodes.row) : bool :=
  Sql.eq_text (Nodes.parent_id r) (Some (Nodes.tax_id r)).

(** The number of parent links from [tid] to the root, found by walking
    at most [fuel] nodes up. *)
Fixpoint depth_from (t : list Nodes.row) (fuel : nat) (tid : string) : option nat :=
  match fuel with
  | 0 => None
  | S fuel' =>
      match find_node t tid with
      | None => None
      | Some r =>
          match Nodes.parent_id r with
          | None => None
          | Some p => if String.eqb p tid then Some 0
                      else option_map S (depth_from t fuel' p)
          end
      end
  end.

Definition depth (t : list Nodes.row) (tid : string) : option nat :=
  depth_from t (List.length t) tid.

(** The parent pointers form a tree: ids are unique, one node is its own
    parent, and the parent chain of every node ends at such a node
    (so every parent is present and there is no cycle). *)
Definition is_tree (t : list Nodes.row) : Prop :=
  NoDup (map Nodes.tax_id t) /\
  List.length (filter is_root t) = 1 /\
  Forall (fun r => depth t (Nodes.tax_id r) <> None) t.

(** The [k]-th ancestor of [tid]. *)
Fixpoint ancestor (t : list Nodes.row) (k : nat) (tid : string) : option string :=
  match k with
  | 0 => Some tid
  | S k' =>
      match find_node t tid with
      | Some r =>
          match Nodes.parent_id r with
          | Some p => ancestor t k' p
          | None => None
          end
      | None => None
      end
  end.

(** [tid] lies [k] levels below one of the [seeds]. *)
Definition below_seed (t : list Nodes.row) (seeds : list string) (k : nat) (tid : string) : bool :=
  match ancestor t k tid with
  | Some a => existsb (String.eqb a) seeds
  | None => false
  end.

(** The depth of the subtrees rooted at [seeds], counted in levels: the
    seeds are level 1, their children level 2, and so on. *)
Definition subtree_depth (t : list Nodes.row) (seeds : list string) : nat :=
  list_max
    (map (fun r =>
            list_max (map (fun k => if below_seed t seeds k (Nodes.tax_id r) then S k else 0)
                          (seq 0 (List.length t))))
         t).

(** A seed is the id of a node of the table other than the root. *)
Definition seed_of (t : list Nodes.row) (s : string) : Prop :=
  exists r, In r t /\ Nodes.tax_id r = s /\ is_root r = false.

(** The ids of a frontier at level [k] are nodes [k] levels below a
    seed. *)
Definition at_level (t : list Nodes.row) (seeds : list string) (k : nat)
           (frontier : list string) : Prop :=
  forall x, In x frontier ->
            exists r, In r t /\ Nodes.tax_id r = x /\ below_seed t seeds k x = true.

(** What one call of [mark_subtrees] writes in a row. *)
Definition mark_row (is_valid : option Z) (tax_ids : list string) (r : Nodes.row) : Nodes.row :=
  if existsb (String.eqb (Nodes.tax_id r)) tax_ids then Nodes.set_is_valid is_valid r else r.

(** The row with the flag of its parent, when the parent is in the table
    and has rank [mark_below_rank]. *)
Definition inherit (t : list Nodes.row) (mark_below_rank : string) (r : Nodes.row) : Nodes.row :=
  match Nodes.parent_id r with
  | Some pid =>
      match find_node t pid with
      | Some p => if Sql.eq_text (Nodes.rank p) (Some mark_below_rank)
                  then Nodes.set_is_valid (Nodes.is_valid p) r
                  else r
      | None => r
      end
  | None => r
  end.

(** The order of [ORDER BY pnodes.is_valid] on rows and, strictly, on
    keys. *)
Definition row_le (x y : string * option Z) : Prop := valid_le (snd x) (snd y) = true.

Definition key_lt (a b : option Z) : Prop := valid_le a b = true /\ a <> b.

(** *** The reference pass

    The propagation for one flag value as the specification words it:
    mark the current frontier, fetch its children, with one membership
    query that names all the frontier ids at once, and repeat until the
    frontier is empty.  The result carries the number of levels. *)
Fixpoint reference_loop (fuel : nat) (is_valid : option Z) (frontier : list string)
         (c : con) : option (con * nat) :=
  match frontier with
  | [] => Some (c, 0)
  | _ :: _ =>
      match fuel with
      | 0 => None
      | S fuel' =>
          let c1 := mark_nodes is_valid frontier c in
          let children := child_sql (nodes c1) frontier in
          match reference_loop fuel' is_valid children c1 with
          | Some (c2, levels) => Some (c2, S levels)
          | None => None
          end
      end
  end.

Definition reference_pass (fuel : nat) (tax_ids : list string) (is_valid : option Z)
           (c : con) : option (con * nat) :=
  reference_loop fuel is_valid tax_ids c.

(** The tables a pass returns, if it returns. *)
Definition final_nodes (res : option (con * nat)) : option (list Nodes.row) :=
  option_map (fun r => nodes (fst r)) res.

(** The last character of a string. *)
Fixpoint last_char (s : string) : option ascii :=
  match s with
  | EmptyString => None
  | String c EmptyString => Some c
  | String _ s' => last_char s'
  end.

(** A field that ends in a character other than tab, bar and newline. *)
Definition ends_in_data (s : string) : Prop :=
  exists c, last_char s = Some c /\ PyStr.contains c line_end = false.

(** A string made of tabs, bars and newlines only. *)
Fixpoint only_line_end (s : string) : bool :=
  match s with
  | EmptyString => true
  | String c s' => PyStr.contains c line_end && only_line_end s'
  end.

End Spec.

(** ** Sample data *)

Module Sample.

Import Ncbi.

Definition coli : Dmp.name :=
  Dmp.mk_name "562" "Escherichia coli" "" "scientific name".

Definition coli_isolate : Dmp.name :=
  Dmp.mk_name "1000562" "Escherichia coli isolate" "" "scientific name".

Definition node (tax_id parent_id rank : string) (is_valid : Z) : Nodes.row :=
  Nodes.mk tax_id (Some parent_id) (Some rank) (Some is_valid).

Definition name_row (tax_id tax_name unique_name name_class : string) (is_primary : Z)
  : Names.row :=
  Names.mk (Some tax_id) (Some tax_name) (Some unique_name) (Some name_class)
           (Some is_primary) (Some 1%Z).

(** Taxon 7 has a scientific name and a synonym, neither primary. *)
Definition taxon7 : con :=
  {| nodes := [];
     names := [ name_row "7" "X" "" "scientific name" 0;
                name_row "7" "X syn" "" "synonym" 0 ];
     total_changes := 0 |}.

Definition taxon7_healed : con :=
  {| nodes := [];
     names := [ name_row "7" "X" "" "scientific name" 1;
                name_row "7" "X syn" "" "synonym" 0 ];
     total_changes := 2 |}.

(** Taxon 7 with [is_primary] NULL in both rows. *)
Definition taxon7_null : con :=
  {| nodes := [];
     names := [ Names.mk (Some "7") (Some "X") (Some "") (Some "scientific name")
                         None (Some 1%Z);
                Names.mk (Some "7") (Some "X syn") (Some "") (Some "synonym")
                         None (Some 1%Z) ];
     total_changes := 0 |}.




(** Taxon 9 comes with two primary names. *)
Definition taxon9 : con :=
  {| nodes := [ node "9" "9" "root" 1 ];
     names := [ name_row "9" "Z" "" "scientific name" 1;
                name_row "9" "Z bis" "" "scientific name" 1 ];
     total_changes := 0 |}.

(** Taxon 8 has the same synonym twice and no primary name. *)
Definition taxon8 : con :=
  {| nodes := [];
     names := [ name_row "8" "Y" "" "synonym" 0;
                name_row "8" "Y" "" "synonym" 0 ];
     total_changes := 0 |}.

Definition taxon8_healed : con :=
  {| nodes := [];
     names := [ name_row "8" "Y" "" "synonym" 1;
                name_row "8" "Y" "" "synonym" 1 ];
     total_changes := 2 |}.

(** A row with a NULL [tax_id] and no primary flag. *)
Definition orphan_names : list Names.row :=
  [ Names.mk None (Some "X") (Some "") (Some "synonym") (Some 0%Z) (Some 1%Z) ].

(** A species marked invalid, with a subspecies and a node below it. *)
Definition strain_tree : list Nodes.row :=
  [ node "1" "1" "root" 1;
    node "2" "1" "species" 0;
    node "3" "2" "subspecies" 1;
    node "4" "3" "no_rank" 1 ].

(** Two species with subtrees of depth 2 and 1. *)
Definition two_species : list Nodes.row :=
  [ node "1" "1" "root" 1;
    node "2" "1" "species" 0;
    node "3" "2" "subspecies" 1;
    node "4" "3" "no_rank" 1;
    node "5" "1" "species" 1;
    node "6" "5" "no_rank" 0 ].

Definition strain_tree_after : list Nodes.row :=
  [ node "1" "1" "root" 1;
    node "2" "1" "species" 0;
    node "3" "2" "subspecies" 0;
    node "4" "3" "no_rank" 1 ].

(** [strain_tree] with the subspecies and the node below it marked
    invalid. *)
Definition strain_tree_marked : list Nodes.row :=
  [ node "1" "1" "root" 1;
    node "2" "1" "species" 0;
    node "3" "2" "subspecies" 0;
    node "4" "3" "no_rank" 0 ].

(** Lines of [names.dmp]: a synonym that looks unclassified listed
    before the scientific name of the same taxon. *)
Definition bacillus_names : list Dmp.name :=
  [ Dmp.mk_name "2" "uncultured Bacillus" "" "synonym";
    Dmp.mk_name "2" "Bacillus subtilis" "" "scientific name";
    Dmp.mk_name "1" "root" "" "scientific name" ].

Definition bacillus_db : con :=
  {| nodes := [ node "1" "1" "root" 1; node "2" "1" "species" 1 ];
     names := read_names bacillus_names (Some UNCLASSIFIED_REGEX);
     total_changes := 0 |}.

(** The names of [bacillus_db] with the nodes of [strain_tree]. *)
Definition bacillus_strains : con :=
  {| nodes := strain_tree;
     names := read_names bacillus_names (Some UNCLASSIFIED_REGEX);
     total_changes := 0 |}.

(** Two taxa without a primary name. *)
Definition taxa_7_8 : con :=
  {| nodes := [];
     names := [ name_row "8" "Y" "" "synonym" 0;
                name_row "7" "X" "" "scientific name" 0;
                name_row "7" "X syn" "" "synonym" 0 ];
     total_changes := 0 |}.

(** Lines of [nodes.dmp]: the root, a species group, and a line that
    is cut short. *)
Definition nodes_dmp : list (list string) :=
  [ ["1"; "1"; "no rank"; ""; "8"; "0"; "1"];
    ["2"; "1"; "species  group"; "XX"; "0"; "0"; "11"] ].

Definition nodes_dmp_short : list (list string) :=
  [ ["1"; "1"; "no rank"; ""; "8"];
    ["2"; "1"];
    ["3"; "1"; "species"; ""; "0"] ].

(** Three decimal digits. *)
Definition id_of_nat (n : nat) : string :=
  let digit := fun d => ascii_of_nat (48 + d) in
  String (digit (n / 100)) (String (digit ((n / 10) mod 10)) (String (digit (n mod 10)) EmptyString)).

(** A frontier of 600 ids. *)
Definition ids600 : list string := map id_of_nat (seq 0 600).

End Sample.

(* ================================================================= *)
(** * Part II: properties *)
(* ================================================================= *)

Import Ncbi Spec Sample.

(** ** greengenes.py: [_add_space] *)

Section AddSpace.

Import Greengenes.

Lemma prefix_refl (s : string) : String.prefix s s = true.
Proof.
  induction s as [|c s IH]; simpl; [reflexivity|].
  destruct (ascii_dec c c); congruence.
Qed.

Lemma get_length_none (s : string) : String.get (String.length s) s = None.
Proof. induction s as [|c s IH]; simpl; auto. Qed.

Lemma prefix_get_length (g s : string) :
  String.prefix g s = true -> s <> g ->
  exists c, String.get (String.length g) s = Some c.
Proof.
  revert s. induction g as [|a g IH]; intros [|b s] Hp Hne; simpl in *;
    try congruence; eauto.
  destruct (ascii_dec a b) as [->|]; [|discriminate].
  apply IH; congruence.
Qed.

(** The read at index [len(genus)] is out of range exactly on equal
    arguments. *)
Lemma add_space_raises_iff (species genus : string) :
  _add_space species genus = Raise IndexError <-> species = genus.
Proof.
  unfold _add_space, startswith, getitem. split.
  - destruct (String.prefix genus species) eqn:Hp; [|discriminate].
    destruct (string_dec species genus) as [|Hne]; [trivial|].
    destruct (prefix_get_length _ _ Hp Hne) as [c ->]. simpl.
    destruct (negb _); discriminate.
  - intros ->. rewrite prefix_refl, get_length_none. reflexivity.
Qed.

Lemma add_space_total_cases (species genus : string) :
  species <> genus ->
  _add_space species genus = Ok species \/
  _add_space species genus =
    Ok (join2 " " (slice_to species (String.length genus))
                  (slice_from species (String.length genus))).
Proof.
  intros Hne. unfold _add_space, startswith, getitem.
  destruct (String.prefix genus species) eqn:Hp; [|now left].
  destruct (prefix_get_length _ _ Hp Hne) as [c ->]. simpl.
  destruct (negb _); [now right | now left].
Qed.

(** C10, counterexample: when the species name is exactly the genus
    name, index [len(genus)] is one past the end of [species] and the
    call raises [IndexError]. *)
Lemma add_space_equal_raises :
  _add_space "Bacillus" "Bacillus" = Raise IndexError.
Proof. reflexivity. Qed.

(** C10, amended: [_add_space species genus] returns normally whenever
    [species] differs from [genus]; the result is [species] itself or
    [species] with a space after the first [len(genus)] characters. *)
Theorem add_space_total_off_diagonal (species genus : string) :
  species <> genus ->
  _add_space species genus = Ok species \/
  _add_space species genus =
    Ok (join2 " " (slice_to species (String.length genus))
                  (slice_from species (String.length genus))).
Proof. apply add_space_total_cases. Qed.

Lemma add_space_total_off_diagonal_witness :
  "Bacillussubtilis" <> "Bacillus" /\
  (_add_space "Bacillussubtilis" "Bacillus" = Ok "Bacillussubtilis" \/
   _add_space "Bacillussubtilis" "Bacillus" =
     Ok (join2 " " (slice_to "Bacillussubtilis" (String.length "Bacillus"))
                   (slice_from "Bacillussubtilis" (String.length "Bacillus")))).
Proof.
  split; [discriminate|].
  apply (add_space_total_off_diagonal "Bacillussubtilis" "Bacillus").
  discriminate.
Defined.

Lemma ltb_irrefl (s : string) : String.ltb s s = false.
Proof.
  unfold String.ltb. pose proof (String.compare_antisym s s) as H.
  destruct (String.compare s s); try reflexivity. discriminate.
Qed.

Lemma in_takewhile {A : Type} (pred : A -> bool) (it : list A) (x : A) :
  In x (takewhile pred it) -> pred x = true.
Proof.
  induction it as [|a it IH]; [contradiction|]. cbn [takewhile].
  destruct (pred a) eqn:E; [|contradiction].
  intros [<-|H]; auto.
Qed.

(** The genus that [find_genus] returns is below [tax_name] in the
    order of strings, hence different from it. *)
Lemma find_genus_differs (keys : list string) (tax_name genus : string) :
  find_genus keys tax_name = Ok (Some genus) -> tax_name <> genus.
Proof.
  unfold find_genus. destruct (getitem tax_name 0); cbn [Py.bind]; [|discriminate].
  intros H. inversion H as [Hf]. apply find_some in Hf. destruct Hf as [Hin _].
  apply in_takewhile in Hin. intros ->. now rewrite ltb_irrefl in Hin.
Qed.

Example add_space_inserts :
  _add_space "Bacillussubtilis" "Bacillus" = Ok "Bacillus subtilis".
Proof. reflexivity. Qed.

(** In [_clean_species] no call of [_add_space] raises: the loop fails
    only where [find_genus] does, on an empty [tax_name]. *)
Lemma clean_args_ok (keys : list string) (cursor : list (string * string)) :
  (forall row, In row cursor -> snd row <> EmptyString) ->
  exists args, clean_args keys cursor = Ok args.
Proof.
  induction cursor as [|[tax_id tax_name] rest IH]; intros H; [eexists; reflexivity|].
  destruct IH as [args Hargs]; [intros row Hr; apply H; now right|].
  cbn [clean_args].
  destruct (find_genus keys tax_name) as [genus|e] eqn:Eg.
  - cbn [Py.bind]. destruct genus as [[|a g]|]; eauto.
    destruct (add_space_total_cases tax_name (String a g)
                (find_genus_differs _ _ _ Eg)) as [E|E];
      rewrite E, Hargs; cbn [Py.bind]; eauto.
  - exfalso. unfold find_genus, getitem in Eg.
    destruct tax_name as [|c tn]; [|discriminate].
    apply (H (tax_id, EmptyString)); [now left|reflexivity].
Qed.

End AddSpace.

(** ** ncbi.py: [read_names] and [UNCLASSIFIED_REGEX] *)

Section Classification.

(** A search for an alternation succeeds when one of the alternatives
    does: the order in which the [frozenset] lists the patterns is
    irrelevant. *)
Lemma matches_alts (ps : list Re.regex) prev s k :
  ps <> [] ->
  Re.matches (Re.alts ps) prev s k = existsb (fun p => Re.matches p prev s k) ps.
Proof.
  induction ps as [|p ps IH]; [congruence|]. intros _.
  destruct ps as [|q ps].
  - simpl. now rewrite orb_false_r.
  - change (Re.alts (p :: q :: ps)) with (Re.Alt p (Re.alts (q :: ps))).
    cbn [Re.matches]. rewrite IH by discriminate. reflexivity.
Qed.

Lemma search_from_alts (ps : list Re.regex) s prev :
  ps <> [] ->
  Re.search_from (Re.alts ps) prev s = existsb (fun p => Re.search_from p prev s) ps.
Proof.
  intros Hne. revert prev. induction s as [|c s IH]; intros prev.
  - cbn [Re.search_from]. rewrite matches_alts by assumption.
    rewrite orb_false_r. clear. induction ps as [|p ps IHp]; [reflexivity|].
    cbn [existsb]. now rewrite IHp, orb_false_r.
  - cbn [Re.search_from]. rewrite matches_alts, IH by assumption.
    clear. induction ps as [|p ps IHp]; [reflexivity|].
    cbn [existsb]. rewrite <- IHp.
    repeat rewrite <- orb_assoc. f_equal.
    rewrite orb_assoc, (orb_comm (existsb _ ps)), <- orb_assoc. reflexivity.
Qed.

Lemma search_unclassified (s : string) :
  Re.search UNCLASSIFIED_REGEX s = existsb (fun p => Re.search p s) unclassified_patterns.
Proof. unfold Re.search, UNCLASSIFIED_REGEX. apply search_from_alts. discriminate. Qed.

(** C8: the two names agree on their first two whitespace-delimited
    words, yet [read_names] classifies the first and not the second:
    the search runs over the whole of [tax_name], and ['isolate'] is
    found in the third word. *)
Theorem read_names_searches_whole_name :
  leading_words (Dmp.tax_name coli) = leading_words (Dmp.tax_name coli_isolate) /\
  map Names.is_classified (read_names [coli; coli_isolate] (Some UNCLASSIFIED_REGEX))
  = [Some 1%Z; Some 0%Z].
Proof. split; reflexivity. Qed.

(** What does hold: [is_classified] is a function of the whole
    [tax_name]. *)
Lemma is_classified_same_name (re : option Re.regex) (a b : Dmp.name) :
  Dmp.tax_name a = Dmp.tax_name b -> _is_classified re a = _is_classified re b.
Proof. unfold _is_classified. now intros ->. Qed.

End Classification.

(** ** ncbi.py: [partition] *)

Section Partition.

Context {A : Type}.

(** More fuel than items: the generator always ends on an empty chunk,
    and the amount of fuel is then irrelevant. *)
Lemma partition_from_fuel (size f1 f2 : nat) (it : list A) :
  List.length it < f1 -> List.length it < f2 ->
  partition_from f1 it size = partition_from f2 it size.
Proof.
  revert f2 it. induction f1 as [|f1 IH]; intros f2 it H1 H2; [lia|].
  destruct f2 as [|f2]; [lia|]. cbn [partition_from].
  destruct (firstn size it) as [|x chunk] eqn:Hc; [reflexivity|].
  f_equal. destruct size as [|size]; [discriminate|].
  destruct it as [|y it]; [discriminate|].
  apply IH; rewrite length_skipn; simpl in *; lia.
Qed.

(** The generator, one step at a time. *)
Lemma partition_step (it : list A) (size : nat) :
  partition it size =
  match firstn size it with
  | [] => []
  | chunk => chunk :: partition (skipn size it) size
  end.
Proof.
  unfold partition at 1. cbn [partition_from].
  destruct (firstn size it) as [|x chunk] eqn:Hc; [reflexivity|].
  f_equal. destruct size as [|size]; [discriminate|].
  destruct it as [|y it]; [discriminate|].
  apply partition_from_fuel; rewrite length_skipn; simpl; lia.
Qed.

Lemma partition_from_chunks (fuel size : nat) (it : list A) :
  Forall (fun chunk => 1 <= List.length chunk <= size) (partition_from fuel it size).
Proof.
  revert it. induction fuel as [|fuel IH]; intros it; cbn [partition_from]; [constructor|].
  destruct (firstn size it) as [|x chunk] eqn:Hc; constructor; [|apply IH].
  rewrite <- Hc. split; [rewrite Hc; simpl; lia | apply firstn_le_length].
Qed.

Lemma partition_from_concat (fuel size : nat) (it : list A) :
  List.length it < fuel -> 1 <= size ->
  concat (partition_from fuel it size) = it.
Proof.
  revert it. induction fuel as [|fuel IH]; intros it Hf Hs; [lia|].
  cbn [partition_from].
  destruct (firstn size it) as [|x chunk] eqn:Hc.
  - destruct size; [lia|]. destruct it; [reflexivity|discriminate].
  - cbn [concat]. rewrite IH; [rewrite <- Hc; apply firstn_skipn| |assumption].
    destruct it as [|y it]; [now rewrite firstn_nil in Hc|].
    rewrite length_skipn. cbn [List.length] in *. lia.
Qed.

Lemma partition_concat (it : list A) (size : nat) :
  1 <= size -> concat (partition it size) = it.
Proof. intros Hs. apply partition_from_concat; [lia|assumption]. Qed.

Lemma partition_from_length (fuel size : nat) (it : list A) :
  List.length it < fuel -> 1 <= size ->
  List.length (partition_from fuel it size) = (List.length it + size - 1) / size.
Proof.
  revert it. induction fuel as [|fuel IH]; intros it Hf Hs; [lia|].
  cbn [partition_from].
  destruct (firstn size it) as [|x chunk] eqn:Hc.
  - destruct size; [lia|]. destruct it; [|discriminate].
    simpl List.length. symmetry. apply Nat.div_small. lia.
  - destruct it as [|y it]; [now rewrite firstn_nil in Hc|].
    cbn [List.length]. rewrite IH; [|rewrite length_skipn; cbn [List.length] in *; lia|assumption].
    rewrite length_skipn. cbn [List.length].
    destruct (Nat.le_gt_cases (S (List.length it)) size) as [Hle|Hgt].
    + replace (S (List.length it) - size) with 0 by lia.
      rewrite (Nat.div_small (0 + size - 1)) by lia.
      apply Nat.div_unique with (r := List.length it); lia.
    + replace (S (List.length it) + size - 1)
        with ((S (List.length it) - size + size - 1) + 1 * size) by lia.
      rewrite Nat.div_add by lia. lia.
Qed.

(** The number of chunks is the ceiling of [len / size]. *)
Lemma partition_length (it : list A) (size : nat) :
  1 <= size ->
  List.length (partition it size) = (List.length it + size - 1) / size.
Proof. intros Hs. apply partition_from_length; [lia|assumption]. Qed.

End Partition.

(** ** ncbi.py: [mark_subtrees] *)

Section MarkSubtrees.

Lemma existsb_eqb_In (x : string) (l : list string) :
  existsb (String.eqb x) l = true <-> In x l.
Proof.
  rewrite existsb_exists. split.
  - intros [y [Hy He]]. apply String.eqb_eq in He. now subst.
  - intros H. exists x. split; [assumption|apply String.eqb_refl].
Qed.

(** What [executemany] writes: [is_valid] of the rows whose id is among
    [tax_ids], and nothing else. *)
Lemma nodes_mark_nodes (v : option Z) (tax_ids : list string) (c : con) :
  nodes (mark_nodes v tax_ids c) =
  map (fun r => if existsb (String.eqb (Nodes.tax_id r)) tax_ids
                then Nodes.set_is_valid v r else r) (nodes c).
Proof.
  unfold mark_nodes. revert c.
  induction tax_ids as [|i ids IH]; intros c; cbn [fold_left].
  - cbn [existsb]. symmetry. apply map_id.
  - rewrite IH. unfold set_valid_where_id at 1. cbn [nodes]. unfold Sql.update.
    rewrite map_map. apply map_ext. intros r. cbn [existsb].
    destruct (String.eqb (Nodes.tax_id r) i); cbn [Nodes.set_is_valid Nodes.tax_id orb].
    + now destruct (existsb _ ids).
    + reflexivity.
Qed.

Lemma names_mark_nodes (v : option Z) (tax_ids : list string) (c : con) :
  names (mark_nodes v tax_ids c) = names c.
Proof.
  unfold mark_nodes. revert c.
  induction tax_ids as [|i ids IH]; intros c; cbn [fold_left]; [reflexivity|].
  now rewrite IH.
Qed.

(** The child query reads [tax_id] and [parent_id] only. *)
Lemma child_sql_map (f : Nodes.row -> Nodes.row) (t : list Nodes.row) (l : list string) :
  (forall r, Nodes.tax_id (f r) = Nodes.tax_id r /\ Nodes.parent_id (f r) = Nodes.parent_id r) ->
  child_sql (map f t) l = child_sql t l.
Proof.
  intros Hf. unfold child_sql. induction t as [|r t IH]; [reflexivity|].
  cbn [map filter]. destruct (Hf r) as [Hi Hp]. rewrite Hp.
  destruct (match Nodes.parent_id r with Some p => existsb (String.eqb p) l | None => false end);
    cbn [map]; rewrite IH; congruence.
Qed.

Lemma child_sql_mark_nodes (v : option Z) (tax_ids : list string) (c : con) (l : list string) :
  child_sql (nodes (mark_nodes v tax_ids c)) l = child_sql (nodes c) l.
Proof.
  rewrite nodes_mark_nodes. apply child_sql_map.
  intros r. now destruct (existsb _ tax_ids).
Qed.

Lemma in_child_sql (t : list Nodes.row) (l : list string) (x : string) :
  In x (child_sql t l) <->
  exists r p, In r t /\ Nodes.tax_id r = x /\ Nodes.parent_id r = Some p /\ In p l.
Proof.
  unfold child_sql. rewrite in_map_iff. split.
  - intros [r [Hx Hr]]. apply filter_In in Hr. destruct Hr as [Hr Hp].
    destruct (Nodes.parent_id r) as [p|] eqn:Ep; [|discriminate].
    exists r, p. rewrite existsb_eqb_In in Hp. auto.
  - intros [r [p [Hr [Hx [Ep Hp]]]]]. exists r. split; [assumption|].
    apply filter_In. split; [assumption|]. rewrite Ep. now apply existsb_eqb_In.
Qed.

(** The chunked queries of one level return the ids that one query over
    the whole frontier returns. *)
Lemma in_chunked_child_sql (t : list Nodes.row) (l : list string) (size : nat) (x : string) :
  1 <= size ->
  In x (concat (map (fun chunk => child_sql t chunk) (partition l size))) <->
  In x (child_sql t l).
Proof.
  intros Hs. rewrite in_concat. split.
  - intros [ys [Hys Hx]]. apply in_map_iff in Hys. destruct Hys as [chunk [<- Hchunk]].
    apply in_child_sql in Hx. destruct Hx as [r [p [Hr [Hi [Ep Hp]]]]].
    apply in_child_sql. exists r, p. repeat split; try assumption.
    rewrite <- (partition_concat l size Hs). apply in_concat. eauto.
  - intros Hx. apply in_child_sql in Hx. destruct Hx as [r [p [Hr [Hi [Ep Hp]]]]].
    rewrite <- (partition_concat l size Hs) in Hp. apply in_concat in Hp.
    destruct Hp as [chunk [Hchunk Hp]].
    exists (child_sql t chunk). split; [apply in_map_iff; eauto|].
    apply in_child_sql. exists r, p. auto.
Qed.

(** More fuel does not change a result. *)
Lemma mark_loop_fuel (f1 f2 : nat) (tax_ids : list string) (v : option Z)
      (l : list string) (c : con) (res : con * nat) :
  f1 <= f2 ->
  mark_loop f1 tax_ids v l c = Some res -> mark_loop f2 tax_ids v l c = Some res.
Proof.
  revert f2 l c res. induction f1 as [|f1 IH]; intros f2 l c res Hf H.
  - destruct l; [|discriminate]. now destruct f2.
  - destruct l as [|a l]; [now destruct f2|].
    destruct f2 as [|f2]; [lia|]. cbn [mark_loop] in *.
    destruct (mark_loop f1 _ _ _ _) as [[c2 lv]|] eqn:E; [|discriminate].
    now rewrite (IH f2 _ _ _ ltac:(lia) E).
Qed.

Lemma nodes_mark_nodes_twice (v : option Z) (tax_ids : list string) (c : con) :
  nodes (mark_nodes v tax_ids (mark_nodes v tax_ids c)) = nodes (mark_nodes v tax_ids c).
Proof.
  rewrite (nodes_mark_nodes v tax_ids (mark_nodes v tax_ids c)).
  rewrite (nodes_mark_nodes v tax_ids c), map_map.
  apply map_ext. intros r.
  destruct (existsb (String.eqb (Nodes.tax_id r)) tax_ids) eqn:Ex;
    cbn [Nodes.set_is_valid Nodes.tax_id]; now rewrite Ex.
Qed.

(** Whatever the frontier reaches, the loop writes the rows of
    [tax_ids], the ids it was started with, and no other row. *)
Lemma mark_loop_nodes (fuel : nat) (tax_ids : list string) (v : option Z)
      (l : list string) (c c' : con) (levels : nat) :
  mark_loop fuel tax_ids v l c = Some (c', levels) ->
  nodes c' = match l with
             | [] => nodes c
             | _ :: _ => nodes (mark_nodes v tax_ids c)
             end.
Proof.
  revert l c c' levels. induction fuel as [|fuel IH]; intros l c c' levels H.
  - destruct l; [|discriminate]. now inversion H.
  - destruct l as [|a l]; [now inversion H|]. cbn [mark_loop] in H.
    destruct (mark_loop fuel _ _ _ _) as [[c2 lv]|] eqn:E; [|discriminate].
    inversion H; subst. apply IH in E. rewrite E.
    destruct (concat _); [reflexivity|]. apply nodes_mark_nodes_twice.
Qed.

End MarkSubtrees.

(** C3: the chunking is as the claim has it, between 1 and 250 ids in
    each membership query and 3 queries for a frontier of 600 ids, but
    the flags of the chunked pass are not those of the reference pass.
    On [strain_tree], started from the subspecies 3 with flag 0, the
    reference pass marks the frontier of each level, 3 and then 4;
    [mark_subtrees] writes the rows of [tax_ids] at both levels and
    leaves node 4 with flag 1. *)
Theorem chunked_pass_differs_from_reference :
  (forall to_mark : list string,
      Forall (fun chunk => 1 <= List.length chunk <= 250) (partition to_mark chunk_size)) /\
  List.length (partition ids600 chunk_size) = 3 /\
  final_nodes (mark_subtrees 2 ["3"] (Some 0%Z) (mk_con strain_tree [] 0))
  = Some strain_tree_after /\
  final_nodes (reference_pass 2 ["3"] (Some 0%Z) (mk_con strain_tree [] 0))
  = Some strain_tree_marked /\
  strain_tree_after <> strain_tree_marked.
Proof.
  split; [intros to_mark; apply partition_from_chunks|].
  split; [unfold chunk_size; now rewrite partition_length by lia|].
  split; [reflexivity|]. split; [reflexivity|]. discriminate.
Qed.

Example ids600_chunks :
  map (@List.length string) (partition ids600 chunk_size) = [250; 250; 100].
Proof. vm_compute. reflexivity. Qed.

(** ** Termination of the frontier expansion on a tree *)

Section Termination.

Variable t : list Nodes.row.
Variable seeds : list string.

Hypothesis tree : is_tree t.
Hypothesis seeded : Forall (seed_of t) seeds.

Lemma find_node_some (tid : string) (r : Nodes.row) :
  find_node t tid = Some r -> In r t /\ Nodes.tax_id r = tid.
Proof.
  unfold find_node. intros H. apply find_some in H.
  destruct H as [Hin He]. apply String.eqb_eq in He. auto.
Qed.

Lemma find_node_unique (l : list Nodes.row) (r : Nodes.row) :
  NoDup (map Nodes.tax_id l) -> In r l -> find_node l (Nodes.tax_id r) = Some r.
Proof.
  unfold find_node. induction l as [|a l IH]; intros Hnd Hin; [contradiction|].
  cbn [map] in Hnd. inversion Hnd as [|? ? Ha Hl]; subst. cbn [find].
  destruct Hin as [->|Hin].
  - now rewrite String.eqb_refl.
  - destruct (String.eqb (Nodes.tax_id a) (Nodes.tax_id r)) eqn:E.
    + apply String.eqb_eq in E. exfalso. apply Ha. rewrite E. now apply in_map.
    + now apply IH.
Qed.

Lemma find_node_in (r : Nodes.row) : In r t -> find_node t (Nodes.tax_id r) = Some r.
Proof. apply find_node_unique, tree. Qed.

(** Every ancestor of the root is the root. *)
Lemma ancestor_root (k : nat) (r : Nodes.row) :
  In r t -> is_root r = true -> ancestor t k (Nodes.tax_id r) = Some (Nodes.tax_id r).
Proof.
  intros Hin Hroot. induction k as [|k IH]; [reflexivity|].
  cbn [ancestor]. rewrite (find_node_in r Hin).
  unfold is_root, Sql.eq_text in Hroot.
  destruct (Nodes.parent_id r) as [p|]; [|discriminate].
  apply String.eqb_eq in Hroot. now subst.
Qed.

(** A node that lies [k] levels below a node other than the root is
    found at depth more than [k]. *)
Lemma ancestor_depth (k fuel d : nat) (x s : string) :
  depth_from t fuel x = Some d ->
  ancestor t k x = Some s -> seed_of t s -> k < d.
Proof.
  revert fuel d x. induction k as [|k IH]; intros fuel d x Hd Ha Hs.
  - cbn [ancestor] in Ha. inversion Ha; subst x. clear Ha.
    destruct Hs as [r [Hin [Hid Hroot]]]. subst s.
    destruct fuel as [|fuel]; [discriminate|]. cbn [depth_from] in Hd.
    rewrite (find_node_in r Hin) in Hd.
    unfold is_root, Sql.eq_text in Hroot.
    destruct (Nodes.parent_id r) as [p|]; [|discriminate].
    rewrite Hroot in Hd.
    destruct (depth_from t fuel p); inversion Hd; lia.
  - destruct fuel as [|fuel]; [discriminate|].
    cbn [ancestor] in Ha. cbn [depth_from] in Hd.
    destruct (find_node t x) as [r|] eqn:Ef; [|discriminate].
    destruct (find_node_some x r Ef) as [Hin Hid].
    destruct (Nodes.parent_id r) as [p|] eqn:Ep; [|discriminate].
    destruct (String.eqb p x) eqn:Epx.
    + exfalso. apply String.eqb_eq in Epx. subst p.
      assert (Hr : is_root r = true).
      { unfold is_root, Sql.eq_text. rewrite Ep, Hid. apply String.eqb_refl. }
      rewrite <- Hid, (ancestor_root k r Hin Hr) in Ha. inversion Ha; subst s.
      destruct Hs as [r' [Hin' [Hid' Hroot']]].
      assert (r' = r).
      { pose proof (find_node_in r' Hin') as H1. rewrite Hid' in H1.
        rewrite (find_node_in r Hin) in H1. congruence. }
      congruence.
    + destruct (depth_from t fuel p) as [d'|] eqn:Edp; [|discriminate].
      inversion Hd; subst d. specialize (IH fuel d' p Edp Ha Hs). lia.
Qed.

Lemma depth_from_lt (fuel d : nat) (x : string) :
  depth_from t fuel x = Some d -> d < fuel.
Proof.
  revert d x. induction fuel as [|fuel IH]; intros d x H; [discriminate|].
  cbn [depth_from] in H.
  destruct (find_node t x) as [r|]; [|discriminate].
  destruct (Nodes.parent_id r) as [p|]; [|discriminate].
  destruct (String.eqb p x); [inversion H; lia|].
  destruct (depth_from t fuel p) as [d'|] eqn:E; [|discriminate].
  inversion H. apply IH in E. lia.
Qed.

Lemma below_seed_spec (k : nat) (x : string) :
  below_seed t seeds k x = true ->
  exists s, ancestor t k x = Some s /\ seed_of t s.
Proof.
  unfold below_seed. destruct (ancestor t k x) as [a|]; [|discriminate].
  intros H. apply existsb_eqb_In in H. exists a. split; [reflexivity|].
  now apply (proj1 (Forall_forall _ _) seeded).
Qed.

(** The levels below the seeds are fewer than the nodes. *)
Lemma below_seed_level (k : nat) (r : Nodes.row) :
  In r t -> below_seed t seeds k (Nodes.tax_id r) = true -> k < List.length t.
Proof.
  intros Hin Hb. destruct (below_seed_spec _ _ Hb) as [s [Ha Hs]].
  destruct tree as [_ [_ Hdepth]].
  pose proof (proj1 (Forall_forall _ _) Hdepth r Hin) as Hd. unfold depth in Hd.
  destruct (depth_from t (List.length t) (Nodes.tax_id r)) as [d|] eqn:Ed; [|congruence].
  pose proof (ancestor_depth _ _ _ _ _ Ed Ha Hs).
  pose proof (depth_from_lt _ _ _ Ed). lia.
Qed.

Lemma list_max_ge (l : list nat) (n : nat) : In n l -> n <= list_max l.
Proof.
  intros H. pose proof (proj1 (list_max_le l (list_max l)) (Nat.le_refl _)) as Hall.
  now apply (proj1 (Forall_forall _ _) Hall).
Qed.

Lemma subtree_depth_level (k : nat) (r : Nodes.row) :
  In r t -> below_seed t seeds k (Nodes.tax_id r) = true -> S k <= subtree_depth t seeds.
Proof.
  intros Hin Hb. pose proof (below_seed_level k r Hin Hb) as Hk.
  unfold subtree_depth.
  etransitivity; [|apply list_max_ge; apply in_map_iff; exists r; split; [reflexivity|exact Hin]].
  apply list_max_ge. apply in_map_iff. exists k. rewrite Hb. split; [reflexivity|].
  apply in_seq. lia.
Qed.

Lemma at_level_seeds : at_level t seeds 0 seeds.
Proof.
  intros x Hx. destruct (proj1 (Forall_forall _ _) seeded x Hx) as [r [Hin [Hid _]]].
  exists r. repeat split; try assumption.
  unfold below_seed. cbn [ancestor]. now apply existsb_eqb_In.
Qed.

Lemma at_level_children (k : nat) (frontier : list string) :
  at_level t seeds k frontier -> at_level t seeds (S k) (child_sql t frontier).
Proof.
  intros Hl x Hx. apply in_child_sql in Hx.
  destruct Hx as [r [p [Hin [Hid [Ep Hp]]]]].
  exists r. repeat split; try assumption.
  destruct (Hl p Hp) as [_ [_ [_ Hb]]].
  unfold below_seed in *. cbn [ancestor].
  rewrite <- Hid, (find_node_in r Hin), Ep. exact Hb.
Qed.

(** From a frontier at level [k] the loop runs to the end within the
    levels that remain below the seeds. *)
Lemma mark_loop_terminates (fuel k : nat) (tax_ids : list string) (v : option Z)
      (frontier : list string) (c : con) :
  (forall l, child_sql (nodes c) l = child_sql t l) ->
  at_level t seeds k frontier ->
  k <= subtree_depth t seeds -> subtree_depth t seeds <= k + fuel ->
  exists c' levels,
    mark_loop fuel tax_ids v frontier c = Some (c', levels) /\
    k + levels <= subtree_depth t seeds.
Proof.
  revert k frontier c. induction fuel as [|fuel IH]; intros k frontier c Hc Hl Hk Hf.
  - destruct frontier as [|x frontier].
    + exists c, 0. split; [reflexivity|lia].
    + destruct (Hl x (or_introl eq_refl)) as [r [Hin [Hid Hb]]]. rewrite <- Hid in Hb.
      pose proof (subtree_depth_level k r Hin Hb). lia.
  - destruct frontier as [|x frontier].
    + exists c, 0. split; [reflexivity|lia].
    + destruct (Hl x (or_introl eq_refl)) as [r [Hin [Hid Hb]]]. rewrite <- Hid in Hb.
      pose proof (subtree_depth_level k r Hin Hb) as Hsk.
      cbn [mark_loop].
      destruct (IH (S k)
                   (concat (map (fun chunk => child_sql (nodes (mark_nodes v tax_ids c)) chunk)
                                (partition (x :: frontier) chunk_size)))
                   (mark_nodes v tax_ids c)) as [c' [lv [E Hlv]]]; try lia.
      * intros l. now rewrite child_sql_mark_nodes.
      * intros y Hy. rewrite in_chunked_child_sql in Hy by (unfold chunk_size; lia).
        rewrite child_sql_mark_nodes, Hc in Hy.
        now apply (at_level_children k (x :: frontier) Hl).
      * exists c', (S lv). rewrite E. split; [reflexivity|lia].
Qed.

End Termination.

(** C9: on a table whose parent pointers form a tree, started from ids
    of nodes other than the root, the loop of [mark_subtrees] ends: it
    returns after at most as many levels as the subtrees below the seeds
    are deep, from any fuel that covers that depth. *)
Theorem mark_subtrees_terminates (c : con) (seeds : list string) (is_valid : option Z) :
  is_tree (nodes c) -> Forall (seed_of (nodes c)) seeds ->
  exists c' levels,
    levels <= subtree_depth (nodes c) seeds /\
    forall fuel, subtree_depth (nodes c) seeds <= fuel ->
                 mark_subtrees fuel seeds is_valid c = Some (c', levels).
Proof.
  intros Htree Hseeds.
  destruct (mark_loop_terminates (nodes c) seeds Htree Hseeds
              (subtree_depth (nodes c) seeds) 0 seeds is_valid seeds c)
    as [c' [levels [E Hl]]]; try lia.
  - reflexivity.
  - now apply at_level_seeds.
  - exists c', levels. split; [lia|]. intros fuel Hf.
    unfold mark_subtrees. now apply (mark_loop_fuel _ _ _ _ _ _ _ Hf E).
Qed.

Lemma mark_subtrees_terminates_witness :
  is_tree two_species /\ Forall (seed_of two_species) ["3"; "6"] /\
  exists c' levels,
    levels <= subtree_depth two_species ["3"; "6"] /\
    forall fuel, subtree_depth two_species ["3"; "6"] <= fuel ->
                 mark_subtrees fuel ["3"; "6"] (Some 0%Z) (mk_con two_species [] 0)
                 = Some (c', levels).
Proof.
  assert (Htree : is_tree two_species).
  { repeat split.
    - repeat constructor; simpl; intuition discriminate.
    - repeat constructor; vm_compute; discriminate. }
  assert (Hseeds : Forall (seed_of two_species) ["3"; "6"]).
  { repeat constructor.
    - exists (node "3" "2" "subspecies" 1). simpl. intuition.
    - exists (node "6" "5" "no_rank" 0). simpl. intuition. }
  split; [exact Htree|]. split; [exact Hseeds|].
  exact (mark_subtrees_terminates (mk_con two_species [] 0) ["3"; "6"] (Some 0%Z)
                                  Htree Hseeds).
Defined.

Example two_species_levels :
  subtree_depth two_species ["3"; "6"] = 2 /\
  option_map snd (mark_subtrees 2 ["3"; "6"] (Some 0%Z) (mk_con two_species [] 0)) = Some 2.
Proof. split; reflexivity. Qed.

(** ** [update_subtree_validity] and [mark_is_valid] on sample tables *)

Section Validity.

(** C1: species 2 is invalid; its child 3 is given the flag of the
    species, and 4, the child of 3, keeps the flag it was seeded with:
    every level of the loop updates the rows of [tax_ids], the ids
    [mark_subtrees] was called with, instead of the frontier. *)
Theorem update_subtree_validity_skips_grandchildren :
  update_subtree_validity 4 (mk_con strain_tree [] 0) "species"
  = Some (mk_con strain_tree_after [] 2) /\
  option_map Nodes.is_valid (find_node strain_tree_after "2") = Some (Some 0%Z) /\
  ancestor strain_tree_after 2 "4" = Some "2" /\
  option_map Nodes.is_valid (find_node strain_tree_after "4") = Some (Some 1%Z).
Proof. repeat split; reflexivity. Qed.

(** In general a call of [mark_subtrees] changes no row whose id is not
    among its [tax_ids]. *)
Lemma mark_subtrees_writes_seeds_only (fuel : nat) (tax_ids : list string) (v : option Z)
      (c c' : con) (levels : nat) (r : Nodes.row) :
  mark_subtrees fuel tax_ids v c = Some (c', levels) ->
  In r (nodes c) -> ~ In (Nodes.tax_id r) tax_ids -> In r (nodes c').
Proof.
  unfold mark_subtrees. intros H Hin Hnot. apply mark_loop_nodes in H. rewrite H.
  destruct tax_ids; [assumption|]. rewrite nodes_mark_nodes. apply in_map_iff.
  exists r. split; [|assumption].
  destruct (existsb _ _) eqn:E; [|reflexivity].
  apply existsb_eqb_In in E. contradiction.
Qed.

(** [mark_is_valid] gives every node the same flag, the value of the
    subquery, which no column of [nodes] enters. *)
Lemma mark_is_valid_uniform (c : con) (r : Nodes.row) :
  In r (nodes (mark_is_valid c)) ->
  Nodes.is_valid r = is_classified_subquery (names c).
Proof.
  unfold mark_is_valid, Sql.update. cbn [nodes]. rewrite in_map_iff.
  intros [r0 [<- _]]. reflexivity.
Qed.

(** C2: the primary name of taxon 2, "Bacillus subtilis", is classified
    and that of taxon 1 is too, but after [mark_is_valid] both nodes
    are invalid: the flag comes from the first row of [names], a
    synonym of taxon 2 that matches ['uncultured']. *)
Theorem mark_is_valid_ignores_primary_name :
  map (fun r => (Names.tax_id r, Names.tax_name r, Names.is_classified r))
      (filter is_primary_row (names bacillus_db))
  = [ (Some "2", Some "Bacillus subtilis", Some 1%Z); (Some "1", Some "root", Some 1%Z) ] /\
  map (fun r => (Nodes.tax_id r, Nodes.is_valid r)) (nodes (mark_is_valid bacillus_db))
  = [ ("1", Some 0%Z); ("2", Some 0%Z) ].
Proof. split; reflexivity. Qed.

End Validity.

(** ** ncbi.py: [fix_missing_primary] *)

Section Healing.

Lemma existsb_pointwise {A : Type} (f g : A -> bool) (l : list A) :
  (forall x, f x = g x) -> existsb f l = existsb g l.
Proof. intros H. induction l as [|a l IH]; cbn; [reflexivity|]. now rewrite H, IH. Qed.

Lemma eq_text_true (a b : option string) :
  Sql.eq_text a b = true <-> exists x, a = Some x /\ b = Some x.
Proof.
  unfold Sql.eq_text. destruct a as [x|], b as [y|]; split;
    try discriminate; try (intros [z [H1 H2]]; discriminate).
  - intros H. apply String.eqb_eq in H. subst. eauto.
  - intros [z [H1 H2]]. inversion H1; inversion H2; subst. apply String.eqb_refl.
Qed.

Lemma same_key_true (a b : option string) : Sql.same_key a b = true <-> a = b.
Proof.
  unfold Sql.same_key. destruct a as [x|], b as [y|]; split;
    try discriminate; try reflexivity.
  - intros H. apply String.eqb_eq in H. now subst.
  - intros H. inversion H. apply String.eqb_refl.
Qed.

Lemma in_distinct (k : option string) (l : list (option string)) :
  In k (Sql.distinct l) <-> In k l.
Proof.
  induction l as [|a l IH]; [reflexivity|]. cbn [Sql.distinct In].
  rewrite filter_In, IH. split.
  - intros [H|[H _]]; auto.
  - intros [H|H]; [now left|].
    destruct (Sql.same_key a k) eqn:E.
    + left. now apply same_key_true.
    + right. now split.
Qed.

(** The ids selected for healing are keys of the table whose flags sum
    to zero. *)
Lemma in_missing_primary (t : list Names.row) (k : option string) :
  In k (missing_primary t) <->
  In k (map Names.tax_id t) /\
  Sql.sum (map Names.is_primary (filter (fun r => Sql.same_key (Names.tax_id r) k) t))
  = Some 0%Z.
Proof.
  unfold missing_primary. rewrite filter_In, in_distinct.
  unfold Sql.is_zero.
  destruct (Sql.sum _) as [z|]; split; intros [H1 H2]; split; try assumption;
    try discriminate.
  - apply Z.eqb_eq in H2. now subst.
  - inversion H2. reflexivity.
Qed.

(** *** The updates change [is_primary] only *)

Lemma rows_for_taxid_update (P : Names.row -> bool) (t : list Names.row) (k : option string) :
  rows_for_taxid (Sql.update P set1 t) k = rows_for_taxid t k.
Proof.
  unfold rows_for_taxid, Sql.update. induction t as [|r t IH]; [reflexivity|].
  cbn [map filter]. destruct (P r); cbn [Names.set_is_primary Names.tax_id];
    destruct (Sql.eq_text (Names.tax_id r) k); cbn [map]; now rewrite IH.
Qed.

Lemma chosen_update (P : Names.row -> bool) (t : list Names.row) (k : option string) :
  chosen (Sql.update P set1 t) k = chosen t k.
Proof. unfold chosen. now rewrite rows_for_taxid_update. Qed.

Lemma healed_by_update (P : Names.row -> bool) (t : list Names.row) (k : option string) r :
  healed_by (Sql.update P set1 t) k r = healed_by t k r.
Proof. unfold healed_by. now rewrite chosen_update. Qed.

Lemma healed_by_set (t : list Names.row) (k : option string) (r : Names.row) v :
  healed_by t k (Names.set_is_primary v r) = healed_by t k r.
Proof.
  unfold healed_by. destruct (chosen t k) as [[sci [[[a b] c] d]]|]; reflexivity.
Qed.

(** Two updates in a row are one update with the disjunction of the
    conditions, when the second condition does not read [is_primary]. *)
Lemma update_update (P Q : Names.row -> bool) (t : list Names.row) :
  (forall r, Q (set1 r) = Q r) ->
  Sql.update Q set1 (Sql.update P set1 t) = Sql.update (fun r => P r || Q r) set1 t.
Proof.
  intros HQ. unfold Sql.update. rewrite map_map. apply map_ext. intros r.
  destruct (P r); cbn [orb]; [rewrite HQ|]; destruct (Q r); reflexivity.
Qed.

Lemma update_pointwise {A : Type} (P Q : A -> bool) (f : A -> A) (t : list A) :
  (forall r, P r = Q r) -> Sql.update P f t = Sql.update Q f t.
Proof. intros H. unfold Sql.update. apply map_ext. intros r. now rewrite H. Qed.

Lemma where_record_set (i : record) (r : Names.row) v :
  where_record i (Names.set_is_primary v r) = where_record i r.
Proof. destruct i as [[[a b] c] d]. reflexivity. Qed.

(** *** One pass of the loop body *)

Lemma heal_tax_id_chosen (c : con) (k : option string) :
  match chosen (names c) k with
  | Ok _ => exists c', heal_tax_id c k = Ok c' /\
                       nodes c' = nodes c /\
                       names c' = Sql.update (healed_by (names c) k) set1 (names c)
  | Raise e => heal_tax_id c k = Raise e
  end.
Proof.
  unfold heal_tax_id, healed_by, chosen.
  destruct (List.length (filter is_scientific (rows_for_taxid (names c) k)) =? 1).
  - destruct (filter is_scientific (rows_for_taxid (names c) k)) as [|i l]; cbn; [reflexivity|].
    eexists. split; [reflexivity|]. split; [reflexivity|].
    apply update_update. intros r. apply where_record_set.
  - destruct (rows_for_taxid (names c) k) as [|i l]; cbn; [reflexivity|].
    eexists. split; [reflexivity|]. split; [reflexivity|]. reflexivity.
Qed.

Lemma chosen_raise (t : list Names.row) (k : option string) (e : exn) :
  chosen t k = Raise e -> e = IndexError /\ rows_for_taxid t k = [].
Proof.
  unfold chosen.
  destruct (List.length (filter is_scientific (rows_for_taxid t k)) =? 1) eqn:E.
  - destruct (filter is_scientific (rows_for_taxid t k)); cbn; discriminate.
  - destruct (rows_for_taxid t k); cbn; [|discriminate].
    intros H. inversion H. auto.
Qed.

Lemma chosen_ok (t : list Names.row) (k : option string) :
  rows_for_taxid t k <> [] -> exists x, chosen t k = Ok x.
Proof.
  intros H. destruct (chosen t k) as [x|e] eqn:E; [eauto|].
  apply chosen_raise in E. tauto.
Qed.

(** *** The whole loop *)

Lemma heal_each_names (ids : list (option string)) (c c' : con) :
  heal_each ids c = Ok c' ->
  nodes c' = nodes c /\
  names c' = Sql.update (fun r => existsb (fun k => healed_by (names c) k r) ids) set1 (names c).
Proof.
  revert c. induction ids as [|k ids IH]; intros c H.
  - inversion H; subst. split; [reflexivity|]. unfold Sql.update. cbn [existsb].
    symmetry. apply map_id.
  - cbn [heal_each] in H. pose proof (heal_tax_id_chosen c k) as Hk.
    destruct (chosen (names c) k) as [x|e].
    + destruct Hk as [c1 [E1 [Hn1 Hm1]]]. rewrite E1 in H. cbn [Py.bind] in H.
      apply IH in H. destruct H as [Hn Hm]. split; [congruence|].
      rewrite Hm, Hm1. rewrite update_update.
      * apply update_pointwise. intros r. cbn [existsb].
        f_equal. apply existsb_pointwise. intros k'. apply healed_by_update.
      * intros r. apply existsb_pointwise. intros k'. apply healed_by_set.
    + rewrite Hk in H. discriminate.
Qed.

Lemma heal_each_ok (ids : list (option string)) (c : con) :
  (forall k, In k ids -> rows_for_taxid (names c) k <> []) ->
  exists c', heal_each ids c = Ok c'.
Proof.
  revert c. induction ids as [|k ids IH]; intros c H; [eexists; reflexivity|].
  cbn [heal_each]. pose proof (heal_tax_id_chosen c k) as Hk.
  destruct (chosen_ok (names c) k (H k (or_introl eq_refl))) as [x Ex].
  rewrite Ex in Hk. destruct Hk as [c1 [E1 [_ Hm1]]]. rewrite E1. cbn [Py.bind].
  apply IH. intros k' Hk'. rewrite Hm1, rows_for_taxid_update. apply H. now right.
Qed.

Lemma heal_each_raise (ids : list (option string)) (c : con) (e : exn) :
  heal_each ids c = Raise e -> e = IndexError.
Proof.
  revert c. induction ids as [|k ids IH]; intros c H; [discriminate|].
  cbn [heal_each] in H. pose proof (heal_tax_id_chosen c k) as Hk.
  destruct (chosen (names c) k) as [x|e'] eqn:Ec.
  - destruct Hk as [c1 [E1 _]]. rewrite E1 in H. cbn [Py.bind] in H. eauto.
  - rewrite Hk in H. inversion H; subst. now apply chosen_raise in Ec.
Qed.

Lemma rows_for_taxid_nonempty (t : list Names.row) (r : Names.row) (tid : string) :
  In r t -> Names.tax_id r = Some tid -> rows_for_taxid t (Some tid) <> [].
Proof.
  intros Hin Hid. unfold rows_for_taxid.
  assert (H : In r (filter (fun r => Sql.eq_text (Names.tax_id r) (Some tid)) t)).
  { apply filter_In. split; [assumption|]. apply eq_text_true. eauto. }
  destruct (filter _ t); [contradiction|discriminate].
Qed.

(** An id selected for healing that is not NULL has a candidate row. *)
Lemma selected_has_candidates (t : list Names.row) (tid : string) :
  In (Some tid) (missing_primary t) -> rows_for_taxid t (Some tid) <> [].
Proof.
  intros H. apply in_missing_primary in H. destruct H as [H _].
  apply in_map_iff in H. destruct H as [r [Hid Hin]].
  now apply (rows_for_taxid_nonempty _ r).
Qed.

(** Without NULL ids the healing runs to the end. *)
Lemma fix_missing_primary_completes (c : con) :
  (forall r, In r (names c) -> Names.tax_id r <> None) ->
  exists c', fix_missing_primary c = Ok c'.
Proof.
  intros Hnn. apply heal_each_ok. intros [tid|] Hk; [now apply selected_has_candidates|].
  apply in_missing_primary in Hk. destruct Hk as [Hk _].
  apply in_map_iff in Hk. destruct Hk as [r [Hid Hin]]. now apply Hnn in Hin.
Qed.

(** The rows that [read_names] yields have flags 0 and 1 and no NULL
    text column. *)
Lemma read_names_flags (rows : list Dmp.name) (re : option Re.regex) :
  primary_flags (read_names rows re).
Proof.
  unfold primary_flags, read_names. apply Forall_map, Forall_forall. intros row _.
  unfold primary_flag, _is_primary. cbn [Names.is_primary].
  destruct (negb _); [now left|]. destruct (String.eqb _ _); [now right|].
  destruct (String.eqb _ _); [now right|now left].
Qed.

Lemma read_names_not_null (rows : list Dmp.name) (re : option Re.regex) :
  Forall text_not_null (read_names rows re).
Proof.
  unfold read_names. apply Forall_map, Forall_forall. intros row _.
  repeat split; discriminate.
Qed.

(** *** Which record is picked, and which rows it selects *)

Lemma in_rows_for_taxid (t : list Names.row) (k : option string) (i : record) :
  In i (rows_for_taxid t k) <->
  exists r, In r t /\ select_record r = i /\ Sql.eq_text (Names.tax_id r) k = true.
Proof.
  unfold rows_for_taxid. rewrite in_map_iff. split.
  - intros [r [Hi Hr]]. apply filter_In in Hr. exists r. tauto.
  - intros [r [Hr [Hi Hk]]]. exists r. rewrite filter_In. tauto.
Qed.

Lemma chosen_spec (t : list Names.row) (k : option string) (sci : bool) (i : record) :
  chosen t k = Ok (sci, i) ->
  In i (rows_for_taxid t k) /\
  if sci
  then List.length (filter is_scientific (rows_for_taxid t k)) = 1 /\ is_scientific i = true
  else List.length (filter is_scientific (rows_for_taxid t k)) <> 1 /\
       exists rest, rows_for_taxid t k = i :: rest.
Proof.
  unfold chosen.
  destruct (List.length (filter is_scientific (rows_for_taxid t k)) =? 1) eqn:E.
  - apply Nat.eqb_eq in E.
    destruct (filter is_scientific (rows_for_taxid t k)) as [|j l] eqn:Ef; cbn; [discriminate|].
    intros H. inversion H; subst.
    assert (Hj : In i (filter is_scientific (rows_for_taxid t k))) by (rewrite Ef; now left).
    apply filter_In in Hj. tauto.
  - apply Nat.eqb_neq in E.
    destruct (rows_for_taxid t k) as [|j l] eqn:Er; cbn; [discriminate|].
    intros H. inversion H; subst. split; [now left|]. split; [assumption|eauto].
Qed.

(** The loop body for [k] selects rows of [k] only. *)
Lemma healed_by_tax_id (t : list Names.row) (k : option string) (r : Names.row) :
  healed_by t k r = true -> Sql.eq_text (Names.tax_id r) k = true.
Proof.
  unfold healed_by. destruct (chosen t k) as [[sci i]|] eqn:E; [|discriminate].
  apply chosen_spec in E. destruct E as [Hi _].
  apply in_rows_for_taxid in Hi. destruct Hi as [r0 [_ [<- Hk]]].
  apply eq_text_true in Hk. destruct Hk as [x [H0 ->]].
  unfold where_class, where_record, select_record. cbn [fst]. rewrite H0.
  intros H. apply orb_true_iff in H. destruct H as [H|H].
  - apply andb_true_iff in H. destruct H as [_ H].
    apply andb_true_iff in H. tauto.
  - repeat (apply andb_true_iff in H; destruct H as [H _]). exact H.
Qed.

Lemma same_key_some (a : option string) (x : string) :
  Sql.same_key a (Some x) = Sql.eq_text a (Some x).
Proof. now destruct a. Qed.

Lemma filter_and {A : Type} (P Q : A -> bool) (l : list A) :
  filter (fun x => P x && Q x) l = filter Q (filter P l).
Proof.
  induction l as [|a l IH]; [reflexivity|]. cbn [filter].
  destruct (P a); cbn [andb filter]; [destruct (Q a)|]; now rewrite IH.
Qed.

Lemma filter_map_swap {A B : Type} (f : A -> B) (P : B -> bool) (l : list A) :
  filter P (map f l) = map f (filter (fun x => P (f x)) l).
Proof.
  induction l as [|a l IH]; [reflexivity|]. cbn [map filter].
  destruct (P (f a)); cbn [map]; now rewrite IH.
Qed.

(** The count of ['scientific name'] records is the count of such rows. *)
Lemma scientific_records (t : list Names.row) (tid : string) :
  filter is_scientific (rows_for_taxid t (Some tid)) =
  map select_record (scientific_rows t tid).
Proof.
  unfold rows_for_taxid, scientific_rows. rewrite filter_map_swap, filter_and.
  reflexivity.
Qed.

(** *** An id without candidate rows *)

Lemma heal_each_raise_inv (ids : list (option string)) (c : con) (e : exn) :
  heal_each ids c = Raise e ->
  exists k, In k ids /\ rows_for_taxid (names c) k = [].
Proof.
  revert c. induction ids as [|k ids IH]; intros c H; [discriminate|].
  cbn [heal_each] in H. pose proof (heal_tax_id_chosen c k) as Hk.
  destruct (chosen (names c) k) as [x|e'] eqn:Ec.
  - destruct Hk as [c1 [E1 [_ Hm1]]]. rewrite E1 in H. cbn [Py.bind] in H.
    destruct (IH c1 H) as [k' [Hin Hr]]. exists k'. split; [now right|].
    now rewrite Hm1, rows_for_taxid_update in Hr.
  - exists k. split; [now left|]. now apply chosen_raise in Ec.
Qed.

Lemma heal_each_raises (ids : list (option string)) (c : con) (k : option string) :
  In k ids -> rows_for_taxid (names c) k = [] ->
  heal_each ids c = Raise IndexError.
Proof.
  revert c. induction ids as [|a ids IH]; intros c Hin Hr; [contradiction|].
  cbn [heal_each]. pose proof (heal_tax_id_chosen c a) as Ha.
  destruct (chosen (names c) a) as [x|e] eqn:Ec.
  - destruct Ha as [c1 [E1 [_ Hm1]]]. rewrite E1. cbn [Py.bind].
    destruct Hin as [->|Hin].
    + destruct x as [sci i]. apply chosen_spec in Ec. destruct Ec as [Hi _]. rewrite Hr in Hi. contradiction.
    + apply IH; [assumption|]. now rewrite Hm1, rows_for_taxid_update.
  - rewrite Ha. apply chosen_raise in Ec. destruct Ec as [-> _]. reflexivity.
Qed.

Lemma rows_for_taxid_null (t : list Names.row) : rows_for_taxid t None = [].
Proof.
  unfold rows_for_taxid. induction t as [|r t IH]; [reflexivity|]. cbn [filter].
  assert (E : Sql.eq_text (Names.tax_id r) None = false) by now destruct (Names.tax_id r).
  now rewrite E.
Qed.

(** C7, counterexample: the only selected id is NULL, no row is a
    candidate for it ([tax_id = NULL] selects nothing), and the error
    raised is [IndexError], from [records[0]]. *)
Lemma orphan_raises_index_error :
  missing_primary orphan_names = [None] /\
  rows_for_taxid orphan_names None = [] /\
  fix_missing_primary (mk_con [] orphan_names 0) = Raise IndexError.
Proof. repeat split; reflexivity. Qed.

(** C7, amended: on flags 0 and 1, an id selected for healing that
    has no candidate row is the NULL id, any other id being read from a
    row of [names] that is then a candidate, and the run does not skip
    it: [fix_missing_primary] raises, and the error is the [IndexError]
    of [records[0]].  The flags 0 and 1 keep the sums of the selecting
    query within the 64-bit integers. *)
Theorem heal_without_candidates_raises (c : con) (k : option string) :
  primary_flags (names c) ->
  In k (missing_primary (names c)) -> rows_for_taxid (names c) k = [] ->
  k = None /\ fix_missing_primary c = Raise IndexError.
Proof.
  intros _ Hk Hr. split.
  - destruct k as [tid|]; [|reflexivity]. now apply selected_has_candidates in Hk.
  - exact (heal_each_raises _ c k Hk Hr).
Qed.

Lemma heal_without_candidates_raises_witness :
  primary_flags orphan_names /\
  In None (missing_primary orphan_names) /\
  rows_for_taxid orphan_names None = [] /\
  fix_missing_primary (mk_con [] orphan_names 0) = Raise IndexError.
Proof.
  assert (Hf : primary_flags (names (mk_con [] orphan_names 0)))
    by (repeat constructor; now left).
  assert (Hk : In None (missing_primary (names (mk_con [] orphan_names 0))))
    by now left.
  split; [exact Hf|]. split; [exact Hk|]. split; [reflexivity|].
  exact (proj2 (heal_without_candidates_raises (mk_con [] orphan_names 0) None
                  Hf Hk eq_refl)).
Defined.

(** *** Sums of flags *)

Lemma sum_flags (l : list Names.row) :
  Forall primary_flag l -> l <> [] ->
  exists z, Sql.sum (map Names.is_primary l) = Some z /\ (0 <= z)%Z /\
            (z = 0%Z <-> Forall (fun r => Names.is_primary r = Some 0%Z) l).
Proof.
  induction l as [|r l IH]; intros Hf Hne; [congruence|].
  inversion Hf as [|? ? Hr Hl]; subst. cbn [map Sql.sum].
  destruct l as [|r' l].
  - cbn [map Sql.sum].
    destruct Hr as [Er | Er]; rewrite Er; eexists; (split; [reflexivity|]);
      (split; [lia|]); split; intros H; try lia.
    + now repeat constructor.
    + inversion H; subst. congruence.
  - destruct (IH Hl ltac:(discriminate)) as [z [Ez [Hz Hiff]]]. rewrite Ez.
    destruct Hr as [Er | Er]; rewrite Er; eexists; (split; [reflexivity|]);
      (split; [lia|]); split; intros H; try lia.
    + constructor; [assumption|]. apply Hiff. lia.
    + inversion H as [|? ? _ Hl0]; subst. apply Hiff in Hl0. lia.
    + inversion H; subst. congruence.
Qed.

Lemma forall_filter {A : Type} (P : A -> Prop) (f : A -> bool) (l : list A) :
  Forall P (filter f l) <-> forall x, In x l -> f x = true -> P x.
Proof.
  rewrite Forall_forall. split.
  - intros H x Hx Hf. apply H. now apply filter_In.
  - intros H x Hx. apply filter_In in Hx. now apply H.
Qed.

(** With flags 0 and 1, a taxon is selected for healing exactly when it
    has a row and none of its rows is primary. *)
Lemma selected_iff (t : list Names.row) (tid : string) :
  (forall r, In r t -> Names.tax_id r = Some tid -> primary_flag r) ->
  In (Some tid) (missing_primary t) <->
  In (Some tid) (map Names.tax_id t) /\ primary_rows t tid = [].
Proof.
  intros Hflags. rewrite in_missing_primary.
  rewrite (filter_ext _ _ (fun r => same_key_some (Names.tax_id r) tid)).
  split; intros [Hin H]; (split; [assumption|]).
  - assert (Hg : Forall primary_flag (filter (has_tax_id tid) t)).
    { apply forall_filter. intros r Hr Ht. apply Hflags; [assumption|].
      apply eq_text_true in Ht. destruct Ht as [x [-> Hx]]. congruence. }
    assert (Hne : filter (has_tax_id tid) t <> []).
    { apply in_map_iff in Hin. destruct Hin as [r [Hid Hr]].
      assert (In r (filter (has_tax_id tid) t)).
      { apply filter_In. split; [assumption|]. apply eq_text_true. eauto. }
      intros E. rewrite E in *. contradiction. }
    destruct (sum_flags _ Hg Hne) as [z [Ez [_ Hz]]].
    unfold has_tax_id in Ez. rewrite Ez in H. inversion H; subst z.
    unfold primary_rows. rewrite filter_and.
    destruct (filter is_primary_row (filter (has_tax_id tid) t)) as [|r l] eqn:E;
      [reflexivity|].
    assert (Hr : In r (filter is_primary_row (filter (has_tax_id tid) t)))
      by (rewrite E; now left).
    apply filter_In in Hr. destruct Hr as [Hr Hp].
    pose proof (proj1 (Forall_forall _ _) (proj1 Hz eq_refl) r Hr) as H0.
    unfold is_primary_row in Hp. rewrite H0 in Hp. discriminate.
  - assert (Hg : Forall primary_flag (filter (has_tax_id tid) t)).
    { apply forall_filter. intros r Hr Ht. apply Hflags; [assumption|].
      apply eq_text_true in Ht. destruct Ht as [x [-> Hx]]. congruence. }
    assert (Hne : filter (has_tax_id tid) t <> []).
    { apply in_map_iff in Hin. destruct Hin as [r [Hid Hr]].
      assert (In r (filter (has_tax_id tid) t)).
      { apply filter_In. split; [assumption|]. apply eq_text_true. eauto. }
      intros E. rewrite E in *. contradiction. }
    destruct (sum_flags _ Hg Hne) as [z [Ez [_ Hz]]].
    unfold has_tax_id in Ez. rewrite Ez. f_equal. apply Hz.
    apply Forall_forall. intros r Hr.
    destruct (proj1 (Forall_forall _ _) Hg r Hr) as [H0|H1]; [assumption|].
    exfalso. assert (Hp : In r (primary_rows t tid)).
    { unfold primary_rows. rewrite filter_and. apply filter_In. split; [assumption|].
      unfold is_primary_row. now rewrite H1. }
    rewrite H in Hp. contradiction.
Qed.

(** *** A taxon with exactly one scientific name *)

Lemma touched_iff (t : list Names.row) (ids : list (option string)) (r : Names.row)
      (tid : string) :
  Names.tax_id r = Some tid ->
  existsb (fun k => healed_by t k r) ids = true <->
  In (Some tid) ids /\ healed_by t (Some tid) r = true.
Proof.
  intros Hid. rewrite existsb_exists. split.
  - intros [k [Hk Hh]]. pose proof (healed_by_tax_id _ _ _ Hh) as He.
    apply eq_text_true in He. destruct He as [x [Hx ->]].
    assert (x = tid) by congruence. subst x. auto.
  - intros [Hin Hh]. eauto.
Qed.

Lemma is_scientific_class (i : record) :
  is_scientific i = true -> snd i = Some scientific_name.
Proof.
  unfold is_scientific. destruct (snd i) as [x|]; [|discriminate].
  intros H. apply String.eqb_eq in H. now subst.
Qed.

Lemma healed_by_scientific (t : list Names.row) (tid : string) (i : record) (r : Names.row) :
  chosen t (Some tid) = Ok (true, i) -> Names.tax_id r = Some tid ->
  healed_by t (Some tid) r = is_scientific_row r.
Proof.
  intros Hc Hid. unfold healed_by. rewrite Hc. apply chosen_spec in Hc.
  destruct Hc as [Hi [_ Hs]]. apply is_scientific_class in Hs.
  apply in_rows_for_taxid in Hi. destruct Hi as [r0 [_ [<- Hk]]].
  apply eq_text_true in Hk. destruct Hk as [x [H0 Hx]]. inversion Hx; subst x.
  unfold select_record in *. cbn [fst snd] in *.
  unfold where_class, where_record, is_scientific_row. rewrite H0, Hs, Hid.
  cbn [andb Sql.eq_text]. rewrite String.eqb_refl. cbn [andb].
  destruct (Sql.eq_text (Names.name_class r) (Some scientific_name));
    [reflexivity|]. now rewrite andb_false_r.
Qed.

Lemma filter_map_cond {A : Type} (Q Q' : A -> bool) (g g' : A -> A) (l : list A) :
  (forall r, In r l -> Q (g r) = Q' r) ->
  (forall r, In r l -> Q' r = true -> g r = g' r) ->
  filter Q (map g l) = map g' (filter Q' l).
Proof.
  induction l as [|a l IH]; intros H1 H2; [reflexivity|].
  cbn [map filter]. rewrite (H1 a (or_introl eq_refl)).
  destruct (Q' a) eqn:E; cbn [map];
    [rewrite (H2 a (or_introl eq_refl) E)|]; rewrite IH; auto;
    intros r Hr; try apply H1; try apply H2; now right.
Qed.

Lemma has_tax_id_true (tid : string) (r : Names.row) :
  has_tax_id tid r = true <-> Names.tax_id r = Some tid.
Proof.
  unfold has_tax_id. rewrite eq_text_true. split.
  - intros [x [H1 H2]]. congruence.
  - eauto.
Qed.

(** A taxon is selected for healing exactly when it has a row and its
    flags sum to zero. *)
Lemma selected_flag_sum (t : list Names.row) (tid : string) :
  In (Some tid) (missing_primary t) <->
  In (Some tid) (map Names.tax_id t) /\ flag_sum t tid = Some 0%Z.
Proof.
  rewrite in_missing_primary. unfold flag_sum.
  now rewrite (filter_ext _ _ (fun r => same_key_some (Names.tax_id r) tid)).
Qed.

(** C4, counterexample: with [is_primary] NULL in both rows, taxon 7
    has no primary name and exactly one row of class ['scientific
    name'], but [SUM(is_primary)] is NULL, not 0: the taxon is not
    selected and the run leaves the scientific-name row as it was. *)
Lemma null_flags_not_promoted :
  primary_rows (names taxon7_null) "7" = [] /\
  List.length (scientific_rows (names taxon7_null) "7") = 1 /\
  fix_missing_primary taxon7_null = Ok taxon7_null /\
  map Names.is_primary (scientific_rows (names taxon7_null) "7") = [None].
Proof. repeat split; reflexivity. Qed.

(** C4, amended: take a taxon without a primary name and with exactly
    one row of class ['scientific name'], and a run of
    [fix_missing_primary] that completes.  If the flags of the taxon sum
    to zero, the scientific-name row comes out set to primary and the
    other rows of the taxon as they were, so that it is the one primary
    row of the taxon.  If they do not, all rows of the taxon come out as
    they were, and the taxon is left without a primary name. *)
Theorem heal_promotes_scientific_name (c c' : con) (tid : string) :
  fix_missing_primary c = Ok c' ->
  primary_rows (names c) tid = [] ->
  List.length (scientific_rows (names c) tid) = 1 ->
  (flag_sum (names c) tid = Some 0%Z ->
   (forall n r, nth_error (names c) n = Some r -> Names.tax_id r = Some tid ->
                nth_error (names c') n = Some (if is_scientific_row r then set1 r else r)) /\
   primary_rows (names c') tid = map set1 (scientific_rows (names c) tid)) /\
  (flag_sum (names c) tid <> Some 0%Z ->
   (forall n r, nth_error (names c) n = Some r -> Names.tax_id r = Some tid ->
                nth_error (names c') n = Some r) /\
   primary_rows (names c') tid = []).
Proof.
  intros Hfix Hzero Hsci.
  apply heal_each_names in Hfix. destruct Hfix as [_ Hnames].
  set (t := names c) in *.
  assert (Hother : forall r r', Names.tax_id r' = Names.tax_id r ->
                                has_tax_id tid r = false -> has_tax_id tid r' = false).
  { intros r r' E. unfold has_tax_id. now rewrite E. }
  split.
  - intros Hsum.
    assert (Hsel : forall r, In r t -> Names.tax_id r = Some tid ->
                             In (Some tid) (missing_primary t)).
    { intros r Hr Hid. apply selected_flag_sum. split; [|assumption].
      apply in_map_iff. eauto. }
    assert (Htouch : forall r, In r t -> Names.tax_id r = Some tid ->
                               existsb (fun k => healed_by t k r) (missing_primary t)
                               = is_scientific_row r).
    { intros r Hr Hid. apply eq_true_iff_eq. rewrite (touched_iff t _ r tid Hid).
      destruct (chosen_ok t (Some tid) (rows_for_taxid_nonempty t r tid Hr Hid))
        as [[sci i] Ec].
      destruct sci.
      - rewrite (healed_by_scientific t tid i r Ec Hid). pose proof (Hsel r Hr Hid). tauto.
      - apply chosen_spec in Ec. destruct Ec as [_ [Hne _]].
        rewrite scientific_records, length_map in Hne. contradiction. }
    split.
    + intros n r Hn Hid. rewrite Hnames. unfold Sql.update.
      rewrite nth_error_map, Hn. cbn [option_map].
      now rewrite (Htouch r (nth_error_In _ _ Hn) Hid).
    + rewrite Hnames. unfold primary_rows, scientific_rows, Sql.update.
      apply filter_map_cond.
      * intros r Hr. destruct (has_tax_id tid r) eqn:Ht.
        -- apply has_tax_id_true in Ht. rewrite (Htouch r Hr Ht).
           destruct (is_scientific_row r) eqn:Es.
           ++ assert (E : has_tax_id tid (set1 r) = true) by now apply has_tax_id_true.
              now rewrite E.
           ++ rewrite (proj2 (has_tax_id_true tid r) Ht). cbn [andb].
              destruct (is_primary_row r) eqn:Ep; [|reflexivity].
              assert (Hin : In r (primary_rows t tid)).
              { apply filter_In. split; [assumption|].
                now rewrite (proj2 (has_tax_id_true tid r) Ht), Ep. }
              rewrite Hzero in Hin. contradiction.
        -- cbn [andb].
           destruct (existsb _ _); [rewrite (Hother r (set1 r) eq_refl Ht)|rewrite Ht]; reflexivity.
      * intros r Hr Hq. apply andb_true_iff in Hq. destruct Hq as [Ht Hs].
        apply has_tax_id_true in Ht. now rewrite (Htouch r Hr Ht), Hs.
  - intros Hsum.
    assert (Hnot : ~ In (Some tid) (missing_primary t)).
    { intros H. apply selected_flag_sum in H. tauto. }
    assert (Hkeep : forall r, Names.tax_id r = Some tid ->
                              existsb (fun k => healed_by t k r) (missing_primary t) = false).
    { intros r Hid. destruct (existsb _ _) eqn:E; [|reflexivity].
      apply (touched_iff t _ r tid Hid) in E. tauto. }
    split.
    + intros n r Hn Hid. rewrite Hnames. unfold Sql.update.
      rewrite nth_error_map, Hn. cbn [option_map]. now rewrite (Hkeep r Hid).
    + transitivity (map (fun r : Names.row => r) (primary_rows t tid));
        [|now rewrite map_id].
      rewrite Hnames. unfold primary_rows, Sql.update.
      apply filter_map_cond.
      * intros r Hr. destruct (has_tax_id tid r) eqn:Ht.
        -- apply has_tax_id_true in Ht. rewrite (Hkeep r Ht).
           now rewrite (proj2 (has_tax_id_true tid r) Ht).
        -- cbn [andb].
           destruct (existsb _ _); [rewrite (Hother r (set1 r) eq_refl Ht)|rewrite Ht]; reflexivity.
      * intros r Hr Hq. apply andb_true_iff in Hq. destruct Hq as [Ht _].
        apply has_tax_id_true in Ht. now rewrite (Hkeep r Ht).
Qed.

Lemma heal_promotes_scientific_name_witness :
  fix_missing_primary taxon7 = Ok taxon7_healed /\
  primary_rows (names taxon7) "7" = [] /\
  List.length (scientific_rows (names taxon7) "7") = 1 /\
  flag_sum (names taxon7) "7" = Some 0%Z /\
  primary_rows (names taxon7_healed) "7" = map set1 (scientific_rows (names taxon7) "7").
Proof.
  repeat (split; [reflexivity|]).
  exact (proj2 (proj1 (heal_promotes_scientific_name taxon7 taxon7_healed "7"
                         eq_refl eq_refl eq_refl) eq_refl)).
Defined.

(** *** A second run *)












(** *** How many primary names a taxon ends with *)

Lemma primary_rows_update (T : Names.row -> bool) (t : list Names.row) (tid : string) :
  List.length (primary_rows (Sql.update T set1 t) tid) =
  List.length (filter (fun r => has_tax_id tid r && (T r || is_primary_row r)) t).
Proof.
  unfold primary_rows, Sql.update. rewrite filter_map_swap, length_map.
  f_equal. apply filter_ext. intros r. destruct (T r); reflexivity.
Qed.

Lemma where_record_select (i : record) (r : Names.row) :
  where_record i r = true -> select_record r = i.
Proof.
  destruct i as [[[a b] c0] d]. unfold where_record, select_record. intros H.
  repeat (apply andb_true_iff in H; destruct H as [H ?]).
  repeat match goal with
         | E : Sql.eq_text _ _ = true |- _ =>
             apply eq_text_true in E; destruct E as [? [? ?]]
         end.
  congruence.
Qed.

Lemma where_record_self (r : Names.row) :
  text_not_null r -> where_record (select_record r) r = true.
Proof.
  unfold text_not_null, where_record, select_record. intros [H1 [H2 [H3 H4]]].
  destruct (Names.tax_id r), (Names.tax_name r), (Names.unique_name r), (Names.name_class r);
    try congruence.
  cbn. now rewrite !String.eqb_refl.
Qed.

Lemma nodup_filter_le1 {A B : Type} (f : A -> B) (P : A -> bool) (y : B) (l : list A) :
  NoDup (map f l) -> (forall x, In x l -> P x = true -> f x = y) ->
  List.length (filter P l) <= 1.
Proof.
  induction l as [|a l IH]; intros Hnd H; [cbn; lia|].
  cbn [map] in Hnd. inversion Hnd as [|? ? Ha Hl]; subst. cbn [filter].
  destruct (P a) eqn:Ea.
  - assert (E : filter P l = []).
    { destruct (filter P l) as [|b l'] eqn:Ef; [reflexivity|]. exfalso.
      assert (Hb : In b (filter P l)) by (rewrite Ef; now left).
      apply filter_In in Hb. destruct Hb as [Hb Pb]. apply Ha.
      rewrite (H a (or_introl eq_refl) Ea), <- (H b (or_intror Hb) Pb).
      now apply in_map. }
    rewrite E. cbn. lia.
  - apply IH; [assumption|]. intros x Hx. apply H. now right.
Qed.

(** C5, counterexample: taxon 9 arrives with two primary names; its
    flags do not sum to zero, it is not selected, and it leaves the
    healing with two primary names. *)
Lemma two_primaries_survive :
  (forall n, In n (nodes taxon9) ->
             exists r, In r (names taxon9) /\ Names.tax_id r = Some (Nodes.tax_id n)) /\
  fix_missing_primary taxon9 = Ok taxon9 /\
  List.length (primary_rows (names taxon9) "9") = 2.
Proof.
  split; [|split; reflexivity].
  intros n [<-|[]]. eexists. split; [left; reflexivity|reflexivity].
Qed.

(** Rows that agree on [tax_name], [unique_name] and [name_class] are
    updated together. *)
Example identical_rows_both_primary :
  fix_missing_primary taxon8 = Ok taxon8_healed /\
  List.length (primary_rows (names taxon8_healed) "8") = 2.
Proof. split; reflexivity. Qed.

(** C5, amended: on a table with flags 0 and 1 and no NULL text column
    the healing completes and every taxon that has a name row ends with
    at least one primary name; it ends with exactly one when it had at
    most one before and no two of its rows agree on [tax_name],
    [unique_name] and [name_class]. *)
Theorem heal_leaves_a_primary_name (c : con) :
  primary_flags (names c) -> Forall text_not_null (names c) ->
  exists c',
    fix_missing_primary c = Ok c' /\
    forall tid, In (Some tid) (map Names.tax_id (names c)) ->
      1 <= List.length (primary_rows (names c') tid) /\
      (List.length (primary_rows (names c) tid) <= 1 ->
       NoDup (rows_for_taxid (names c) (Some tid)) ->
       List.length (primary_rows (names c') tid) = 1).
Proof.
  intros Hf Hnn.
  destruct (fix_missing_primary_completes c) as [c' Hfix].
  { intros r Hr. now apply (proj1 (Forall_forall _ _) Hnn r Hr). }
  exists c'. split; [assumption|]. intros tid Hin.
  apply heal_each_names in Hfix. destruct Hfix as [_ Hnames].
  set (t := names c) in *. set (ids := missing_primary t) in *.
  rewrite Hnames, primary_rows_update.
  assert (Hflags : forall r, In r t -> Names.tax_id r = Some tid -> primary_flag r).
  { intros r Hr _. now apply (proj1 (Forall_forall _ _) Hf). }
  pose proof (selected_iff t tid Hflags) as Hsel.
  destruct (primary_rows t tid) as [|p ps] eqn:Ep.
  - (* no primary name: the taxon is healed *)
    assert (Hid : In (Some tid) ids) by (apply Hsel; tauto).
    assert (Hcount :
              filter (fun r => has_tax_id tid r &&
                               (existsb (fun k => healed_by t k r) ids || is_primary_row r)) t
              = filter (healed_by t (Some tid)) (filter (has_tax_id tid) t)).
    { rewrite <- filter_and. apply filter_ext_in. intros r Hr.
      destruct (has_tax_id tid r) eqn:Ht; [|reflexivity]. cbn [andb].
      apply has_tax_id_true in Ht.
      assert (E1 : is_primary_row r = false).
      { destruct (is_primary_row r) eqn:E; [|reflexivity]. exfalso.
        assert (Hp : In r (primary_rows t tid)).
        { apply filter_In. split; [assumption|].
          now rewrite (proj2 (has_tax_id_true tid r) Ht), E. }
        rewrite Ep in Hp. contradiction. }
      rewrite E1, orb_false_r. apply eq_true_iff_eq.
      rewrite (touched_iff t ids r tid Ht). tauto. }
    rewrite Hcount. clear Hcount.
    apply in_map_iff in Hin. destruct Hin as [r1 [Hid1 Hr1]].
    destruct (chosen_ok t (Some tid) (rows_for_taxid_nonempty t r1 tid Hr1 Hid1))
      as [[sci i] Ec].
    destruct sci.
    + (* the scientific name *)
      assert (E : filter (healed_by t (Some tid)) (filter (has_tax_id tid) t)
                  = scientific_rows t tid).
      { unfold scientific_rows. rewrite filter_and. apply filter_ext_in.
        intros r Hr. apply filter_In in Hr. destruct Hr as [_ Ht].
        apply has_tax_id_true in Ht. apply (healed_by_scientific t tid i r Ec Ht). }
      rewrite E. apply chosen_spec in Ec. destruct Ec as [_ [Hone _]].
      rewrite scientific_records, length_map in Hone. rewrite Hone. split; [lia|reflexivity].
    + (* the first record *)
      assert (E : forall r, healed_by t (Some tid) r = where_record i r).
      { intros r. unfold healed_by. now rewrite Ec. }
      rewrite (filter_ext _ _ E).
      apply chosen_spec in Ec. destruct Ec as [_ [_ [rest Hrec]]].
      unfold rows_for_taxid in Hrec. fold (has_tax_id tid) in Hrec.
      assert (Hge : 1 <= List.length (filter (where_record i) (filter (has_tax_id tid) t))).
      { destruct (filter (has_tax_id tid) t) as [|r0 l] eqn:El; [discriminate|].
        cbn [map] in Hrec. inversion Hrec as [[Hi Hl]].
        assert (Hr0 : In r0 t).
        { assert (H : In r0 (filter (has_tax_id tid) t)) by (rewrite El; now left).
          now apply filter_In in H. }
        cbn [filter]. rewrite where_record_self; [cbn; lia|].
        now apply (proj1 (Forall_forall _ _) Hnn). }
      split; [assumption|]. intros _ Hnd.
      assert (Hle : List.length (filter (where_record i) (filter (has_tax_id tid) t)) <= 1).
      { apply (nodup_filter_le1 select_record (where_record i) i); [exact Hnd|].
        intros x _ Hx. now apply where_record_select. }
      lia.
  - (* a primary name already: the taxon is not touched *)
    assert (Hnot : ~ In (Some tid) ids).
    { intros H. apply Hsel in H. destruct H as [_ H]. discriminate. }
    assert (Hcount :
              filter (fun r => has_tax_id tid r &&
                               (existsb (fun k => healed_by t k r) ids || is_primary_row r)) t
              = primary_rows t tid).
    { unfold primary_rows. apply filter_ext_in. intros r Hr.
      destruct (has_tax_id tid r) eqn:Ht; [|reflexivity]. cbn [andb].
      apply has_tax_id_true in Ht.
      destruct (existsb (fun k => healed_by t k r) ids) eqn:Ex; [|reflexivity].
      apply (touched_iff t ids r tid Ht) in Ex. tauto. }
    rewrite Hcount, Ep. cbn [List.length]. split; [lia|]. intros; lia.
Qed.

Lemma heal_leaves_a_primary_name_witness :
  primary_flags (names taxon7) /\ Forall text_not_null (names taxon7) /\
  exists c',
    fix_missing_primary taxon7 = Ok c' /\
    forall tid, In (Some tid) (map Names.tax_id (names taxon7)) ->
      1 <= List.length (primary_rows (names c') tid) /\
      (List.length (primary_rows (names taxon7) tid) <= 1 ->
       NoDup (rows_for_taxid (names taxon7) (Some tid)) ->
       List.length (primary_rows (names c') tid) = 1).
Proof.
  assert (Hf : primary_flags (names taxon7)) by (repeat constructor).
  assert (Hn : Forall text_not_null (names taxon7))
    by (repeat constructor; discriminate).
  split; [exact Hf|]. split; [exact Hn|].
  exact (heal_leaves_a_primary_name taxon7 Hf Hn).
Defined.

(** *** The order in which the ids are handled

    [GROUP BY] fixes no order of its groups.  The model lists them in
    order of first occurrence; any other order gives the same result. *)

Lemma rowcount_update (P Q : Names.row -> bool) (t : list Names.row) :
  (forall r, Q (set1 r) = Q r) ->
  Sql.rowcount Q (Sql.update P set1 t) = Sql.rowcount Q t.
Proof.
  intros HQ. unfold Sql.rowcount, Sql.update. rewrite filter_map_swap, length_map.
  f_equal. apply filter_ext. intros r. destruct (P r); [apply HQ|reflexivity].
Qed.

Lemma changed_by_update (P : Names.row -> bool) (t : list Names.row) (k : option string) :
  changed_by (Sql.update P set1 t) k = changed_by t k.
Proof.
  unfold changed_by. rewrite chosen_update.
  destruct (chosen t k) as [[sci i]|]; [|reflexivity].
  rewrite (rowcount_update P (where_record i)) by (intros r; apply where_record_set).
  destruct sci; [|reflexivity].
  rewrite (rowcount_update P (where_class _ _)); reflexivity.
Qed.

(** The loop body in closed form. *)
Lemma heal_tax_id_eq (c : con) (k : option string) :
  heal_tax_id c k =
  match chosen (names c) k with
  | Ok _ => Ok {| nodes := nodes c;
                  names := Sql.update (healed_by (names c) k) set1 (names c);
                  total_changes := total_changes c + changed_by (names c) k |}
  | Raise e => Raise e
  end.
Proof.
  unfold heal_tax_id, healed_by, changed_by, chosen.
  destruct (List.length (filter is_scientific (rows_for_taxid (names c) k)) =? 1).
  - destruct (filter is_scientific (rows_for_taxid (names c) k)) as [|i l]; cbn [next Py.bind];
      [reflexivity|].
    unfold set_primary_where. cbn [nodes names total_changes fst snd andb].
    rewrite (rowcount_update _ (where_record i)) by (intros r; apply where_record_set).
    rewrite update_update by (intros r; apply where_record_set).
    now rewrite Nat.add_assoc.
  - destruct (rows_for_taxid (names c) k) as [|i l]; cbn [first Py.bind]; [reflexivity|].
    reflexivity.
Qed.

Lemma heal_tax_id_swap (c : con) (x y : option string) :
  (c1 <- heal_tax_id c x ;; heal_tax_id c1 y) =
  (c1 <- heal_tax_id c y ;; heal_tax_id c1 x).
Proof.
  rewrite (heal_tax_id_eq c x), (heal_tax_id_eq c y).
  destruct (chosen (names c) x) as [bx|ex] eqn:Ex, (chosen (names c) y) as [by_|ey] eqn:Ey;
    cbn [Py.bind]; rewrite ?heal_tax_id_eq; cbn [nodes names total_changes];
    rewrite ?chosen_update, ?Ex, ?Ey; try reflexivity.
  - rewrite !changed_by_update. f_equal. f_equal; [|lia].
    rewrite !update_update by (intros r; apply healed_by_set).
    apply update_pointwise. intros r. rewrite !healed_by_update. apply orb_comm.
  - apply chosen_raise in Ex, Ey. destruct Ex as [-> _], Ey as [-> _]. reflexivity.
Qed.

Lemma heal_each_perm (ids ids' : list (option string)) (c : con) :
  Permutation ids ids' -> heal_each ids c = heal_each ids' c.
Proof.
  intros H. revert c. induction H as [|x l l' _ IH|x y l|l1 l2 l3 _ IH1 _ IH2]; intros c.
  - reflexivity.
  - cbn [heal_each]. destruct (heal_tax_id c x); cbn [Py.bind]; [apply IH|reflexivity].
  - cbn [heal_each].
    transitivity (c2 <- (c1 <- heal_tax_id c y ;; heal_tax_id c1 x) ;; heal_each l c2).
    + destruct (heal_tax_id c y); reflexivity.
    + rewrite heal_tax_id_swap. destruct (heal_tax_id c x); reflexivity.
  - now rewrite IH1.
Qed.

End Healing.

(* ================================================================= *)
(** * Part III: further properties of the modelled functions *)
(* ================================================================= *)

(** ** [partition]: the chunks rebuild the input *)

Section PartitionMore.

Context {A : Type}.

Lemma partition_full_chunks (n : nat) (it : list A) (size : nat) :
  List.length it <= n ->
  Forall (fun chunk => List.length chunk = size) (removelast (partition it size)).
Proof.
  revert it. induction n as [|n IH]; intros it Hn.
  - destruct it; [|cbn in Hn; lia]. rewrite partition_step.
    rewrite firstn_nil. constructor.
  - rewrite partition_step.
    destruct (firstn size it) as [|x chunk] eqn:Hc; [constructor|].
    destruct size as [|size]; [discriminate|].
    destruct it as [|y it]; [discriminate|].
    assert (Hrest : Forall (fun chunk => List.length chunk = S size)
                           (removelast (partition (skipn (S size) (y :: it)) (S size)))).
    { apply IH. rewrite length_skipn. cbn [List.length] in *. lia. }
    destruct (partition (skipn (S size) (y :: it)) (S size)) as [|c cs] eqn:Ep.
    + constructor.
    + change (removelast ((x :: chunk) :: c :: cs))
        with ((x :: chunk) :: removelast (c :: cs)).
      constructor; [|exact Hrest].
      rewrite <- Hc. apply firstn_length_le.
      destruct (Nat.le_gt_cases (S size) (List.length (y :: it))) as [H|H]; [exact H|].
      rewrite skipn_all2 in Ep by lia. rewrite partition_step in Ep.
      rewrite firstn_nil in Ep. discriminate.
Qed.

End PartitionMore.

(** X1: for a positive chunk size the chunks of [partition], put end to
    end, are the input; every chunk but the last holds exactly [size]
    items; and there are [ceil(len / size)] chunks. *)
Theorem partition_chunks_rebuild (it : list string) (size : nat) :
  1 <= size ->
  concat (partition it size) = it /\
  Forall (fun chunk => List.length chunk = size) (removelast (partition it size)) /\
  List.length (partition it size) = (List.length it + size - 1) / size.
Proof.
  intros Hs. split; [now apply partition_concat|]. split.
  - now apply (partition_full_chunks (List.length it)).
  - now apply partition_length.
Qed.

Lemma partition_chunks_rebuild_witness :
  1 <= 3 /\
  concat (partition ["a"; "b"; "c"; "d"; "e"; "f"; "g"] 3)
  = ["a"; "b"; "c"; "d"; "e"; "f"; "g"].
Proof.
  split; [lia|].
  apply (partition_chunks_rebuild ["a"; "b"; "c"; "d"; "e"; "f"; "g"] 3). lia.
Defined.

(** ** [UNCLASSIFIED_REGEX]: the order of the alternatives *)

Lemma existsb_permutation {A : Type} (f : A -> bool) (l l' : list A) :
  Permutation l l' -> existsb f l = existsb f l'.
Proof.
  intros H. induction H as [|x l l' _ IH|x y l|l1 l2 l3 _ IH1 _ IH2]; cbn [existsb].
  - reflexivity.
  - now rewrite IH.
  - now rewrite !orb_assoc, (orb_comm (f y)).
  - now rewrite IH1.
Qed.

(** X2: whatever order the [frozenset] lists the patterns in, the
    compiled alternation finds a match in the same names. *)
Theorem unclassified_search_any_order (ps : list Re.regex) (s : string) :
  Permutation unclassified_patterns ps ->
  Re.search (Re.alts ps) s = Re.search UNCLASSIFIED_REGEX s.
Proof.
  intros H. unfold Re.search, UNCLASSIFIED_REGEX.
  rewrite !search_from_alts.
  - symmetry. now apply existsb_permutation.
  - discriminate.
  - intros ->. apply Permutation_sym, Permutation_nil in H. discriminate.
Qed.

Lemma unclassified_search_any_order_witness :
  Permutation unclassified_patterns (rev unclassified_patterns) /\
  Re.search (Re.alts (rev unclassified_patterns)) "uncultured Bacillus"
  = Re.search UNCLASSIFIED_REGEX "uncultured Bacillus".
Proof.
  split; [apply Permutation_rev|].
  apply (unclassified_search_any_order (rev unclassified_patterns) "uncultured Bacillus").
  apply Permutation_rev.
Defined.

(** ** [fix_missing_primary]: order, frame and failure *)

(** X3: the result of the healing, an error included, is the same in
    whatever order the selected ids are handled. *)
Theorem fix_missing_primary_any_order (c : con) (tax_ids : list (option string)) :
  Permutation (missing_primary (names c)) tax_ids ->
  heal_each tax_ids c = fix_missing_primary c.
Proof. intros H. unfold fix_missing_primary. symmetry. now apply heal_each_perm. Qed.

Lemma fix_missing_primary_any_order_witness :
  Permutation (missing_primary (names taxa_7_8)) [Some "7"; Some "8"] /\
  heal_each [Some "7"; Some "8"] taxa_7_8 = fix_missing_primary taxa_7_8.
Proof.
  assert (H : Permutation (missing_primary (names taxa_7_8)) [Some "7"; Some "8"]).
  { change (missing_primary (names taxa_7_8)) with [Some "8"; Some "7"]. apply perm_swap. }
  split; [exact H|]. exact (fix_missing_primary_any_order taxa_7_8 _ H).
Defined.

(** X4: a healing that completes leaves [nodes] alone and keeps every
    row of [names] in place, either as it was or with [is_primary] set
    to 1; it sets the flag only in rows of the ids it selected. *)
Theorem fix_missing_primary_frame (c c' : con) :
  fix_missing_primary c = Ok c' ->
  nodes c' = nodes c /\
  List.length (names c') = List.length (names c) /\
  (forall n r, nth_error (names c) n = Some r ->
     nth_error (names c') n = Some r \/
     (nth_error (names c') n = Some (set1 r) /\
      In (Names.tax_id r) (missing_primary (names c)))).
Proof.
  intros H. apply heal_each_names in H. destruct H as [Hnodes Hnames].
  split; [assumption|]. split.
  - rewrite Hnames. unfold Sql.update. apply length_map.
  - intros n r Hn. rewrite Hnames. unfold Sql.update.
    rewrite nth_error_map, Hn. cbn [option_map].
    destruct (existsb _ _) eqn:E; [right|now left]. split; [reflexivity|].
    apply existsb_exists in E. destruct E as [k [Hk Hh]].
    apply healed_by_tax_id, eq_text_true in Hh. destruct Hh as [x [-> ->]].
    exact Hk.
Qed.

Lemma fix_missing_primary_frame_witness :
  fix_missing_primary taxon7 = Ok taxon7_healed /\
  nodes taxon7_healed = nodes taxon7.
Proof.
  split; [reflexivity|].
  exact (proj1 (fix_missing_primary_frame taxon7 taxon7_healed eq_refl)).
Defined.

Lemma orphans_selected (t : list Names.row) :
  primary_flags t ->
  In None (missing_primary t) <->
  orphans t <> [] /\ Forall (fun r => Names.is_primary r = Some 0%Z) (orphans t).
Proof.
  intros Hf. rewrite in_missing_primary.
  assert (Eo : filter (fun r => Sql.same_key (Names.tax_id r) None) t = orphans t).
  { apply filter_ext. intros r. unfold is_orphan. now destruct (Names.tax_id r). }
  rewrite Eo.
  assert (Hin : In None (map Names.tax_id t) <-> orphans t <> []).
  { split.
    - intros H. apply in_map_iff in H. destruct H as [r [Hid Hr]].
      assert (Ho : In r (orphans t)).
      { apply filter_In. split; [assumption|]. unfold is_orphan. now rewrite Hid. }
      intros E. rewrite E in Ho. contradiction.
    - intros H. destruct (orphans t) as [|r l] eqn:E; [congruence|].
      assert (Ho : In r (orphans t)) by (rewrite E; now left).
      apply filter_In in Ho. destruct Ho as [Hr Ho]. apply in_map_iff. exists r.
      split; [|assumption]. unfold is_orphan in Ho.
      now destruct (Names.tax_id r). }
  assert (Hg : Forall primary_flag (orphans t)).
  { apply forall_filter. intros r Hr _. exact (proj1 (Forall_forall _ _) Hf r Hr). }
  rewrite Hin. split; intros [Hne H]; (split; [assumption|]);
    destruct (sum_flags _ Hg Hne) as [z [Ez [_ Hz]]].
  - apply Hz. congruence.
  - rewrite Ez. f_equal. now apply Hz.
Qed.

(** X5: on flags 0 and 1, which keep the sums of the selecting query
    within the 64-bit integers, [fix_missing_primary] fails exactly
    when there are rows with a NULL [tax_id] and all of them have the
    flag 0, and the error is the [IndexError] of [records[0]]; on every
    other such table it returns. *)
Theorem fix_missing_primary_fails_iff (c : con) :
  primary_flags (names c) ->
  (fix_missing_primary c = Raise IndexError <->
   orphans (names c) <> [] /\
   Forall (fun r => Names.is_primary r = Some 0%Z) (orphans (names c))) /\
  (fix_missing_primary c = Raise IndexError \/ exists c', fix_missing_primary c = Ok c').
Proof.
  intros Hf. split.
  - rewrite <- (orphans_selected _ Hf). split.
    + intros H. apply heal_each_raise_inv in H.
      destruct H as [[tid|] [Hin Hr]]; [|exact Hin].
      exfalso. now apply (selected_has_candidates _ _ Hin).
    + intros H. apply (heal_each_raises _ c None H). apply rows_for_taxid_null.
  - destruct (fix_missing_primary c) as [c'|e] eqn:E; [right; eauto|left].
    apply heal_each_raise in E. now subst.
Qed.

Lemma fix_missing_primary_fails_iff_witness :
  primary_flags orphan_names /\
  orphans orphan_names <> [] /\
  fix_missing_primary (mk_con [] orphan_names 0) = Raise IndexError.
Proof.
  assert (Hf : primary_flags (names (mk_con [] orphan_names 0)))
    by (repeat constructor; now left).
  assert (Ho : orphans (names (mk_con [] orphan_names 0)) <> []) by discriminate.
  split; [exact Hf|]. split; [exact Ho|].
  apply (proj1 (fix_missing_primary_fails_iff (mk_con [] orphan_names 0) Hf)).
  split; [exact Ho|]. repeat constructor.
Defined.

(** ** [mark_subtrees] and [update_subtree_validity]: what is written *)

Section Propagation.

Lemma mark_loop_names (fuel : nat) (tax_ids : list string) (v : option Z)
      (l : list string) (c c' : con) (levels : nat) :
  mark_loop fuel tax_ids v l c = Some (c', levels) -> names c' = names c.
Proof.
  revert l c c' levels. induction fuel as [|fuel IH]; intros l c c' levels H.
  - destruct l; [|discriminate]. now inversion H.
  - destruct l as [|a l]; [now inversion H|]. cbn [mark_loop] in H.
    destruct (mark_loop fuel _ _ _ _) as [[c2 lv]|] eqn:E; [|discriminate].
    inversion H; subst. apply IH in E. now rewrite E, names_mark_nodes.
Qed.

Lemma mark_row_nil (v : option Z) (t : list Nodes.row) : map (mark_row v []) t = t.
Proof. unfold mark_row. cbn [existsb]. apply map_id. Qed.

Lemma mark_subtrees_nodes (fuel : nat) (tax_ids : list string) (v : option Z)
      (c c' : con) (levels : nat) :
  mark_subtrees fuel tax_ids v c = Some (c', levels) ->
  names c' = names c /\ nodes c' = map (mark_row v tax_ids) (nodes c).
Proof.
  unfold mark_subtrees. intros H. split; [now apply mark_loop_names in H|].
  apply mark_loop_nodes in H. rewrite H.
  destruct tax_ids; [now rewrite mark_row_nil|]. apply nodes_mark_nodes.
Qed.

End Propagation.

(** X6: a call of [mark_subtrees] that returns has written [is_valid] in
    exactly the rows whose id is among its [tax_ids] argument, however
    many levels the frontier went through; all other rows and the table
    [names] are as before. *)
Theorem mark_subtrees_effect (fuel : nat) (tax_ids : list string) (is_valid : option Z)
        (c c' : con) (levels : nat) :
  mark_subtrees fuel tax_ids is_valid c = Some (c', levels) ->
  names c' = names c /\
  nodes c' = map (fun r => if existsb (String.eqb (Nodes.tax_id r)) tax_ids
                           then Nodes.set_is_valid is_valid r else r) (nodes c).
Proof. apply mark_subtrees_nodes. Qed.

Lemma mark_subtrees_effect_witness :
  mark_subtrees 2 ["3"; "6"] (Some 0%Z) (mk_con two_species [] 0) <> None /\
  forall c' levels,
    mark_subtrees 2 ["3"; "6"] (Some 0%Z) (mk_con two_species [] 0) = Some (c', levels) ->
    names c' = [].
Proof.
  split; [vm_compute; discriminate|]. intros c' levels H.
  exact (proj1 (mark_subtrees_effect 2 ["3"; "6"] (Some 0%Z) _ c' levels H)).
Defined.

Section RootSeed.

Variable root_id : string.

Lemma mark_loop_root (fuel : nat) (tax_ids : list string) (v : option Z)
      (frontier : list string) (c : con) :
  (forall l, In root_id l -> In root_id (child_sql (nodes c) l)) ->
  In root_id frontier ->
  mark_loop fuel tax_ids v frontier c = None.
Proof.
  revert frontier c. induction fuel as [|fuel IH]; intros frontier c Hc Hin.
  - destruct frontier; [contradiction|reflexivity].
  - destruct frontier as [|x frontier]; [contradiction|]. cbn [mark_loop].
    rewrite IH; [reflexivity| |].
    + intros l Hl. rewrite child_sql_mark_nodes. now apply Hc.
    + rewrite in_chunked_child_sql by (unfold chunk_size; lia).
      rewrite child_sql_mark_nodes. now apply Hc.
Qed.

End RootSeed.

(** X7: when the id of a self-parented row is among [tax_ids], the loop
    of [mark_subtrees] never ends: the root is its own child, so it is
    in every frontier, and no amount of fuel gives a result. *)
Theorem mark_subtrees_root_seed_diverges (fuel : nat) (tax_ids : list string)
        (is_valid : option Z) (c : con) (root : Nodes.row) :
  In root (nodes c) -> is_root root = true -> In (Nodes.tax_id root) tax_ids ->
  mark_subtrees fuel tax_ids is_valid c = None.
Proof.
  intros Hin Hroot Hseed. unfold mark_subtrees.
  apply (mark_loop_root (Nodes.tax_id root)); [|assumption].
  intros l Hl. apply in_child_sql. exists root, (Nodes.tax_id root).
  repeat split; try assumption.
  unfold is_root in Hroot. apply eq_text_true in Hroot.
  destruct Hroot as [x [Hp Hx]]. congruence.
Qed.

Lemma mark_subtrees_root_seed_diverges_witness :
  mark_subtrees 1000 ["1"] (Some 0%Z) (mk_con two_species [] 0) = None.
Proof.
  apply (mark_subtrees_root_seed_diverges 1000 ["1"] (Some 0%Z) (mk_con two_species [] 0)
           (node "1" "1" "root" 1)).
  - now left.
  - reflexivity.
  - now left.
Defined.

(** *** The rows of the query and their groups *)

Section Grouping.

Lemma insert_by_valid_perm (x : string * option Z) (l : list (string * option Z)) :
  Permutation (insert_by_valid x l) (x :: l).
Proof.
  induction l as [|y l IH]; [reflexivity|]. cbn [insert_by_valid].
  destruct (valid_le (snd x) (snd y)); [reflexivity|].
  rewrite IH. apply perm_swap.
Qed.

Lemma order_by_valid_perm (l : list (string * option Z)) :
  Permutation (order_by_valid l) l.
Proof.
  unfold order_by_valid. induction l as [|x l IH]; [reflexivity|].
  cbn [fold_right]. rewrite insert_by_valid_perm. now constructor.
Qed.

Lemma in_below_rank_query (t : list Nodes.row) (R : string) (x : string) (v : option Z) :
  In (x, v) (below_rank_query t R) <->
  exists n p, In n t /\ In p t /\ Nodes.tax_id n = x /\
              Nodes.parent_id n = Some (Nodes.tax_id p) /\
              Nodes.rank p = Some R /\ Nodes.is_valid p = v.
Proof.
  unfold below_rank_query. split.
  - intros H. apply (Permutation_in _ (order_by_valid_perm _)) in H.
    apply in_flat_map in H. destruct H as [n [Hn H]].
    apply in_map_iff in H. destruct H as [p [E Hp]]. inversion E; subst.
    apply filter_In in Hp. destruct Hp as [Hp Hc].
    apply andb_true_iff in Hc. destruct Hc as [H1 H2].
    apply eq_text_true in H1, H2.
    destruct H1 as [a [Ha Hb]], H2 as [b [Hr Hb']].
    exists n, p. repeat split; try assumption; congruence.
  - intros [n [p [Hn [Hp [Hx [Hpar [Hr Hv]]]]]]].
    apply (Permutation_in _ (Permutation_sym (order_by_valid_perm _))).
    apply in_flat_map. exists n. split; [assumption|].
    apply in_map_iff. exists p. split; [congruence|].
    apply filter_In. split; [assumption|].
    apply andb_true_iff. split; apply eq_text_true; eauto.
Qed.

Lemma valid_eqb_eq (a b : option Z) : valid_eqb a b = true <-> a = b.
Proof.
  unfold valid_eqb. destruct a as [x|], b as [y|]; split; try discriminate; try reflexivity.
  - intros H. apply Z.eqb_eq in H. now subst.
  - intros H. inversion H. apply Z.eqb_refl.
Qed.

(** The groups, put end to end, are the rows. *)
Lemma groupby_concat (l : list (string * option Z)) :
  concat (map snd (groupby l)) = l.
Proof.
  induction l as [|x l IH]; [reflexivity|]. cbn [groupby].
  destruct (groupby l) as [|[k g] gs]; [now rewrite <- IH|].
  destruct (valid_eqb (snd x) k); cbn [map concat snd app] in *; now rewrite <- IH.
Qed.

(** Every row of a group carries the key of the group. *)
Lemma groupby_keys (l : list (string * option Z)) :
  Forall (fun kg => Forall (fun y => snd y = fst kg) (snd kg)) (groupby l).
Proof.
  induction l as [|x l IH]; [constructor|]. cbn [groupby].
  destruct (groupby l) as [|[k g] gs]; [repeat constructor|].
  inversion IH as [|? ? Hg Hgs]; subst. cbn [fst snd] in Hg.
  destruct (valid_eqb (snd x) k) eqn:E.
  - apply valid_eqb_eq in E. constructor; [|assumption]. cbn [fst snd]. now constructor.
  - constructor; [repeat constructor|]. now constructor.
Qed.

Lemma in_groupby (l : list (string * option Z)) (k : option Z)
      (g : list (string * option Z)) (y : string * option Z) :
  In (k, g) (groupby l) -> In y g -> In y l /\ snd y = k.
Proof.
  intros Hg Hy. split.
  - rewrite <- (groupby_concat l). apply in_concat. exists g. split; [|assumption].
    apply in_map_iff. now exists (k, g).
  - pose proof (proj1 (Forall_forall _ _) (groupby_keys l) (k, g) Hg) as H.
    now apply (proj1 (Forall_forall _ _) H).
Qed.

End Grouping.

(** *** The loop over the groups *)

Section Groups.

Lemma mark_groups_names (fuel : nat) (G : list (option Z * list (string * option Z)))
      (c c' : con) :
  mark_groups fuel G c = Some c' -> names c' = names c.
Proof.
  revert c. induction G as [|[k g] G IH]; intros c H; [now inversion H|].
  cbn [mark_groups] in H.
  destruct (mark_subtrees fuel (map fst g) k c) as [[c1 lv]|] eqn:E; [|discriminate].
  apply IH in H. apply mark_subtrees_nodes in E. destruct E as [E _]. congruence.
Qed.

(** The rows after the loop: each group applied in turn. *)
Lemma mark_groups_nodes (fuel : nat) (G : list (option Z * list (string * option Z)))
      (c c' : con) :
  mark_groups fuel G c = Some c' ->
  nodes c' = map (fun r => fold_left (fun r' kg => mark_row (fst kg) (map fst (snd kg)) r') G r)
                 (nodes c).
Proof.
  revert c. induction G as [|[k g] G IH]; intros c H.
  - inversion H; subst. cbn [fold_left]. symmetry. apply map_id.
  - cbn [mark_groups] in H.
    destruct (mark_subtrees fuel (map fst g) k c) as [[c1 lv]|] eqn:E; [|discriminate].
    apply IH in H. apply mark_subtrees_nodes in E. destruct E as [_ E].
    rewrite H, E, map_map. reflexivity.
Qed.

Lemma mark_row_tax_id (v : option Z) (ids : list string) (r : Nodes.row) :
  Nodes.tax_id (mark_row v ids r) = Nodes.tax_id r.
Proof. unfold mark_row. now destruct (existsb _ ids). Qed.

(** A row whose id occurs in the groups with one flag only ends with
    that flag; a row whose id does not occur is left alone. *)
Lemma fold_mark_row (G : list (option Z * list (string * option Z))) (v : option Z)
      (r0 r : Nodes.row) :
  Nodes.tax_id r0 = Nodes.tax_id r ->
  (forall k g, In (k, g) G -> In (Nodes.tax_id r) (map fst g) -> k = v) ->
  fold_left (fun r' kg => mark_row (fst kg) (map fst (snd kg)) r') G r0 =
  if existsb (fun kg => existsb (String.eqb (Nodes.tax_id r)) (map fst (snd kg))) G
  then Nodes.set_is_valid v r0 else r0.
Proof.
  revert r0. induction G as [|[k g] G IH]; intros r0 Hid HG; [reflexivity|].
  cbn [fold_left existsb fst snd].
  assert (HG' : forall k' g', In (k', g') G -> In (Nodes.tax_id r) (map fst g') -> k' = v).
  { intros k' g' H. apply HG. now right. }
  rewrite IH; [|now rewrite mark_row_tax_id|assumption].
  unfold mark_row. rewrite Hid.
  destruct (existsb (String.eqb (Nodes.tax_id r)) (map fst g)) eqn:E; cbn [orb].
  - apply existsb_eqb_In in E. rewrite (HG k g (or_introl eq_refl) E).
    now destruct (existsb _ G).
  - reflexivity.
Qed.

End Groups.

Section Inheritance.

Variable t : list Nodes.row.
Variable R : string.

Hypothesis unique_ids : NoDup (map Nodes.tax_id t).

Lemma same_id_same_row (a b : Nodes.row) :
  In a t -> In b t -> Nodes.tax_id a = Nodes.tax_id b -> a = b.
Proof.
  intros Ha Hb E. pose proof (find_node_unique t a unique_ids Ha) as H1.
  pose proof (find_node_unique t b unique_ids Hb) as H2. congruence.
Qed.

(** A row listed in a group has a parent of rank [R], whose flag is the
    key of the group. *)
Lemma group_entry (k : option Z) (g : list (string * option Z)) (r : Nodes.row) :
  In (k, g) (groupby (below_rank_query t R)) ->
  In (Nodes.tax_id r) (map fst g) -> In r t ->
  exists p, find_node t (Nodes.tax_id p) = Some p /\
            Nodes.parent_id r = Some (Nodes.tax_id p) /\
            Nodes.rank p = Some R /\ Nodes.is_valid p = k.
Proof.
  intros Hg Hin Hr. apply in_map_iff in Hin. destruct Hin as [[x v] [Hx Hy]].
  cbn [fst] in Hx. subst x.
  destruct (in_groupby _ k g _ Hg Hy) as [HQ Hk]. cbn [snd] in Hk. subst v.
  apply in_below_rank_query in HQ.
  destruct HQ as [n [p [Hn [Hp [Hid [Hpar [Hrank Hv]]]]]]].
  assert (n = r) by now apply same_id_same_row. subst n.
  exists p. repeat split; try assumption. now apply find_node_unique.
Qed.

Lemma inherit_fold (r : Nodes.row) :
  In r t ->
  fold_left (fun r' kg => mark_row (fst kg) (map fst (snd kg)) r')
            (groupby (below_rank_query t R)) r
  = inherit t R r.
Proof.
  intros Hr. set (G := groupby (below_rank_query t R)).
  destruct (existsb (fun kg => existsb (String.eqb (Nodes.tax_id r)) (map fst (snd kg))) G)
    eqn:Ex.
  - pose proof Ex as Ex'. apply existsb_exists in Ex'. destruct Ex' as [[k g] [Hg Hin]].
    cbn [snd] in Hin. apply existsb_eqb_In in Hin.
    destruct (group_entry k g r Hg Hin Hr) as [p [Hf [Hpar [Hrank Hv]]]].
    rewrite (fold_mark_row G k r r eq_refl), Ex.
    + unfold inherit. rewrite Hpar, Hf, Hrank. cbn [Sql.eq_text].
      now rewrite String.eqb_refl, Hv.
    + intros k' g' Hg' Hin'.
      destruct (group_entry k' g' r Hg' Hin' Hr) as [p' [Hf' [Hpar' [_ Hv']]]].
      assert (p' = p) by congruence. congruence.
  - rewrite (fold_mark_row G None r r eq_refl), Ex.
    + unfold inherit.
      destruct (Nodes.parent_id r) as [pid|] eqn:Epar; [|reflexivity].
      destruct (find_node t pid) as [p|] eqn:Ef; [|reflexivity].
      destruct (Sql.eq_text (Nodes.rank p) (Some R)) eqn:Er; [|reflexivity].
      exfalso. apply eq_text_true in Er. destruct Er as [x [Hx1 Hx2]].
      inversion Hx2; subst x.
      destruct (find_node_some t pid p Ef) as [Hp Hid].
      assert (HQ : In (Nodes.tax_id r, Nodes.is_valid p) (below_rank_query t R)).
      { apply in_below_rank_query. exists r, p. repeat split; try assumption.
        congruence. }
      unfold G in Ex. rewrite <- (groupby_concat (below_rank_query t R)) in HQ.
      apply in_concat in HQ. destruct HQ as [g [Hg Hy]].
      apply in_map_iff in Hg. destruct Hg as [[k g'] [E Hg]]. cbn [snd] in E. subst g'.
      assert (Ht : existsb (fun kg => existsb (String.eqb (Nodes.tax_id r))
                                              (map fst (snd kg)))
                           (groupby (below_rank_query t R)) = true).
      { apply existsb_exists. exists (k, g). split; [assumption|]. cbn [snd].
        apply existsb_eqb_In. apply in_map_iff.
        exists (Nodes.tax_id r, Nodes.is_valid p). now split. }
      congruence.
    + intros k g Hg Hin. exfalso.
      assert (Ht : existsb (fun kg => existsb (String.eqb (Nodes.tax_id r))
                                              (map fst (snd kg))) G = true).
      { apply existsb_exists. exists (k, g). split; [assumption|]. cbn [snd].
        now apply existsb_eqb_In. }
      congruence.
Qed.

End Inheritance.

(** X8: on a table with unique ids, a run of [update_subtree_validity]
    that returns has given every node whose parent has rank
    [mark_below_rank] the flag that parent had before the run, and has
    left every other node, and the table [names], as they were. *)
Theorem update_subtree_validity_effect (fuel : nat) (c c' : con) (mark_below_rank : string) :
  NoDup (map Nodes.tax_id (nodes c)) ->
  update_subtree_validity fuel c mark_below_rank = Some c' ->
  names c' = names c /\
  nodes c' = map (inherit (nodes c) mark_below_rank) (nodes c).
Proof.
  intros Hnd H. unfold update_subtree_validity in H. split.
  - now apply mark_groups_names in H.
  - apply mark_groups_nodes in H. rewrite H. apply map_ext_in.
    intros r Hr. now apply inherit_fold.
Qed.

Lemma update_subtree_validity_effect_witness :
  NoDup (map Nodes.tax_id two_species) /\
  exists c',
    update_subtree_validity 3 (mk_con two_species [] 0) "species" = Some c' /\
    nodes c' = map (inherit two_species "species") two_species.
Proof.
  assert (Hnd : NoDup (map Nodes.tax_id (nodes (mk_con two_species [] 0)))).
  { repeat constructor; simpl; intuition discriminate. }
  split; [exact Hnd|].
  destruct (update_subtree_validity 3 (mk_con two_species [] 0) "species") as [c'|] eqn:E;
    [|vm_compute in E; discriminate].
  exists c'. split; [reflexivity|].
  exact (proj2 (update_subtree_validity_effect 3 _ c' "species" Hnd E)).
Defined.

(** *** Whether [update_subtree_validity] returns *)

Section Returns.

Variable t : list Nodes.row.
Variable R : string.

Lemma list_max_le_all (l : list nat) (n : nat) :
  (forall x, In x l -> x <= n) -> list_max l <= n.
Proof. intros H. apply list_max_le. now apply Forall_forall. Qed.

Lemma subtree_depth_le (seeds : list string) : subtree_depth t seeds <= List.length t.
Proof.
  unfold subtree_depth. apply list_max_le_all. intros x Hx.
  apply in_map_iff in Hx. destruct Hx as [r [<- _]].
  apply list_max_le_all. intros y Hy. apply in_map_iff in Hy.
  destruct Hy as [k [<- Hk]]. apply in_seq in Hk.
  destruct (below_seed t seeds k (Nodes.tax_id r)); lia.
Qed.

Hypothesis tree : is_tree t.
Hypothesis root_rank : forall r, In r t -> is_root r = true -> Nodes.rank r <> Some R.

(** The ids that the query lists are nodes other than the root. *)
Lemma query_seeds (k : option Z) (g : list (string * option Z)) :
  In (k, g) (groupby (below_rank_query t R)) -> Forall (seed_of t) (map fst g).
Proof.
  intros Hg. apply Forall_forall. intros x Hx.
  apply in_map_iff in Hx. destruct Hx as [[x' v] [E Hy]]. cbn [fst] in E. subst x'.
  destruct (in_groupby _ k g _ Hg Hy) as [HQ _].
  apply in_below_rank_query in HQ.
  destruct HQ as [n [p [Hn [Hp [Hid [Hpar [Hrank _]]]]]]].
  exists n. repeat split; try assumption.
  destruct (is_root n) eqn:Er; [exfalso|reflexivity].
  pose proof Er as Er'. unfold is_root in Er'. apply eq_text_true in Er'.
  destruct Er' as [y [Hy1 Hy2]].
  assert (E : Nodes.tax_id p = Nodes.tax_id n) by congruence.
  assert (p = n).
  { destruct tree as [Hnd _].
    pose proof (find_node_unique t p Hnd Hp) as H1.
    pose proof (find_node_unique t n Hnd Hn) as H2. congruence. }
  subst p. now apply (root_rank n Hn Er).
Qed.

Lemma mark_groups_terminates (G : list (option Z * list (string * option Z))) (c : con) :
  (forall l, child_sql (nodes c) l = child_sql t l) ->
  (forall k g, In (k, g) G -> Forall (seed_of t) (map fst g)) ->
  exists c', forall fuel, List.length t <= fuel -> mark_groups fuel G c = Some c'.
Proof.
  revert c. induction G as [|[k g] G IH]; intros c Hc HG; [now exists c|].
  pose proof (HG k g (or_introl eq_refl)) as Hseeds.
  destruct (mark_loop_terminates t (map fst g) tree Hseeds
              (subtree_depth t (map fst g)) 0 (map fst g) k (map fst g) c)
    as [c1 [lv [E _]]]; try lia; [exact Hc|now apply at_level_seeds|].
  destruct (IH c1) as [c' Hc'].
  - intros l. pose proof (mark_loop_nodes _ _ _ _ _ _ _ E) as Hn.
    rewrite Hn. destruct (map fst g); [apply Hc|].
    now rewrite child_sql_mark_nodes.
  - intros k' g' H. apply (HG k' g'). now right.
  - exists c'. intros fuel Hf. cbn [mark_groups]. unfold mark_subtrees.
    assert (Hle : subtree_depth t (map fst g) <= fuel)
      by (pose proof (subtree_depth_le (map fst g)); lia).
    rewrite (mark_loop_fuel _ fuel _ _ _ _ _ Hle E). now apply Hc'.
Qed.

End Returns.

(** X9: on a table whose parent pointers form a tree and whose root does
    not have rank [mark_below_rank], [update_subtree_validity] returns:
    one result serves every fuel from the number of nodes on. *)
Theorem update_subtree_validity_returns (c : con) (mark_below_rank : string) :
  is_tree (nodes c) ->
  (forall r, In r (nodes c) -> is_root r = true -> Nodes.rank r <> Some mark_below_rank) ->
  exists c', forall fuel, List.length (nodes c) <= fuel ->
                          update_subtree_validity fuel c mark_below_rank = Some c'.
Proof.
  intros Htree Hroot. unfold update_subtree_validity.
  apply (mark_groups_terminates (nodes c) Htree).
  - reflexivity.
  - intros k g. now apply (query_seeds (nodes c) mark_below_rank Htree Hroot).
Qed.

Lemma update_subtree_validity_returns_witness :
  is_tree two_species /\
  exists c', forall fuel, 6 <= fuel ->
                          update_subtree_validity fuel (mk_con two_species [] 0) "species"
                          = Some c'.
Proof.
  assert (Htree : is_tree (nodes (mk_con two_species [] 0))).
  { repeat split.
    - repeat constructor; simpl; intuition discriminate.
    - repeat constructor; vm_compute; discriminate. }
  split; [exact Htree|].
  apply (update_subtree_validity_returns (mk_con two_species [] 0) "species" Htree).
  intros r Hr Hroot. simpl in Hr.
  repeat (destruct Hr as [<-|Hr]; [try discriminate|]); contradiction.
Defined.

Section NoReturn.

Variable root_id : string.

Lemma mark_groups_root (fuel : nat) (G : list (option Z * list (string * option Z)))
      (c : con) :
  (forall l, In root_id l -> In root_id (child_sql (nodes c) l)) ->
  (exists k g, In (k, g) G /\ In root_id (map fst g)) ->
  mark_groups fuel G c = None.
Proof.
  revert c. induction G as [|[k g] G IH]; intros c Hc [k0 [g0 [Hin Hr]]]; [contradiction|].
  cbn [mark_groups].
  destruct (mark_subtrees fuel (map fst g) k c) as [[c1 lv]|] eqn:E; [|reflexivity].
  destruct Hin as [Heq|Hin].
  - inversion Heq; subst. unfold mark_subtrees in E.
    rewrite (mark_loop_root root_id fuel _ _ _ c Hc Hr) in E. discriminate.
  - apply IH; [|eauto]. intros l Hl.
    apply mark_subtrees_nodes in E. destruct E as [_ E]. rewrite E.
    rewrite child_sql_map; [now apply Hc|].
    intros r. unfold mark_row. now destruct (existsb _ _).
Qed.

End NoReturn.

(** X10: when a self-parented row has rank [mark_below_rank], as the
    root has for [mark_below_rank = 'root'], the root is listed as its
    own child and [update_subtree_validity] never returns, whatever the
    fuel. *)
Theorem update_subtree_validity_root_rank_diverges (fuel : nat) (c : con)
        (mark_below_rank : string) (root : Nodes.row) :
  In root (nodes c) -> is_root root = true -> Nodes.rank root = Some mark_below_rank ->
  update_subtree_validity fuel c mark_below_rank = None.
Proof.
  intros Hin Hroot Hrank. unfold update_subtree_validity.
  assert (Hpar : Nodes.parent_id root = Some (Nodes.tax_id root)).
  { unfold is_root in Hroot. apply eq_text_true in Hroot.
    destruct Hroot as [x [Hp Hx]]. congruence. }
  apply (mark_groups_root (Nodes.tax_id root)).
  - intros l Hl. apply in_child_sql. exists root, (Nodes.tax_id root). auto.
  - assert (HQ : In (Nodes.tax_id root, Nodes.is_valid root)
                    (below_rank_query (nodes c) mark_below_rank)).
    { apply in_below_rank_query. exists root, root. auto 7. }
    rewrite <- (groupby_concat _) in HQ. apply in_concat in HQ.
    destruct HQ as [g [Hg Hy]]. apply in_map_iff in Hg.
    destruct Hg as [[k g'] [E Hg]]. cbn [snd] in E. subst g'.
    exists k, g. split; [assumption|]. apply in_map_iff.
    exists (Nodes.tax_id root, Nodes.is_valid root). now split.
Qed.

Lemma update_subtree_validity_root_rank_diverges_witness :
  update_subtree_validity 1000 (mk_con two_species [] 0) "root" = None.
Proof.
  apply (update_subtree_validity_root_rank_diverges 1000 (mk_con two_species [] 0) "root"
           (node "1" "1" "root" 1)).
  - now left.
  - reflexivity.
  - reflexivity.
Defined.

(** *** After [mark_is_valid] *)

Lemma set_is_valid_same (r : Nodes.row) : Nodes.set_is_valid (Nodes.is_valid r) r = r.
Proof. now destruct r. Qed.

(** X11: run after [mark_is_valid], as in [db_load],
    [update_subtree_validity] changes no flag: every node already
    carries the one value that [mark_is_valid] wrote, so every parent
    hands down the flag its child has. *)
Theorem update_after_mark_is_valid (fuel : nat) (c c' : con) (mark_below_rank : string) :
  update_subtree_validity fuel (mark_is_valid c) mark_below_rank = Some c' ->
  nodes c' = nodes (mark_is_valid c) /\ names c' = names c.
Proof.
  intros H. unfold update_subtree_validity in H. split.
  - pose proof (mark_groups_nodes _ _ _ _ H) as Hn. rewrite Hn.
    rewrite <- (map_id (nodes (mark_is_valid c))) at 2.
    apply map_ext_in. intros r Hr.
    rewrite (fold_mark_row _ (is_classified_subquery (names c)) r r eq_refl).
    + rewrite <- (mark_is_valid_uniform c r Hr), set_is_valid_same.
      now destruct (existsb _ _).
    + intros k g Hg Hin. apply in_map_iff in Hin. destruct Hin as [[x v] [_ Hy]].
      destruct (in_groupby _ k g _ Hg Hy) as [HQ Hk]. cbn [snd] in Hk. subst v.
      apply in_below_rank_query in HQ.
      destruct HQ as [n [p [_ [Hp [_ [_ [_ Hv]]]]]]].
      rewrite <- Hv. now apply mark_is_valid_uniform.
  - now apply mark_groups_names in H.
Qed.

Lemma update_after_mark_is_valid_witness :
  exists c',
    update_subtree_validity 3 (mark_is_valid bacillus_strains) "species" = Some c' /\
    nodes c' = nodes (mark_is_valid bacillus_strains).
Proof.
  destruct (update_subtree_validity 3 (mark_is_valid bacillus_strains) "species")
    as [c'|] eqn:E; [|vm_compute in E; discriminate].
  exists c'. split; [reflexivity|].
  exact (proj1 (update_after_mark_is_valid 3 bacillus_strains c' "species" E)).
Defined.

(** *** One group for each flag *)

Section OneGroupPerFlag.

Lemma valid_le_total (a b : option Z) : valid_le a b = true \/ valid_le b a = true.
Proof.
  destruct a as [x|], b as [y|]; cbn; auto.
  destruct (Z.leb_spec x y); [now left|right]. apply Z.leb_le. lia.
Qed.

Lemma valid_le_trans (a b c : option Z) :
  valid_le a b = true -> valid_le b c = true -> valid_le a c = true.
Proof.
  destruct a as [x|], b as [y|], c as [z|]; cbn; try congruence.
  rewrite !Z.leb_le. lia.
Qed.

Lemma valid_le_antisym (a b : option Z) :
  valid_le a b = true -> valid_le b a = true -> a = b.
Proof.
  destruct a as [x|], b as [y|]; cbn; try congruence.
  rewrite !Z.leb_le. intros. f_equal. lia.
Qed.

Lemma insert_by_valid_sorted (x : string * option Z) (l : list (string * option Z)) :
  StronglySorted row_le l -> StronglySorted row_le (insert_by_valid x l).
Proof.
  induction l as [|y l IH]; intros Hs; [repeat constructor|].
  inversion Hs as [|? ? Hl Hy]; subst. cbn [insert_by_valid].
  destruct (valid_le (snd x) (snd y)) eqn:E.
  - constructor; [assumption|]. constructor; [exact E|].
    apply Forall_forall. intros z Hz.
    pose proof (proj1 (Forall_forall _ _) Hy z Hz) as Hyz.
    unfold row_le in *. now apply (valid_le_trans _ (snd y)).
  - constructor; [now apply IH|].
    apply Forall_forall. intros z Hz.
    apply (Permutation_in _ (insert_by_valid_perm x l)) in Hz.
    destruct Hz as [<-|Hz].
    + unfold row_le. destruct (valid_le_total (snd x) (snd y)); congruence.
    + now apply (proj1 (Forall_forall _ _) Hy).
Qed.

Lemma order_by_valid_sorted (l : list (string * option Z)) :
  StronglySorted row_le (order_by_valid l).
Proof.
  unfold order_by_valid. induction l as [|x l IH]; [constructor|].
  cbn [fold_right]. now apply insert_by_valid_sorted.
Qed.

Lemma groupby_key_in (l : list (string * option Z)) (k : option Z)
      (g : list (string * option Z)) :
  In (k, g) (groupby l) -> exists y, In y l /\ snd y = k.
Proof.
  revert k g. induction l as [|x l IH]; intros k g H; [contradiction|].
  cbn [groupby] in H.
  destruct (groupby l) as [|[k0 g0] gs] eqn:E.
  - destruct H as [H|[]]. inversion H; subst. exists x. split; [now left|reflexivity].
  - destruct (valid_eqb (snd x) k0) eqn:Ek.
    + destruct H as [H|H].
      * inversion H; subst. apply valid_eqb_eq in Ek.
        exists x. split; [now left|assumption].
      * destruct (IH k g (or_intror H)) as [y [Hy Hk]]. exists y. split; [now right|assumption].
    + destruct H as [H|H].
      * inversion H; subst. exists x. split; [now left|reflexivity].
      * destruct (IH k g H) as [y [Hy Hk]]. exists y. split; [now right|assumption].
Qed.

Lemma groupby_sorted_keys (l : list (string * option Z)) :
  StronglySorted row_le l -> StronglySorted key_lt (map fst (groupby l)).
Proof.
  induction l as [|x l IH]; intros Hs; [constructor|].
  inversion Hs as [|? ? Hl Hx]; subst. specialize (IH Hl). cbn [groupby].
  destruct (groupby l) as [|[k g] gs] eqn:E; [repeat constructor|].
  destruct (valid_eqb (snd x) k) eqn:Ek; [exact IH|].
  cbn [map fst] in *. constructor; [exact IH|].
  assert (Hk : valid_le (snd x) k = true).
  { destruct (groupby_key_in l k g) as [y [Hy <-]]; [rewrite E; now left|].
    now apply (proj1 (Forall_forall _ _) Hx). }
  assert (Hne : snd x <> k).
  { intros H. apply valid_eqb_eq in H. congruence. }
  inversion IH as [|? ? Hgs Hkk]; subst.
  constructor; [now split|].
  apply Forall_forall. intros k' Hk'.
  pose proof (proj1 (Forall_forall _ _) Hkk k' Hk') as [Hle Hneq].
  split; [now apply (valid_le_trans _ k)|].
  intros H. subst k'. apply Hneq. now apply valid_le_antisym.
Qed.

Lemma strict_sorted_nodup (l : list (option Z)) : StronglySorted key_lt l -> NoDup l.
Proof.
  induction l as [|a l IH]; intros H; constructor; inversion H as [|? ? Hl Ha]; subst.
  - intros Hin. destruct (proj1 (Forall_forall _ _) Ha a Hin) as [_ Hne]. congruence.
  - now apply IH.
Qed.

End OneGroupPerFlag.

(** X12: the [ORDER BY] makes [groupby] yield one group for each
    distinct flag of the parents, so that [mark_subtrees] is called once
    for each flag value; put end to end, the groups are the rows of the
    query, each row in the group of its own flag. *)
Theorem one_group_per_flag (t : list Nodes.row) (mark_below_rank : string) :
  let grouped := groupby (below_rank_query t mark_below_rank) in
  NoDup (map fst grouped) /\
  concat (map snd grouped) = below_rank_query t mark_below_rank /\
  Forall (fun kg => Forall (fun y => snd y = fst kg) (snd kg)) grouped.
Proof.
  cbv zeta. split; [|split].
  - apply strict_sorted_nodup, groupby_sorted_keys. unfold below_rank_query.
    apply order_by_valid_sorted.
  - apply groupby_concat.
  - apply groupby_keys.
Qed.

(** ** greengenes.py: [_add_space], [find_genus] and the loop of [_clean_species] *)

Section CleanSpecies.

Import Greengenes.

Lemma substring_all (s : string) : String.substring 0 (String.length s) s = s.
Proof. induction s as [|c s IH]; cbn; [reflexivity|]. now rewrite IH. Qed.

Lemma prefix_split (g s : string) :
  String.prefix g s = true ->
  slice_to s (String.length g) = g /\
  s = String.append g (slice_from s (String.length g)).
Proof.
  unfold slice_to, slice_from. revert s.
  induction g as [|a g IH]; intros s Hp.
  - cbn [String.length String.append]. rewrite Nat.sub_0_r, substring_all.
    split; [now destruct s|reflexivity].
  - destruct s as [|b s]; [discriminate|]. cbn [String.prefix] in Hp.
    destruct (ascii_dec a b) as [->|]; [|discriminate].
    destruct (IH s Hp) as [H1 H2]. cbn [String.length String.substring String.append Nat.sub].
    rewrite H1. split; [reflexivity|]. now rewrite <- H2.
Qed.

Lemma prefix_append (g s : string) : String.prefix g (String.append g s) = true.
Proof.
  induction g as [|a g IH]; cbn; [now destruct s|].
  destruct (ascii_dec a a); [assumption|congruence].
Qed.

Lemma get_append_length (g s : string) (c : ascii) :
  String.get (String.length g) (String.append g (String c s)) = Some c.
Proof. induction g as [|a g IH]; cbn; [reflexivity|assumption]. Qed.

(** Putting the space in makes the name one character longer. *)
Lemma join_space_length (s : string) (n : nat) :
  String.length (join2 " " (slice_to s n) (slice_from s n)) = S (String.length s).
Proof.
  unfold join2, slice_to, slice_from. revert n.
  induction s as [|a s IH]; intros n.
  - destruct n; reflexivity.
  - destruct n as [|n].
    + cbn [String.length Nat.sub String.substring String.append].
      now rewrite substring_all.
    + cbn [String.length Nat.sub String.substring String.append]. now rewrite IH.
Qed.

(** The outcome of [_add_space] in terms of the text after the genus. *)
Lemma add_space_shape (species genus r : string) :
  _add_space species genus = Ok r ->
  r = species \/
  exists rest, species = String.append genus rest /\
               r = String.append genus (String " " rest).
Proof.
  unfold _add_space, startswith, getitem.
  destruct (String.prefix genus species) eqn:Hp; [|intros H; inversion H; now left].
  destruct (String.get (String.length genus) species) as [c|]; cbn [Py.bind]; [|discriminate].
  destruct (negb (Ascii.eqb c " ")); intros H; inversion H; [right|now left].
  destruct (prefix_split _ _ Hp) as [Hs1 Hs2].
  exists (slice_from species (String.length genus)). split; [assumption|].
  unfold join2. now rewrite Hs1.
Qed.

End CleanSpecies.

(** X13: [_add_space] is idempotent: applied to its own result with the
    same genus it returns that result.  Where it returns and [species]
    starts with [genus], the result starts with [genus] followed by a
    space; and the result is [species] itself or [species] with one
    space put in after the genus. *)
Theorem add_space_idempotent (species genus r : string) :
  Greengenes._add_space species genus = Ok r ->
  Greengenes._add_space r genus = Ok r /\
  (startswith species genus = true ->
   startswith r genus = true /\ String.get (String.length genus) r = Some " "%char) /\
  (r = species \/
   exists rest, species = String.append genus rest /\
                r = String.append genus (String " " rest)).
Proof.
  intros H. pose proof (add_space_shape _ _ _ H) as Hshape.
  split; [|split; [|exact Hshape]].
  - destruct Hshape as [->|[rest [Hs ->]]].
    + unfold Greengenes._add_space, startswith, getitem in *.
      destruct (String.prefix genus species); [|assumption].
      destruct (String.get (String.length genus) species) as [c|]; cbn [Py.bind] in *;
        [|discriminate].
      destruct (negb (Ascii.eqb c " ")) eqn:E; [|reflexivity].
      inversion H as [Hr]. exfalso.
      pose proof (join_space_length species (String.length genus)) as Hl.
      rewrite Hr in Hl. lia.
    + unfold Greengenes._add_space, startswith, getitem.
      now rewrite prefix_append, get_append_length.
  - intros Hp. unfold Greengenes._add_space, startswith, getitem in *. rewrite Hp in H.
    destruct (String.get (String.length genus) species) as [c|] eqn:Eg; cbn [Py.bind] in H;
      [|discriminate].
    destruct (Ascii.eqb c " ") eqn:E; cbn [negb] in H; inversion H; subst.
    + apply Ascii.eqb_eq in E. subst c. now split.
    + destruct (prefix_split _ _ Hp) as [Hs1 _]. unfold join2. rewrite Hs1.
      split; [apply prefix_append|apply get_append_length].
Qed.

Lemma add_space_idempotent_witness :
  Greengenes._add_space "Bacillussubtilis" "Bacillus" = Ok "Bacillus subtilis" /\
  Greengenes._add_space "Bacillus subtilis" "Bacillus" = Ok "Bacillus subtilis".
Proof.
  split; [reflexivity|].
  exact (proj1 (add_space_idempotent "Bacillussubtilis" "Bacillus" "Bacillus subtilis"
                                     eq_refl)).
Defined.

Section FindGenus.

Import Greengenes.

Lemma in_skipn {A : Type} (n : nat) (l : list A) (x : A) : In x (skipn n l) -> In x l.
Proof.
  intros H. rewrite <- (firstn_skipn n l). apply in_or_app. now right.
Qed.

Lemma takewhile_incl {A : Type} (pred : A -> bool) (l : list A) (x : A) :
  In x (takewhile pred l) -> In x l.
Proof.
  induction l as [|a l IH]; [contradiction|]. cbn [takewhile].
  destruct (pred a); [|contradiction]. intros [<-|H]; [now left|right; auto].
Qed.

Lemma find_genus_some (keys : list string) (tax_name genus : string) :
  find_genus keys tax_name = Ok (Some genus) ->
  In genus keys /\ startswith tax_name genus = true /\ String.ltb genus tax_name = true.
Proof.
  unfold find_genus. destruct (getitem tax_name 0); cbn [Py.bind]; [|discriminate].
  intros H. inversion H as [Hf]. apply find_some in Hf. destruct Hf as [Hin Hp].
  split; [|split; [exact Hp|now apply in_takewhile in Hin]].
  now apply takewhile_incl, in_skipn in Hin.
Qed.

Lemma find_genus_raise (keys : list string) (tax_name : string) (e : exn) :
  find_genus keys tax_name = Raise e <-> tax_name = EmptyString /\ e = IndexError.
Proof.
  unfold find_genus, getitem. destruct tax_name as [|c s]; cbn; split.
  - intros H. inversion H. auto.
  - intros [_ ->]. reflexivity.
  - discriminate.
  - intros [H _]. discriminate.
Qed.

End FindGenus.

(** X14: a genus that [find_genus] returns is one of the keys, a prefix
    of [tax_name], and below [tax_name] in the order of strings, so
    never [tax_name] itself; and [find_genus] fails exactly on the empty
    name, with the [IndexError] of [tax_name[0]]. *)
Theorem find_genus_sound (keys : list string) (tax_name : string) :
  (forall genus, Greengenes.find_genus keys tax_name = Ok (Some genus) ->
                 In genus keys /\ startswith tax_name genus = true /\
                 String.ltb genus tax_name = true /\ genus <> tax_name) /\
  (Greengenes.find_genus keys tax_name = Raise IndexError <-> tax_name = EmptyString).
Proof.
  split.
  - intros genus H. destruct (find_genus_some _ _ _ H) as [H1 [H2 H3]].
    repeat split; try assumption. intros ->. now rewrite ltb_irrefl in H3.
  - rewrite find_genus_raise. tauto.
Qed.

Lemma find_genus_sound_witness :
  Greengenes.find_genus ["Bacillus"; "Clostridium"] "Bacillussubtilis" = Ok (Some "Bacillus") /\
  In "Bacillus" ["Bacillus"; "Clostridium"].
Proof.
  split; [reflexivity|].
  exact (proj1 (proj1 (find_genus_sound ["Bacillus"; "Clostridium"] "Bacillussubtilis")
                      "Bacillus" eq_refl)).
Defined.

Section CleanArgs.

Import Greengenes.

Lemma clean_args_rows (keys : list string) (cursor : list (string * string))
      (args : list (string * string * string)) :
  clean_args keys cursor = Ok args ->
  Forall (fun a => In (snd (fst a), snd a) cursor /\
                   exists genus, In genus keys /\ genus <> EmptyString /\
                                 find_genus keys (snd a) = Ok (Some genus) /\
                                 _add_space (snd a) genus = Ok (fst (fst a)))
         args.
Proof.
  revert args. induction cursor as [|[tax_id tax_name] rest IH]; intros args H.
  - inversion H. constructor.
  - cbn [clean_args] in H.
    destruct (find_genus keys tax_name) as [genus|e] eqn:Eg; cbn [Py.bind] in H;
      [|discriminate].
    assert (Hrest : forall args', clean_args keys rest = Ok args' ->
                                  Forall (fun a => In (snd (fst a), snd a)
                                                      ((tax_id, tax_name) :: rest) /\
                                                   exists genus, In genus keys /\
                                                     genus <> EmptyString /\
                                                     find_genus keys (snd a) = Ok (Some genus) /\
                                                     _add_space (snd a) genus = Ok (fst (fst a)))
                                         args').
    { intros args' H'. apply IH in H'. revert H'. apply Forall_impl.
      intros a [Ha Hg]. split; [now right|assumption]. }
    destruct genus as [[|a g]|]; try now apply Hrest.
    destruct (_add_space tax_name (String a g)) as [new|e] eqn:Ea; cbn [Py.bind] in H;
      [|discriminate].
    destruct (clean_args keys rest) as [args'|e] eqn:Er; cbn [Py.bind] in H; [|discriminate].
    inversion H; subst. constructor; [|now apply Hrest].
    cbn [fst snd]. split; [now left|]. exists (String a g).
    destruct (find_genus_some _ _ _ Eg) as [Hin _]. repeat split; try assumption.
    discriminate.
Qed.

Lemma clean_args_raise (keys : list string) (cursor : list (string * string)) (e : exn) :
  clean_args keys cursor = Raise e ->
  e = IndexError /\ exists tax_id, In (tax_id, EmptyString) cursor.
Proof.
  induction cursor as [|[tax_id tax_name] rest IH]; intros H; [discriminate|].
  cbn [clean_args] in H.
  destruct (find_genus keys tax_name) as [genus|e'] eqn:Eg; cbn [Py.bind] in H.
  - assert (Hrest : clean_args keys rest = Raise e ->
                    e = IndexError /\
                    exists tax_id0, In (tax_id0, EmptyString) ((tax_id, tax_name) :: rest)).
    { intros H'. destruct (IH H') as [He [i Hi]]. split; [assumption|].
      exists i. now right. }
    destruct genus as [[|a g]|]; try now apply Hrest.
    destruct (add_space_total_cases tax_name (String a g) (find_genus_differs _ _ _ Eg))
      as [E|E]; rewrite E in H; cbn [Py.bind] in H;
      (destruct (clean_args keys rest) as [args'|e''] eqn:Er; cbn [Py.bind] in H;
       [discriminate|inversion H; subst; now apply Hrest]).
  - inversion H; subst. apply find_genus_raise in Eg. destruct Eg as [-> ->].
    split; [reflexivity|]. exists tax_id. now left.
Qed.

End CleanArgs.

(** X15: the loop of [_clean_species] that builds the arguments of the
    [UPDATE] fails only on a species with an empty name, never in
    [_add_space]; when it returns, every argument
    [(new_tax_name, tax_id, tax_name)] comes from a row of the cursor
    and [new_tax_name] is what [_add_space] makes of [tax_name] and a
    non-empty genus among the keys. *)
Theorem clean_args_sound (keys : list string) (cursor : list (string * string)) :
  (forall e, Greengenes.clean_args keys cursor = Raise e ->
             e = IndexError /\ exists tax_id, In (tax_id, EmptyString) cursor) /\
  ((forall row, In row cursor -> snd row <> EmptyString) ->
   exists args, Greengenes.clean_args keys cursor = Ok args) /\
  (forall args, Greengenes.clean_args keys cursor = Ok args ->
     Forall (fun a => In (snd (fst a), snd a) cursor /\
                      exists genus, In genus keys /\ genus <> EmptyString /\
                                    Greengenes._add_space (snd a) genus = Ok (fst (fst a)))
            args).
Proof.
  split; [|split].
  - intros e. apply clean_args_raise.
  - intros H. destruct (Greengenes.clean_args keys cursor) as [args|e] eqn:E; [eauto|].
    apply clean_args_raise in E. destruct E as [_ [i Hi]].
    exfalso. now apply (H _ Hi).
  - intros args H. apply clean_args_rows in H. revert H. apply Forall_impl.
    intros a [Ha [genus [H1 [H2 [_ H3]]]]]. split; [assumption|]. eauto.
Qed.

Lemma clean_args_sound_witness :
  (forall row, In row [("1", "Escherichiacoli"); ("2", "Bacillus subtilis")] ->
               snd row <> EmptyString) /\
  exists args,
    Greengenes.clean_args ["Bacillus"; "Escherichia"]
                          [("1", "Escherichiacoli"); ("2", "Bacillus subtilis")] = Ok args.
Proof.
  assert (H : forall row, In row [("1", "Escherichiacoli"); ("2", "Bacillus subtilis")] ->
                          snd row <> EmptyString).
  { intros row [<-|[<-|[]]]; discriminate. }
  split; [exact H|].
  exact (proj1 (proj2 (clean_args_sound ["Bacillus"; "Escherichia"] _)) H).
Defined.

(** ** [read_names] followed by [fix_missing_primary] *)

Section LoadNames.

(** The primary rows of a taxon after the healing. *)
Lemma primary_rows_after (c c' : con) (tid : string) :
  fix_missing_primary c = Ok c' ->
  (forall r, In r (names c) -> Names.tax_id r = Some tid -> primary_flag r) ->
  primary_rows (names c') tid =
  match primary_rows (names c) tid with
  | [] => map set1 (filter (fun r => has_tax_id tid r && healed_by (names c) (Some tid) r)
                           (names c))
  | _ :: _ => primary_rows (names c) tid
  end.
Proof.
  intros Hfix Hflags. apply heal_each_names in Hfix. destruct Hfix as [_ Hnames].
  set (t := names c) in *. rewrite Hnames.
  pose proof (selected_iff t tid Hflags) as Hsel.
  destruct (primary_rows t tid) as [|p ps] eqn:Ep.
  - unfold primary_rows, Sql.update. apply filter_map_cond.
    + intros r Hr. destruct (has_tax_id tid r) eqn:Ht.
      * apply has_tax_id_true in Ht.
        assert (Hid : In (Some tid) (missing_primary t)).
        { apply Hsel. split; [|reflexivity]. apply in_map_iff. eauto. }
        assert (E : existsb (fun k => healed_by t k r) (missing_primary t)
                    = healed_by t (Some tid) r).
        { apply eq_true_iff_eq. rewrite (touched_iff t _ r tid Ht). tauto. }
        rewrite E. destruct (healed_by t (Some tid) r).
        -- assert (E1 : has_tax_id tid (set1 r) = true) by now apply has_tax_id_true.
           now rewrite E1.
        -- rewrite (proj2 (has_tax_id_true tid r) Ht). cbn [andb].
           destruct (is_primary_row r) eqn:Ei; [|reflexivity].
           assert (Hin : In r (primary_rows t tid)).
           { apply filter_In. split; [assumption|].
             now rewrite (proj2 (has_tax_id_true tid r) Ht), Ei. }
           rewrite Ep in Hin. contradiction.
      * cbn [andb].
        assert (H : forall r', Names.tax_id r' = Names.tax_id r -> has_tax_id tid r' = false).
        { intros r' E. unfold has_tax_id in *. now rewrite E. }
        destruct (existsb _ _); rewrite H; reflexivity.
    + intros r Hr Hq. apply andb_true_iff in Hq. destruct Hq as [Ht Hh].
      apply has_tax_id_true in Ht.
      assert (Hid : In (Some tid) (missing_primary t)).
      { apply Hsel. split; [|reflexivity]. apply in_map_iff. eauto. }
      assert (E : existsb (fun k => healed_by t k r) (missing_primary t) = true).
      { apply (touched_iff t _ r tid Ht). tauto. }
      now rewrite E.
  - rewrite <- Ep. unfold primary_rows, Sql.update.
    rewrite <- (map_id (filter _ t)). apply filter_map_cond.
    + intros r Hr. destruct (has_tax_id tid r) eqn:Ht.
      * apply has_tax_id_true in Ht.
        destruct (existsb (fun k => healed_by t k r) (missing_primary t)) eqn:Ex.
        -- apply (touched_iff t _ r tid Ht) in Ex. destruct Ex as [Hid _].
           apply Hsel in Hid. destruct Hid as [_ Hid]. discriminate Hid.
        -- now rewrite (proj2 (has_tax_id_true tid r) Ht).
      * cbn [andb].
        assert (H : forall r', Names.tax_id r' = Names.tax_id r -> has_tax_id tid r' = false).
        { intros r' E. unfold has_tax_id in *. now rewrite E. }
        destruct (existsb _ _); rewrite H; reflexivity.
    + intros r Hr Hq. apply andb_true_iff in Hq. destruct Hq as [Ht _].
      apply has_tax_id_true in Ht.
      destruct (existsb (fun k => healed_by t k r) (missing_primary t)) eqn:Ex;
        [|reflexivity].
      apply (touched_iff t _ r tid Ht) in Ex. destruct Ex as [Hid _].
      apply Hsel in Hid. destruct Hid as [_ Hid]. discriminate Hid.
Qed.

(** [read_names] marks as primary rows of class ['scientific name']
    only. *)
Lemma read_names_primary_scientific (rows : list Dmp.name) (re : option Re.regex)
      (r : Names.row) :
  In r (read_names rows re) -> is_primary_row r = true -> is_scientific_row r = true.
Proof.
  unfold read_names. intros H. apply in_map_iff in H. destruct H as [row [<- _]].
  unfold is_primary_row, is_scientific_row, _is_primary.
  cbn [Names.is_primary Names.name_class Sql.eq_text].
  destruct (String.eqb (Dmp.name_class row) scientific_name); [reflexivity|].
  cbn. discriminate.
Qed.

Lemma set1_primary (r : Names.row) : is_primary_row r = true -> set1 r = r.
Proof.
  unfold is_primary_row. destruct r as [a b c0 d p e]. cbn.
  destruct p as [z|]; [|discriminate]. intros H. apply valid_eqb_eq in H.
  now inversion H.
Qed.

End LoadNames.

(** X16: the healing of names just read from [names.dmp] completes, and
    afterwards every taxon of the file has a primary name; a taxon with
    exactly one line of class ['scientific name'] has that line, and no
    other, as its primary name. *)
Theorem load_names_primary (rows : list Dmp.name) (re : option Re.regex) (c : con) :
  names c = read_names rows re ->
  exists c',
    fix_missing_primary c = Ok c' /\
    (forall tid, In tid (map Dmp.tax_id rows) -> primary_rows (names c') tid <> []) /\
    (forall tid, List.length (scientific_rows (names c) tid) = 1 ->
                 primary_rows (names c') tid = map set1 (scientific_rows (names c) tid)).
Proof.
  intros Hread.
  assert (Hf : primary_flags (names c)) by (rewrite Hread; apply read_names_flags).
  assert (Hnn : Forall text_not_null (names c)) by (rewrite Hread; apply read_names_not_null).
  destruct (fix_missing_primary_completes c) as [c' Hfix].
  { intros r Hr. now apply (proj1 (Forall_forall _ _) Hnn r Hr). }
  exists c'. split; [assumption|].
  assert (Hflags : forall tid r, In r (names c) -> Names.tax_id r = Some tid -> primary_flag r).
  { intros tid r Hr _. now apply (proj1 (Forall_forall _ _) Hf). }
  split.
  - intros tid Hin.
    assert (Hrow : exists r0, In r0 (names c) /\ Names.tax_id r0 = Some tid).
    { rewrite Hread. unfold read_names. apply in_map_iff in Hin.
      destruct Hin as [row [<- Hrow]]. eexists. split; [apply in_map; exact Hrow|reflexivity]. }
    destruct Hrow as [r0 [Hr0 Hid0]].
    rewrite (primary_rows_after c c' tid Hfix (Hflags tid)).
    destruct (primary_rows (names c) tid) eqn:Ep; [|discriminate].
    destruct (chosen_ok (names c) (Some tid) (rows_for_taxid_nonempty _ r0 tid Hr0 Hid0))
      as [[sci i] Ec].
    pose proof Ec as Ec'. apply chosen_spec in Ec'. destruct Ec' as [Hi _].
    apply in_rows_for_taxid in Hi. destruct Hi as [r1 [Hr1 [Hsel Hk]]].
    assert (Hin1 : In r1 (filter (fun r => has_tax_id tid r &&
                                            healed_by (names c) (Some tid) r) (names c))).
    { apply filter_In. split; [assumption|]. apply andb_true_iff. split; [exact Hk|].
      unfold healed_by. rewrite Ec, <- Hsel.
      rewrite where_record_self; [apply orb_true_r|].
      now apply (proj1 (Forall_forall _ _) Hnn). }
    intros E. apply map_eq_nil in E. rewrite E in Hin1. contradiction.
  - intros tid Hone.
    rewrite (primary_rows_after c c' tid Hfix (Hflags tid)).
    destruct (primary_rows (names c) tid) as [|p ps] eqn:Ep.
    + destruct (scientific_rows (names c) tid) as [|s0 [|s1 l]] eqn:Es; try discriminate.
      assert (Hs0 : In s0 (scientific_rows (names c) tid)) by (rewrite Es; now left).
      apply filter_In in Hs0. destruct Hs0 as [Hs0 Hq].
      apply andb_true_iff in Hq. destruct Hq as [Ht0 _]. apply has_tax_id_true in Ht0.
      destruct (chosen_ok (names c) (Some tid) (rows_for_taxid_nonempty _ s0 tid Hs0 Ht0))
        as [[sci i] Ec].
      destruct sci.
      * f_equal. rewrite <- Es. unfold scientific_rows. apply filter_ext_in.
        intros r Hr. destruct (has_tax_id tid r) eqn:Ht; [|reflexivity]. cbn [andb].
        apply has_tax_id_true in Ht. apply (healed_by_scientific _ tid i r Ec Ht).
      * apply chosen_spec in Ec. destruct Ec as [_ [Hne _]].
        rewrite scientific_records, length_map, Es in Hne. contradiction.
    + assert (E : primary_rows (names c) tid
                  = filter is_primary_row (scientific_rows (names c) tid)).
      { unfold primary_rows, scientific_rows. rewrite <- filter_and.
        apply filter_ext_in. intros r Hr. destruct (has_tax_id tid r); [|reflexivity].
        cbn [andb]. destruct (is_primary_row r) eqn:Ei; [|now rewrite andb_false_r].
        rewrite Hread in Hr. now rewrite (read_names_primary_scientific _ _ _ Hr Ei). }
      rewrite <- Ep, E.
      destruct (scientific_rows (names c) tid) as [|s0 [|s1 l]] eqn:Es; try discriminate.
      rewrite E in Ep. cbn [filter] in *.
      destruct (is_primary_row s0) eqn:Ei; [|discriminate].
      cbn [map]. now rewrite (set1_primary s0 Ei).
Qed.

Lemma load_names_primary_witness :
  exists c',
    fix_missing_primary bacillus_db = Ok c' /\
    (forall tid, In tid (map Dmp.tax_id bacillus_names) -> primary_rows (names c') tid <> []).
Proof.
  destruct (load_names_primary bacillus_names (Some UNCLASSIFIED_REGEX) bacillus_db eq_refl)
    as [c' [H1 [H2 _]]].
  exists c'. split; assumption.
Defined.

(** ** ncbi.py: [read_nodes] *)

Section ReadNodes.

Lemma list_ascii_append (a b : string) :
  list_ascii_of_string (String.append a b) = list_ascii_of_string a ++ list_ascii_of_string b.
Proof. induction a as [|c a IH]; cbn; [reflexivity|]. now rewrite IH. Qed.

Lemma whitespace_free_append (a b : string) :
  whitespace_free a -> whitespace_free b -> whitespace_free (String.append a b).
Proof.
  unfold whitespace_free. rewrite list_ascii_append. intros Ha Hb.
  apply Forall_app. now split.
Qed.

Lemma split_from_words (cur s : string) :
  whitespace_free cur -> Forall whitespace_free (PyStr.split_from cur s).
Proof.
  revert cur. induction s as [|c s IH]; intros cur Hcur; cbn [PyStr.split_from].
  - destruct cur; [constructor|]. constructor; [assumption|constructor].
  - destruct (PyStr.is_space c) eqn:Ec.
    + destruct cur; [apply IH; constructor|].
      constructor; [assumption|]. apply IH. constructor.
    + apply IH. apply whitespace_free_append; [assumption|].
      unfold whitespace_free. cbn. now repeat constructor.
Qed.

Lemma concat_words (l : list string) :
  Forall whitespace_free l -> whitespace_free (String.concat "_" l).
Proof.
  induction l as [|x l IH]; intros H; [constructor|].
  inversion H as [|? ? Hx Hl]; subst. cbn [String.concat].
  destruct l as [|y l]; [assumption|].
  apply whitespace_free_append; [assumption|].
  apply whitespace_free_append; [|now apply IH].
  unfold whitespace_free. cbn. now repeat constructor.
Qed.

(** A rank written by [read_nodes] holds no whitespace. *)
Lemma underscored_free (s : string) : whitespace_free (underscored s).
Proof. unfold underscored, PyStr.split. apply concat_words, split_from_words. constructor. Qed.

Lemma setitem_ok {A : Type} (row row' : list A) (i : nat) (v : A) :
  setitem row i v = Ok row' ->
  i < List.length row /\ row' = firstn i row ++ v :: skipn (S i) row.
Proof.
  unfold setitem. destruct (i <? List.length row) eqn:E; [|discriminate].
  apply Nat.ltb_lt in E. intros H. inversion H. auto.
Qed.

Lemma nth_error_firstn_lt {A : Type} (n i : nat) (l : list A) :
  i < n -> nth_error (firstn n l) i = nth_error l i.
Proof. intros H. rewrite nth_error_firstn. apply Nat.ltb_lt in H. now rewrite H. Qed.

Lemma setitem_get {A : Type} (row row' : list A) (i j : nat) (v : A) :
  setitem row i v = Ok row' ->
  nth_error row' j = if j =? i then Some v else nth_error row j.
Proof.
  intros H. apply setitem_ok in H. destruct H as [Hi ->].
  assert (Hl : List.length (firstn i row) = i) by (apply firstn_length_le; lia).
  destruct (Nat.eqb_spec j i) as [->|Hne].
  - rewrite nth_error_app2 by lia. now rewrite Hl, Nat.sub_diag.
  - destruct (Nat.lt_ge_cases j i) as [Hlt|Hge].
    + rewrite nth_error_app1 by lia. now apply nth_error_firstn_lt.
    + rewrite nth_error_app2 by lia. rewrite Hl.
      destruct (j - i) as [|k] eqn:Ek; [lia|]. cbn [nth_error].
      rewrite nth_error_skipn. f_equal. lia.
Qed.

Lemma setitem_length {A : Type} (row row' : list A) (i : nat) (v : A) :
  setitem row i v = Ok row' -> List.length row' = List.length row.
Proof.
  intros H. apply setitem_ok in H. destruct H as [Hi ->].
  rewrite length_app. cbn [List.length]. rewrite length_firstn, length_skipn. lia.
Qed.

Lemma setitem_some {A : Type} (row : list A) (i : nat) (v : A) :
  i < List.length row -> exists row', setitem row i v = Ok row'.
Proof.
  intros H. unfold setitem. apply Nat.ltb_lt in H. rewrite H. eauto.
Qed.

(** What the loop yields, row by row. *)
Lemma read_nodes_loop_rows (rows : list (list string)) (src : Z) (n : nat)
      (fields : list string) (src' : Z) :
  nth_error (fst (read_nodes_loop rows src)) n = Some (fields, src') ->
  exists row r,
    nth_error rows n = Some row /\ nth_error row rank_index = Some r /\
    src' = src /\
    nth_error fields rank_index = Some (underscored r) /\
    nth_error fields 0 = nth_error row 0 /\ nth_error fields 1 = nth_error row 1 /\
    List.length fields = Nat.min ncol (List.length row).
Proof.
  revert n fields src'. induction rows as [|row rest IH]; intros n fields src' H;
    [now destruct n|].
  cbn [read_nodes_loop] in H.
  destruct (nth_error row rank_index) as [r|] eqn:Er; [|now destruct n].
  destruct (setitem row rank_index (underscored r)) as [row'|e] eqn:Es; [|now destruct n].
  destruct (read_nodes_loop rest src) as [ys e] eqn:El. cbn [fst] in *.
  destruct n as [|n].
  - cbn [nth_error] in H.
    assert (Hf : (firstn ncol row', src) = (fields, src')) by congruence.
    apply pair_equal_spec in Hf. destruct Hf as [<- <-]. exists row, r.
    repeat split; try assumption; try reflexivity.
    + rewrite nth_error_firstn_lt by (unfold rank_index, ncol; lia).
      now rewrite (setitem_get _ _ _ rank_index _ Es), Nat.eqb_refl.
    + rewrite nth_error_firstn_lt by (unfold ncol; lia).
      now rewrite (setitem_get _ _ _ 0 _ Es).
    + rewrite nth_error_firstn_lt by (unfold ncol; lia).
      now rewrite (setitem_get _ _ _ 1 _ Es).
    + now rewrite length_firstn, (setitem_length _ _ _ _ Es).
  - cbn [nth_error] in H. destruct (IH n fields src' H) as [row0 [r0 Hrow]].
    exists row0, r0. exact Hrow.
Qed.

(** When the loop fails and how many rows it yields before. *)
Lemma read_nodes_loop_failure (rows : list (list string)) (src : Z) :
  let enough := fun row : list string => rank_index <? List.length row in
  List.length (fst (read_nodes_loop rows src)) = List.length (Greengenes.takewhile enough rows) /\
  snd (read_nodes_loop rows src) = if forallb enough rows then None else Some IndexError.
Proof.
  cbv zeta. induction rows as [|row rest IH]; [split; reflexivity|].
  cbn [read_nodes_loop Greengenes.takewhile forallb].
  destruct (nth_error row rank_index) as [r|] eqn:Er.
  - assert (Hlt : rank_index < List.length row).
    { apply nth_error_Some. congruence. }
    destruct (setitem_some row rank_index (underscored r) Hlt) as [row' ->].
    apply Nat.ltb_lt in Hlt. rewrite Hlt. cbn [andb].
    destruct (read_nodes_loop rest src) as [ys e]. cbn [fst snd List.length] in *.
    destruct IH as [IH1 IH2]. split; [now rewrite IH1|assumption].
  - apply nth_error_None in Er. apply Nat.ltb_ge in Er. rewrite Er. split; reflexivity.
Qed.

End ReadNodes.

(** X17: every row that [read_nodes] yields comes from the line at the
    same position: it keeps the [tax_id] and [parent_id] of the line,
    has at most five fields followed by the source id, and its rank
    holds no whitespace.  The rank is written as ['_'.join(x.split())],
    the words of [x] with underscores between them, where [x] is
    [root_name] for the first row, so that ['my root'] gives
    ['my_root'], and the rank of its line for any later row. *)
Theorem read_nodes_rows (rows : list (list string)) (root_name : string) (src : Z)
        (n : nat) (fields : list string) (src' : Z) :
  nth_error (fst (read_nodes rows root_name src)) n = Some (fields, src') ->
  exists row rank,
    nth_error rows n = Some row /\
    nth_error fields 0 = nth_error row 0 /\ nth_error fields 1 = nth_error row 1 /\
    List.length fields = Nat.min 5 (List.length row) /\ src' = src /\
    nth_error fields 2 = Some rank /\ whitespace_free rank /\
    (n = 0 -> rank = underscored root_name) /\
    (n <> 0 -> exists r, nth_error row 2 = Some r /\ rank = underscored r).
Proof.
  destruct rows as [|row0 rest]; [now destruct n|]. cbn [read_nodes].
  destruct (setitem row0 rank_index root_name) as [row0'|e] eqn:Es; [|now destruct n].
  intros H. apply read_nodes_loop_rows in H.
  destruct H as [row [r [Hrow [Hr [Hsrc [Hrank [H0 [H1 Hlen]]]]]]]].
  destruct n as [|n].
  - cbn [nth_error] in Hrow. inversion Hrow; subst row. exists row0, (underscored r).
    rewrite (setitem_get _ _ _ 0 _ Es) in H0. rewrite (setitem_get _ _ _ 1 _ Es) in H1.
    rewrite (setitem_length _ _ _ _ Es) in Hlen.
    rewrite (setitem_get _ _ _ rank_index _ Es), Nat.eqb_refl in Hr. inversion Hr; subst r.
    repeat split; try assumption; try reflexivity; try apply underscored_free.
    intros Hn. congruence.
  - cbn [nth_error] in Hrow. exists row, (underscored r).
    repeat split; try assumption; try apply underscored_free; try discriminate.
    intros _. eauto.
Qed.

Lemma read_nodes_rows_witness :
  nth_error (fst (read_nodes nodes_dmp "root" 1)) 1
  = Some (["2"; "1"; "species_group"; "XX"; "0"], 1%Z) /\
  exists row rank,
    nth_error nodes_dmp 1 = Some row /\
    nth_error ["2"; "1"; "species_group"; "XX"; "0"] 2 = Some rank /\ whitespace_free rank.
Proof.
  split; [reflexivity|].
  destruct (read_nodes_rows nodes_dmp "root" 1 1 ["2"; "1"; "species_group"; "XX"; "0"] 1%Z
                            eq_refl)
    as [row [rank [H1 [_ [_ [_ [_ [H2 [H3 _]]]]]]]]].
  exists row, rank. auto.
Defined.

(** X18: [read_nodes] fails, with [IndexError], exactly when a line has
    fewer than three fields, so no rank; it has then yielded one row
    for each line before the first such line, and otherwise one row for
    each line.  On no line at all it yields nothing and does not
    fail. *)
Theorem read_nodes_failure (rows : list (list string)) (root_name : string) (src : Z) :
  let enough := fun row : list string => 2 <? List.length row in
  List.length (fst (read_nodes rows root_name src))
  = List.length (Greengenes.takewhile enough rows) /\
  snd (read_nodes rows root_name src) = if forallb enough rows then None else Some IndexError.
Proof.
  cbv zeta. destruct rows as [|row0 rest]; [split; reflexivity|]. cbn [read_nodes].
  unfold setitem. cbn [Greengenes.takewhile forallb].
  change rank_index with 2.
  destruct (2 <? List.length row0) eqn:E; [|split; reflexivity].
  pose proof (read_nodes_loop_failure
                ((firstn 2 row0 ++ root_name :: skipn 3 row0) :: rest) src) as H.
  cbv zeta in H. cbn [Greengenes.takewhile forallb] in H. change rank_index with 2 in H.
  assert (El : List.length (firstn 2 row0 ++ root_name :: skipn 3 row0) = List.length row0).
  { apply Nat.ltb_lt in E. rewrite length_app. cbn [List.length].
    rewrite length_firstn, length_skipn. lia. }
  rewrite El, E in H. exact H.
Qed.

(** ** greengenes.py: [find_genus] finds a genus that is there *)

Section StringOrder.

Lemma ascii_compare_refl (a : ascii) : Ascii.compare a a = Eq.
Proof. unfold Ascii.compare. apply N.compare_refl. Qed.

Lemma ascii_compare_lt_trans (a b c : ascii) :
  Ascii.compare a b = Lt -> Ascii.compare b c = Lt -> Ascii.compare a c = Lt.
Proof. unfold Ascii.compare. rewrite !N.compare_lt_iff. lia. Qed.

Lemma compare_lt_trans (a b c : string) :
  String.compare a b = Lt -> String.compare b c = Lt -> String.compare a c = Lt.
Proof.
  revert b c. induction a as [|x a IH]; intros [|y b] [|z c]; cbn; try congruence.
  destruct (Ascii.compare x y) eqn:Exy; try discriminate;
    destruct (Ascii.compare y z) eqn:Eyz; try discriminate.
  - apply Ascii.compare_eq_iff in Exy, Eyz. subst. rewrite ascii_compare_refl. apply IH.
  - apply Ascii.compare_eq_iff in Exy. subst. now rewrite Eyz.
  - apply Ascii.compare_eq_iff in Eyz. subst. now rewrite Exy.
  - now rewrite (ascii_compare_lt_trans _ _ _ Exy Eyz).
Qed.

Lemma leb_ltb_trans (a b c : string) :
  String.leb a b = true -> String.ltb b c = true -> String.ltb a c = true.
Proof.
  unfold String.leb, String.ltb.
  destruct (String.compare a b) eqn:Eab; try discriminate; intros _;
    destruct (String.compare b c) eqn:Ebc; try discriminate; intros _.
  - apply String.compare_eq_iff in Eab. subst. now rewrite Ebc.
  - now rewrite (compare_lt_trans _ _ _ Eab Ebc).
Qed.

Lemma leb_refl (a : string) : String.leb a a = true.
Proof.
  unfold String.leb. pose proof (String.compare_antisym a a) as H.
  destruct (String.compare a a); try reflexivity. discriminate.
Qed.

(** A proper prefix comes first. *)
Lemma prefix_ltb (g s : string) :
  String.prefix g s = true -> g <> s -> String.ltb g s = true.
Proof.
  unfold String.ltb. revert s. induction g as [|a g IH]; intros [|b s] Hp Hne;
    try reflexivity; try congruence; try discriminate.
  cbn [String.prefix] in Hp. destruct (ascii_dec a b) as [->|]; [|discriminate].
  cbn [String.compare]. rewrite ascii_compare_refl. apply IH; congruence.
Qed.

(** A name is not below its own first character. *)
Lemma first_char_not_above (c : ascii) (rest : string) :
  String.ltb (String c rest) (String c EmptyString) = false.
Proof.
  unfold String.ltb. cbn [String.compare]. rewrite ascii_compare_refl.
  now destruct rest.
Qed.

End StringOrder.

Section Bisect.

Import Greengenes.

Variable keys : list string.
Hypothesis sorted : ascending keys.

Lemma sorted_skipn (n : nat) (l : list string) : ascending l -> ascending (skipn n l).
Proof.
  unfold ascending. revert l. induction n as [|n IH]; intros l H; [assumption|].
  destruct l as [|a l]; [assumption|]. inversion H; subst. now apply IH.
Qed.

Lemma sorted_nth (l : list string) (i j : nat) (a b : string) :
  ascending l -> i <= j -> nth_error l i = Some a -> nth_error l j = Some b ->
  String.leb a b = true.
Proof.
  unfold ascending. revert i j. induction l as [|x l IH]; intros i j Hs Hij Hi Hj.
  - now destruct i.
  - inversion Hs as [|? ? Hl Hx]; subst. destruct i as [|i], j as [|j]; try lia.
    + cbn in Hi, Hj. assert (a = b) by congruence. subst. apply leb_refl.
    + cbn in Hi, Hj. inversion Hi; subst.
      apply (proj1 (Forall_forall _ _) Hx). now apply nth_error_In in Hj.
    + cbn in Hi, Hj. apply (IH i j); try assumption. lia.
Qed.

(** Every key to the left of the point that the search returns is below
    [x]. *)
Lemma bisect_loop_left (x : string) (fuel lo hi : nat) :
  (forall i k, i < lo -> nth_error keys i = Some k -> String.ltb k x = true) ->
  forall i k, i < bisect_loop fuel keys x lo hi -> nth_error keys i = Some k ->
              String.ltb k x = true.
Proof.
  revert lo hi. induction fuel as [|fuel IH]; intros lo hi Hlo; [exact Hlo|].
  cbn [bisect_loop]. destruct (lo <? hi) eqn:E; [|exact Hlo].
  destruct (nth_error keys ((lo + hi) / 2)) as [km|] eqn:Em; [|exact Hlo].
  destruct (String.ltb km x) eqn:Ek; [|now apply IH].
  apply IH. intros i k Hi Hk.
  apply (leb_ltb_trans k km x); [|assumption].
  apply (sorted_nth keys i ((lo + hi) / 2)); try assumption. lia.
Qed.

Lemma takewhile_reaches (l : list string) (g t : string) :
  ascending l -> In g l -> String.ltb g t = true ->
  In g (takewhile (fun k => String.ltb k t) l).
Proof.
  unfold ascending. induction l as [|a l IH]; intros Hs Hin Hg; [contradiction|].
  inversion Hs as [|? ? Hl Ha]; subst. cbn [takewhile].
  destruct Hin as [->|Hin].
  - rewrite Hg. now left.
  - assert (E : String.ltb a t = true).
    { apply (leb_ltb_trans a g t); [|assumption].
      now apply (proj1 (Forall_forall _ _) Ha). }
    rewrite E. right. now apply IH.
Qed.

Lemma in_skipn_bisect (c : ascii) (rest : string) :
  In (String c rest) keys ->
  In (String c rest) (skipn (bisect_left keys (String c EmptyString)) keys).
Proof.
  intros Hin. set (start := bisect_left keys (String c EmptyString)).
  rewrite <- (firstn_skipn start keys) in Hin. apply in_app_or in Hin.
  destruct Hin as [Hin|Hin]; [exfalso|assumption].
  apply In_nth_error in Hin. destruct Hin as [i Hi].
  assert (Hlt : i < start).
  { assert (H : nth_error (firstn start keys) i <> None) by congruence.
    apply nth_error_Some in H. rewrite length_firstn in H. lia. }
  rewrite nth_error_firstn_lt in Hi by assumption.
  pose proof (bisect_loop_left (String c EmptyString) (List.length keys) 0
                               (List.length keys)
                               ltac:(intros; lia) i _ Hlt Hi) as H.
  now rewrite first_char_not_above in H.
Qed.

End Bisect.

(** X19: over keys in ascending order, [find_genus] returns a genus
    whenever some non-empty key is a prefix of [tax_name] other than
    [tax_name] itself: the binary search does not start behind such a
    key, and the scan does not stop before it. *)
Theorem find_genus_complete (keys : list string) (tax_name genus : string) :
  ascending keys ->
  In genus keys -> genus <> EmptyString ->
  startswith tax_name genus = true -> genus <> tax_name ->
  exists found, Greengenes.find_genus keys tax_name = Ok (Some found) /\
                In found keys /\ startswith tax_name found = true.
Proof.
  intros Hs Hin Hne Hp Hdiff. unfold startswith in Hp.
  destruct genus as [|c rest]; [congruence|].
  destruct tax_name as [|c' tn]; [discriminate|].
  assert (c' = c).
  { cbn [String.prefix] in Hp. destruct (ascii_dec c c'); [congruence|discriminate]. }
  subst c'.
  assert (Hfound : exists found,
             Greengenes.find_genus keys (String c tn) = Ok (Some found)).
  { unfold Greengenes.find_genus, getitem. cbn [String.get Py.bind].
    destruct (find _ _) as [found|] eqn:Ef; [eauto|]. exfalso.
    assert (Hreach : In (String c rest)
                        (Greengenes.takewhile
                           (fun k => String.ltb k (String c tn))
                           (skipn (Greengenes.bisect_left keys (String c EmptyString)) keys))).
    { apply takewhile_reaches.
      - now apply sorted_skipn.
      - now apply in_skipn_bisect.
      - now apply prefix_ltb. }
    pose proof (find_none _ _ Ef (String c rest) Hreach) as Hno.
    unfold startswith in Hno. congruence. }
  destruct Hfound as [found Hf]. exists found. split; [assumption|].
  destruct (find_genus_some _ _ _ Hf) as [H1 [H2 _]]. now split.
Qed.

Lemma find_genus_complete_witness :
  ascending ["Bacillus"; "Clostridium"; "Escherichia"] /\
  exists found,
    Greengenes.find_genus ["Bacillus"; "Clostridium"; "Escherichia"] "Escherichiacoli"
    = Ok (Some found).
Proof.
  assert (Hs : ascending ["Bacillus"; "Clostridium"; "Escherichia"]).
  { repeat constructor. }
  split; [exact Hs|].
  destruct (find_genus_complete ["Bacillus"; "Clostridium"; "Escherichia"]
                                "Escherichiacoli" "Escherichia" Hs)
    as [found [H _]]; try discriminate; try reflexivity.
  - right. right. now left.
  - now exists found.
Defined.

(** ** greengenes.py: [_parse_classes] *)

Section ParseClasses.

Import Lineage.

Lemma classifications_no_index_error (split : list (list string)) :
  classifications split <> Failed IndexError.
Proof.
  induction split as [|item rest IH]; [discriminate|]. cbn [classifications].
  destruct item as [|cls_key [|cls [|x item]]]; try discriminate.
  destruct cls as [|a cls]; [assumption|].
  destruct (_rank_map cls_key); [|discriminate].
  destruct (classifications rest) as [l|e]; [discriminate|]. congruence.
Qed.

(** The last step leaves the entries as they are or puts a space in the
    species name that follows a genus. *)
Lemma respace_species_parsed (rr r : list (string * string)) :
  respace_species rr = Parsed r ->
  r = rr \/
  exists s g spaced before,
    rr = ("species", s) :: ("genus", g) :: before /\
    r = ("species", spaced) :: ("genus", g) :: before /\
    Greengenes._add_space s g = Ok spaced.
Proof.
  unfold respace_species.
  destruct rr as [|[rank1 s] [|[rank2 g] before]]; try discriminate.
  - destruct (String.eqb rank1 "species"); [discriminate|]. intros H. inversion H. now left.
  - destruct (String.eqb rank1 "species") eqn:E1; [|intros H; inversion H; now left].
    destruct (String.eqb rank2 "genus") eqn:E2; [|intros H; inversion H; now left].
    destruct (startswith s g); [|intros H; inversion H; now left].
    destruct (String.get (String.length g) s) as [c|]; [|discriminate].
    destruct (negb (Ascii.eqb c " ")); [|intros H; inversion H; now left].
    destruct (Greengenes._add_space s g) as [spaced|e] eqn:Ea; [|discriminate].
    intros H. inversion H; subst. right.
    apply String.eqb_eq in E1, E2. subst.
    exists s, g, spaced, before. auto.
Qed.

Lemma respace_species_index_error (rr : list (string * string)) :
  respace_species rr = Failed IndexError <->
  rr = [] \/ (exists s, rr = [("species", s)]) \/
  exists g before, rr = ("species", g) :: ("genus", g) :: before.
Proof.
  unfold respace_species. split.
  - destruct rr as [|[rank1 s] [|[rank2 g] before]]; [now left| |].
    + destruct (String.eqb rank1 "species") eqn:E1; [|discriminate].
      apply String.eqb_eq in E1. subst. right. left. eauto.
    + destruct (String.eqb rank1 "species") eqn:E1; [|discriminate].
      destruct (String.eqb rank2 "genus") eqn:E2; [|discriminate].
      apply String.eqb_eq in E1, E2. subst.
      destruct (startswith s g) eqn:Ep; [|discriminate]. unfold startswith in Ep.
      destruct (String.get (String.length g) s) as [c|] eqn:Eg.
      * destruct (negb (Ascii.eqb c " ")) eqn:Ec; [|discriminate].
        unfold Greengenes._add_space, startswith, getitem. rewrite Ep, Eg. cbn [Py.bind].
        rewrite Ec. discriminate.
      * intros _. right. right. exists g, before.
        destruct (string_dec s g) as [->|Hne]; [reflexivity|].
        destruct (prefix_get_length _ _ Ep Hne) as [c Hc]. congruence.
  - intros [->|[[s ->]|[g [before ->]]]]; try reflexivity.
    rewrite !String.eqb_refl. unfold startswith.
    now rewrite prefix_refl, get_length_none.
Qed.

(** The entries are the items that have a name, in order, each with
    the rank of its own key. *)
Lemma classifications_items (split : list (list string)) (cl : list (string * string)) :
  classifications split = Parsed cl ->
  exists items : list (string * string),
    split = map (fun kc => [fst kc; snd kc]) items /\
    Forall2 (fun kc e => _rank_map (fst kc) = Some (fst e) /\ snd e = snd kc)
            (filter (fun kc => negb (String.eqb (snd kc) EmptyString)) items) cl.
Proof.
  revert cl. induction split as [|item rest IH]; intros cl H.
  - inversion H. exists []. split; [reflexivity|constructor].
  - cbn [classifications] in H.
    destruct item as [|cls_key [|cls [|x item]]]; try discriminate.
    destruct cls as [|a cls].
    + destruct (IH cl H) as [items [-> HF]]. exists ((cls_key, EmptyString) :: items).
      split; [reflexivity|exact HF].
    + destruct (_rank_map cls_key) as [rank|] eqn:Er; [|discriminate].
      destruct (classifications rest) as [l|e] eqn:Ec; [|discriminate].
      inversion H; subst. destruct (IH l eq_refl) as [items [-> HF]].
      exists ((cls_key, String a cls) :: items). split; [reflexivity|].
      cbn [filter snd String.eqb negb]. constructor; [|exact HF]. now split.
Qed.

End ParseClasses.

(** X20: when [_parse_classes] parses a lineage, each piece between
    semicolons, stripped and split at ['__'], is a key and a name; the
    result is the root entry followed by one entry for each piece whose
    name is not empty, in the order of the lineage, with the rank that
    [_rank_map] has for the key of that piece and with its name.  The
    only name that may differ is that of a species at the end that
    follows a genus, which is then what [_add_space] makes of it. *)
Theorem parse_classes_result (root_name classes : string) (result : list (string * string)) :
  Lineage._parse_classes root_name classes = Lineage.Parsed result ->
  exists (items : list (string * string)) (cl : list (string * string)),
    map (fun i => PyStr.split_sep "__" (PyStr.strip i)) (PyStr.split_sep ";" classes)
    = map (fun kc => [fst kc; snd kc]) items /\
    Forall2 (fun kc e => Lineage._rank_map (fst kc) = Some (fst e) /\ snd e = snd kc)
            (filter (fun kc => negb (String.eqb (snd kc) EmptyString)) items) cl /\
    (result = (root_name, root_name) :: cl \/
     exists before g s spaced,
       (root_name, root_name) :: cl = before ++ [("genus", g); ("species", s)] /\
       result = before ++ [("genus", g); ("species", spaced)] /\
       Greengenes._add_space s g = Ok spaced).
Proof.
  unfold Lineage._parse_classes.
  destruct (Lineage.classifications (Lineage.lineage_items classes)) as [cl|e] eqn:Ec;
    [|discriminate].
  destruct (Lineage.respace_species (rev ((root_name, root_name) :: cl))) as [r|e] eqn:Er;
    [|discriminate].
  intros H. inversion H; subst.
  destruct (classifications_items _ _ Ec) as [items [Hitems HF]].
  exists items, cl. split; [exact Hitems|]. split; [exact HF|].
  apply respace_species_parsed in Er.
  destruct Er as [->|[s [g [spaced [before [Hrr [-> Ha]]]]]]].
  - left. apply rev_involutive.
  - right. exists (rev before), g, s, spaced. split; [|split; [|exact Ha]].
    + rewrite <- (rev_involutive ((root_name, root_name) :: cl)), Hrr.
      cbn [rev]. now rewrite <- !app_assoc.
    + cbn [rev]. now rewrite <- !app_assoc.
Qed.

Lemma parse_classes_result_witness :
  Lineage._parse_classes "root" "k__Bacteria; p__; g__Bacillus; s__Bacillussubtilis"
  = Lineage.Parsed [("root", "root"); ("kingdom", "Bacteria"); ("genus", "Bacillus");
                    ("species", "Bacillus subtilis")] /\
  exists items : list (string * string),
    map (fun i => PyStr.split_sep "__" (PyStr.strip i))
        (PyStr.split_sep ";" "k__Bacteria; p__; g__Bacillus; s__Bacillussubtilis")
    = map (fun kc => [fst kc; snd kc]) items.
Proof.
  split; [reflexivity|].
  destruct (parse_classes_result "root" "k__Bacteria; p__; g__Bacillus; s__Bacillussubtilis"
                                 _ eq_refl) as [items [cl [H _]]].
  now exists items.
Defined.

(** X21: with a root name other than ['species'], [_parse_classes]
    raises [IndexError] exactly when the lineage ends with a genus and a
    species of the same name: the test [species[len(genus)] != ' '] that
    guards the call of [_add_space] reads one past the end. *)
Theorem parse_classes_index_error (root_name classes : string) :
  root_name <> "species" ->
  Lineage._parse_classes root_name classes = Lineage.Failed Lineage.IndexError <->
  exists cl before g,
    Lineage.classifications (Lineage.lineage_items classes) = Lineage.Parsed cl /\
    (root_name, root_name) :: cl = before ++ [("genus", g); ("species", g)].
Proof.
  intros Hroot. unfold Lineage._parse_classes. split.
  - destruct (Lineage.classifications (Lineage.lineage_items classes)) as [cl|e] eqn:Ec.
    + destruct (Lineage.respace_species (rev ((root_name, root_name) :: cl)))
        as [r|e] eqn:Er; [discriminate|].
      intros H. inversion H; subst e. apply respace_species_index_error in Er.
      destruct Er as [Er|[[s Er]|[g [before Er]]]].
      * apply (f_equal (@List.length _)) in Er. rewrite length_rev in Er. discriminate.
      * apply (f_equal (@rev _)) in Er. rewrite rev_involutive in Er. cbn in Er.
        inversion Er. congruence.
      * exists cl, (rev before), g. split; [reflexivity|].
        rewrite <- (rev_involutive ((root_name, root_name) :: cl)), Er.
        cbn [rev]. now rewrite <- !app_assoc.
    + intros H. inversion H; subst e. now apply classifications_no_index_error in Ec.
  - intros [cl [before [g [Ec Hcl]]]]. rewrite Ec, Hcl.
    rewrite rev_app_distr. cbn [rev app].
    rewrite (proj2 (respace_species_index_error _)); [reflexivity|].
    right. right. eauto.
Qed.

Lemma parse_classes_index_error_witness :
  "root" <> "species" /\
  Lineage._parse_classes "root" "k__Bacteria; g__Bacillus; s__Bacillus"
  = Lineage.Failed Lineage.IndexError.
Proof.
  assert (H : "root" <> "species") by discriminate.
  split; [exact H|].
  apply (proj2 (parse_classes_index_error "root" "k__Bacteria; g__Bacillus; s__Bacillus" H)).
  exists [("kingdom", "Bacteria"); ("genus", "Bacillus"); ("species", "Bacillus")],
         [("root", "root"); ("kingdom", "Bacteria")], "Bacillus".
  split; reflexivity.
Defined.

(** ** ncbi.py: [read_archive], [read_dmp] *)

Section DmpLines.

Lemma append_empty_r (s : string) : String.append s EmptyString = s.
Proof. induction s as [|c s IH]; [reflexivity|]. cbn. now rewrite IH. Qed.

Lemma append_assoc3 (a b c : string) :
  String.append (String.append a b) c = String.append a (String.append b c).
Proof. induction a as [|x a IH]; [reflexivity|]. cbn. now rewrite IH. Qed.

Lemma rstrip_chars_only (s : string) :
  only_line_end s = true -> PyStr.rstrip_chars line_end s = EmptyString.
Proof.
  induction s as [|c s IH]; [reflexivity|]. cbn [only_line_end PyStr.rstrip_chars].
  intros H. apply andb_true_iff in H. destruct H as [Hc Hs].
  now rewrite (IH Hs), Hc.
Qed.

Lemma rstrip_chars_app (chars a b : string) :
  PyStr.rstrip_chars chars b = EmptyString ->
  PyStr.rstrip_chars chars (String.append a b) = PyStr.rstrip_chars chars a.
Proof.
  intros Hb. induction a as [|c a IH]; [exact Hb|].
  cbn [String.append PyStr.rstrip_chars]. now rewrite IH.
Qed.

Lemma rstrip_chars_data (chars s : string) (c : ascii) :
  last_char s = Some c -> PyStr.contains c chars = false ->
  PyStr.rstrip_chars chars s = s.
Proof.
  intros Hl Hc. induction s as [|a s IH]; [reflexivity|].
  cbn [PyStr.rstrip_chars]. destruct s as [|b s].
  - cbn in Hl. inversion Hl; subst. cbn [PyStr.rstrip_chars]. now rewrite Hc.
  - rewrite IH by exact Hl. reflexivity.
Qed.

Lemma last_char_app (a b : string) :
  b <> EmptyString -> last_char (String.append a b) = last_char b.
Proof.
  intros Hb. induction a as [|c a IH]; [reflexivity|].
  cbn [String.append last_char]. rewrite IH.
  destruct (String.append a b) eqn:E; [|reflexivity].
  destruct a; [cbn in E; contradiction|discriminate].
Qed.

Lemma concat_snoc (sep : string) (fields : list string) (last : string) :
  exists pre, String.concat sep (fields ++ [last]) = String.append pre last.
Proof.
  induction fields as [|x fs [pre IH]]; [now exists EmptyString|].
  cbn [app String.concat]. rewrite IH.
  destruct (fs ++ [last]) eqn:E; [destruct fs; discriminate E|].
  exists (String.append x (String.append sep pre)). now rewrite !append_assoc3.
Qed.

Lemma prefix_field_sep (c : ascii) (s : string) :
  Ascii.eqb tab c = false -> String.prefix field_sep (String c s) = false.
Proof.
  intros H. unfold field_sep. cbn [String.prefix].
  destruct (ascii_dec tab c) as [E|]; [|reflexivity].
  apply Ascii.eqb_neq in H. contradiction.
Qed.

Lemma split_sep_from_step (sep : string) (skip : nat) (cur : string) (c : ascii)
      (s : string) :
  PyStr.split_sep_from sep skip cur (String c s)
  = match skip with
    | S n => PyStr.split_sep_from sep n cur s
    | 0 => if String.prefix sep (String c s)
           then cur :: PyStr.split_sep_from sep (String.length sep - 1) EmptyString s
           else PyStr.split_sep_from sep 0 (String.append cur (String c EmptyString)) s
    end.
Proof. reflexivity. Qed.

Lemma split_field (cur f : string) :
  PyStr.contains tab f = false ->
  PyStr.split_sep_from field_sep 0 cur f = [String.append cur f].
Proof.
  revert cur. induction f as [|c f IH]; intros cur H.
  - cbn. now rewrite append_empty_r.
  - cbn [PyStr.contains] in H. apply orb_false_iff in H. destruct H as [Hc Hf].
    rewrite split_sep_from_step, (prefix_field_sep _ _ Hc).
    now rewrite IH, append_assoc3.
Qed.

Lemma split_field_sep (cur f rest : string) :
  PyStr.contains tab f = false ->
  PyStr.split_sep_from field_sep 0 cur (String.append f (String.append field_sep rest))
  = String.append cur f :: PyStr.split_sep_from field_sep 0 EmptyString rest.
Proof.
  revert cur. induction f as [|c f IH]; intros cur H.
  - rewrite append_empty_r.
    change (String.append EmptyString (String.append field_sep rest))
      with (String tab (String "|" (String tab rest))).
    rewrite split_sep_from_step.
    change (String tab (String "|" (String tab rest))) with (String.append field_sep rest).
    rewrite prefix_append. reflexivity.
  - change (String.append (String c f) (String.append field_sep rest))
      with (String c (String.append f (String.append field_sep rest))).
    cbn [PyStr.contains] in H. apply orb_false_iff in H. destruct H as [Hc Hf].
    rewrite split_sep_from_step, (prefix_field_sep _ _ Hc).
    now rewrite IH, append_assoc3.
Qed.

(** Fields without a tab, written with the separator between them, are
    split into the same fields. *)
Lemma split_concat_fields (f : string) (fields : list string) :
  Forall (fun x => PyStr.contains tab x = false) (f :: fields) ->
  PyStr.split_sep field_sep (String.concat field_sep (f :: fields)) = f :: fields.
Proof.
  revert f. induction fields as [|g fields IH]; intros f H.
  - unfold PyStr.split_sep. cbn [String.concat]. rewrite split_field; [reflexivity|].
    now inversion H.
  - unfold PyStr.split_sep. cbn [String.concat].
    rewrite split_field_sep by now inversion H.
    cbn [String.append]. f_equal. apply IH. now inversion H.
Qed.

End DmpLines.

(** X22: a line that holds fields without tabs, the last of them ending
    in a character other than tab, bar and newline, is read back by
    [read_dmp] and [read_archive] as those fields; whatever follows the
    last such field and is made of tabs, bars and newlines only is
    dropped: the end of the line, and with it any empty fields at the
    end. *)
Theorem dmp_fields_round_trip (fields : list string) (last tail : string) :
  Forall (fun f => PyStr.contains tab f = false) (fields ++ [last]) ->
  ends_in_data last -> only_line_end tail = true ->
  dmp_fields (String.append (String.concat field_sep (fields ++ [last])) tail)
  = fields ++ [last].
Proof.
  intros Hf [c [Hl Hc]] Ht. unfold dmp_fields.
  rewrite rstrip_chars_app by now apply rstrip_chars_only.
  assert (Hne : last <> EmptyString) by (intros ->; discriminate).
  rewrite (rstrip_chars_data line_end _ c); [| |exact Hc].
  - destruct (fields ++ [last]) as [|f l] eqn:E; [destruct fields; discriminate E|].
    now apply split_concat_fields.
  - destruct (concat_snoc field_sep fields last) as [pre ->].
    now rewrite last_char_app.
Qed.

Lemma dmp_fields_round_trip_witness :
  Forall (fun f => PyStr.contains tab f = false) (["1"] ++ ["root"]) /\
  ends_in_data "root" /\
  dmp_fields (String.append (String.concat field_sep ["1"; "root"; ""; ""]) line_end)
  = ["1"; "root"].
Proof.
  assert (Hf : Forall (fun f => PyStr.contains tab f = false) (["1"] ++ ["root"]))
    by (repeat constructor).
  assert (Hd : ends_in_data "root") by (exists "t"%char; split; reflexivity).
  split; [exact Hf|]. split; [exact Hd|].
  apply (dmp_fields_round_trip ["1"] "root"
           (String.append field_sep (String.append field_sep line_end)) Hf Hd).
  reflexivity.
Defined.
